(** * Site-search autocomplete: the three search.js scripts

    The repository holds three versions of the same search-box widget:
    - [Portal]     : src/search.js           (body-level portal box),
    - [Normalized] : src/unnamed/part_000    (normalising loader, inline or portal box),
    - [Inline]     : src/unnamed/part_001    (inline box, index fetched at start-up).

    Each script is embedded as pure functions over an explicit widget state.
    A thrown [TypeError] is the [None] of the option monad.  The network is a
    pair of counters in the state (requests issued, requests still pending)
    and an event that settles a pending request.

    Strings are sequences of code units below 256 (the Latin-1 range), on
    which [toLowerCase] and [trim] are written out.  JSON numbers are the
    integers.  Escaping a text with [esc]/[escapeHtml] and reading it back
    from the DOM is the identity, so a row holds its texts unescaped.  The
    placement of the portal box, the CSS classes other than the open state,
    the ARIA attributes, [preventDefault] and the console are left out: no
    handler reads them back. *)

From stdpp Require Import gmap strings list sorting.
From Stdlib Require Import ZArith DecimalString Ascii.

Set Warnings "-register-all".
Local Open Scope Z_scope.

(** ** Strings *)

Module JsString.

(** One code unit of [String.prototype.toLowerCase]: A-Z, and the
    Latin-1 capitals U+00C0-U+00DE without the multiplication sign. *)
Definition lowerUnit (c : ascii) : ascii :=
  let n := N_of_ascii c in
  if ((65 <=? n) && (n <=? 90) ||
      (192 <=? n) && (n <=? 222) && negb (n =? 215))%N
  then ascii_of_N (n + 32) else c.

Fixpoint toLowerCase (s : string) : string :=
  match s with
  | EmptyString => EmptyString
  | String c s' => String (lowerUnit c) (toLowerCase s')
  end.

(** WhiteSpace and LineTerminator code units below 256:
    TAB, LF, VT, FF, CR, SP, NBSP. *)
Definition isWhiteSpace (c : ascii) : bool :=
  let n := N_of_ascii c in
  ((9 <=? n) && (n <=? 13) || (n =? 32) || (n =? 160))%N.

Fixpoint trimStart (s : string) : string :=
  match s with
  | EmptyString => EmptyString
  | String c s' => if isWhiteSpace c then trimStart s' else s
  end.

Fixpoint trimEnd (s : string) : string :=
  match s with
  | EmptyString => EmptyString
  | String c s' =>
      match trimEnd s' with
      | EmptyString => if isWhiteSpace c then EmptyString else String c EmptyString
      | r => String c r
      end
  end.

Definition trim (s : string) : string := trimEnd (trimStart s).

(** [s] is non-empty: the truthiness of a string. *)
Definition nonEmpty (s : string) : bool :=
  match s with EmptyString => false | String _ _ => true end.

Fixpoint startsWith (t q : string) {struct q} : bool :=
  match q, t with
  | EmptyString, _ => true
  | String a q', String b t' => if Ascii.eqb a b then startsWith t' q' else false
  | String _ _, EmptyString => false
  end.

(** [t.indexOf(q)]: the first position at which [q] occurs in [t], or -1. *)
Fixpoint indexOf_from (i : Z) (t q : string) : Z :=
  if startsWith t q then i
  else match t with
       | EmptyString => -1
       | String _ t' => indexOf_from (i + 1) t' q
       end.

Definition indexOf (t q : string) : Z := indexOf_from 0 t q.

(** Comparison of two strings by code units, as [<] on strings does. *)
Fixpoint ltb (a b : string) : bool :=
  match a, b with
  | _, EmptyString => false
  | EmptyString, String _ _ => true
  | String x a', String y b' =>
      if (N_of_ascii x <? N_of_ascii y)%N then true
      else if (N_of_ascii y <? N_of_ascii x)%N then false
      else ltb a' b'
  end.

Definition leb (a b : string) : bool := negb (ltb b a).

(** The characters of a string, each as a one-unit string. *)
Fixpoint units (s : string) : list string :=
  match s with
  | EmptyString => []
  | String c s' => String c EmptyString :: units s'
  end.

Fixpoint join (sep : string) (l : list string) : string :=
  match l with
  | [] => EmptyString
  | [x] => x
  | x :: l' => x +:+ sep +:+ join sep l'
  end.

End JsString.

(** ** Values of the index document *)

Module Js.
Import JsString.

(** What [JSON.parse] yields, and [undefined] for an absent property. *)
Inductive value : Type :=
| VUndefined
| VNull
| VBool (b : bool)
| VNum (n : Z)
| VStr (s : string)
| VArr (l : list value)
| VObj (m : gmap string value).

(** ToBoolean. *)
Definition truthy (v : value) : bool :=
  match v with
  | VUndefined | VNull => false
  | VBool b => b
  | VNum n => negb (n =? 0)
  | VStr s => nonEmpty s
  | VArr _ | VObj _ => true
  end.

(** [a || b]. *)
Definition or_else (a b : value) : value := if truthy a then a else b.

(** [v == null]. *)
Definition isNullish (v : value) : bool :=
  match v with VUndefined | VNull => true | _ => false end.

(** [String(v)].  An array joins its elements with commas, a nullish
    element giving the empty text.  A plain object gives
    [[object Object]], unless it has an own [toString] entry: such an entry
    is not callable and the inherited [valueOf] returns the object, so the
    conversion throws. *)
Fixpoint String_ (v : value) : option string :=
  match v with
  | VUndefined => Some "undefined"%string
  | VNull => Some "null"%string
  | VBool true => Some "true"%string
  | VBool false => Some "false"%string
  | VNum n => Some (NilZero.string_of_int (Z.to_int n))
  | VStr s => Some s
  | VArr l =>
      join "," <$>
        (fix elems (l : list value) : option (list string) :=
           match l with
           | [] => Some []
           | x :: l' =>
               s ← (if isNullish x then Some EmptyString else String_ x);
               r ← elems l';
               Some (s :: r)
           end) l
  | VObj m =>
      match m !! "toString"%string with
      | Some _ => None
      | None => Some "[object Object]"%string
      end
  end.

(** [v.k] for one of the property names the scripts read ([t], [title],
    [items], ...).  Reading a property of [null] or [undefined] throws.  An
    object from [JSON.parse] has its own entries and inherits none of these
    names; a number, a boolean or an array has none of them either, and a
    string only [link], which part_000 reads where it cannot matter (see
    [Normalized.normalizeEntry]). *)
Definition get (v : value) (k : string) : option value :=
  match v with
  | VUndefined | VNull => None
  | VObj m => Some (default VUndefined (m !! k))
  | _ => Some VUndefined
  end.

(** [v.toLowerCase()]: only a string has the method. *)
Definition toLowerCase_ (v : value) : option string :=
  match v with
  | VStr s => Some (toLowerCase s)
  | _ => None
  end.

End Js.

(** ** Arrays *)

Module JsArray.
Section Sort.
Context {A : Type}.
Variable comparefn : A → A → option Z.

(** [Array.prototype.sort] is stable, and with a consistent comparator
    its result is the one sorted arrangement that keeps equal elements in
    their order.  Which pairs are handed to the comparator is left to the
    engine; here it is insertion from the right, the head being placed
    before the first element it does not have to follow. *)
Fixpoint insert (x : A) (l : list A) : option (list A) :=
  match l with
  | [] => Some [x]
  | y :: l' =>
      c ← comparefn x y;
      if c <=? 0 then Some (x :: y :: l')
      else r ← insert x l'; Some (y :: r)
  end.

Fixpoint sort (l : list A) : option (list A) :=
  match l with
  | [] => Some []
  | x :: l' => r ← sort l'; insert x r
  end.
End Sort.

(** [a.slice(0, k)]. *)
Definition slice0 {A : Type} (k : nat) (a : list A) : list A := take k a.
Global Arguments slice0 : simpl never.

(** [a.length] as a number. *)
Definition len {A : Type} (a : list A) : Z := Z.of_nat (length a).

(** [a[i]] for an integer [i]; a negative or too large index gives [undefined]. *)
Definition at_ {A : Type} (a : list A) (i : Z) : option A :=
  if i <? 0 then None else a !! Z.to_nat i.
End JsArray.

(** ** The page: result rows, keys, responses *)

Module Dom.
Import Js.

(** One [.search-item] element: its url attribute and its two texts
    (an empty [row_d] is a row without description element). *)
Record row : Type := mkRow { row_url : string; row_t : string; row_d : string }.

(** The inner HTML of the results box. *)
Inductive panel : Type :=
| Blank
| Message (text : string)
| Rows (rows : list row).

(** [box.querySelectorAll(".search-item")]. *)
Definition searchItems (p : panel) : list row :=
  match p with Rows rows => rows | _ => [] end.

Inductive key : Type := ArrowDown | ArrowUp | Enter | Escape | OtherKey.

(** How the request for /search-index.json settles: the fetch rejects, or
    a response arrives with its [ok] flag and a body that parses or not. *)
Inductive response : Type :=
| NetworkError
| Response (ok : bool) (body : option value).

Inductive event : Type :=
| Focus
| Input (text : string)
| KeyDown (k : key)
| RowMouseDown (i : nat)
| OutsideMouseDown
| FetchSettled (r : response).
End Dom.

(** ** src/search.js *)

Module Portal.
Import JsString Js JsArray Dom.

Record state : Type := mkState {
  items : list value;
  loaded : bool;
  activeIndex : Z;
  display : bool;              (* box.style.display === "block" *)
  content : panel;             (* box.innerHTML *)
  input_value : string;        (* input.value *)
  focused : bool;
  href : option string;        (* window.location.href, once assigned *)
  requests : nat;              (* calls of fetch so far *)
  pending : nat                (* requests not yet settled *)
}.

Definition init (text : string) : state :=
  mkState [] false (-1) false Blank text false None 0 0.

Definition set_items (v : list value) (st : state) : state :=
  mkState v (loaded st) (activeIndex st) (display st) (content st)
          (input_value st) (focused st) (href st) (requests st) (pending st).
Definition set_content (p : panel) (st : state) : state :=
  mkState (items st) (loaded st) (activeIndex st) (display st) p
          (input_value st) (focused st) (href st) (requests st) (pending st).
Definition set_input (text : string) (st : state) : state :=
  mkState (items st) (loaded st) (activeIndex st) (display st) (content st)
          text (focused st) (href st) (requests st) (pending st).
Definition set_focused (b : bool) (st : state) : state :=
  mkState (items st) (loaded st) (activeIndex st) (display st) (content st)
          (input_value st) b (href st) (requests st) (pending st).

Definition openBox (st : state) : state :=
  mkState (items st) (loaded st) (activeIndex st) true (content st)
          (input_value st) (focused st) (href st) (requests st) (pending st).

Definition closeBox (st : state) : state :=
  mkState (items st) (loaded st) (-1) false Blank
          (input_value st) (focused st) (href st) (requests st) (pending st).

Definition score (q : string) (t d : value) : option Z :=
  let q := toLowerCase q in
  t ← toLowerCase_ (or_else t (VStr ""));
  d ← toLowerCase_ (or_else d (VStr ""));
  Some (if negb (nonEmpty q) then 0
        else if String.eqb t q then 1000
        else if indexOf t q =? 0 then 800
        else if negb (indexOf t q =? -1) then 600
        else if negb (indexOf d q =? -1) then 300
        else 0).

Definition setActive (i : Z) (st : state) : state :=
  mkState (items st) (loaded st) i (display st) (content st)
          (input_value st) (focused st) (href st) (requests st) (pending st).

Definition go (url : string) (st : state) : state :=
  if negb (nonEmpty url) then st
  else mkState (items st) (loaded st) (activeIndex st) (display st) (content st)
               (input_value st) (focused st) (Some url) (requests st) (pending st).

(** An entry of [ranked]: [{ s: s, it: it }]. *)
Record scored : Type := mkScored { s : Z; it : value }.

(** The loop of [render] that fills [ranked]. *)
Fixpoint candidates (q : string) (items : list value) : option (list scored) :=
  match items with
  | [] => Some []
  | it :: rest =>
      t ← get it "t";
      d ← get it "d";
      s ← score q t d;
      r ← candidates q rest;
      Some (if 0 <? s then mkScored s it :: r else r)
  end.

Definition comparefn (a b : scored) : option Z := Some (s b - s a).

(** [top]: the candidates, sorted, cut to ten. *)
Definition top (q : string) (items : list value) : option (list scored) :=
  ranked ← candidates q items;
  ranked ← sort comparefn ranked;
  Some (slice0 10 ranked).

(** [esc(s)] starts with [String(s == null ? "" : s)]. *)
Definition esc (v : value) : option string :=
  String_ (if isNullish v then VStr "" else v).

Definition renderRow (c : scored) : option row :=
  let r := it c in
  t ← get r "t"; t ← esc t;
  d ← get r "d"; d ← esc (or_else d (VStr ""));
  u ← get r "u"; u ← esc (or_else u (VStr "/"));
  Some (mkRow u t d).

Definition render (q : string) (st : state) : option state :=
  let q := trim q in
  if negb (nonEmpty q) then Some (closeBox st)
  else
    top ← top q (items st);
    if len top =? 0 then
      Some (openBox (set_content (Message "No results found.") st))
    else
      rows ← mapM renderRow top;
      Some (openBox (setActive (-1) (set_content (Rows rows) st))).

(** The callback every caller passes to [ensureLoaded]:
    [function () { render(input.value); }].  A throw leaves the handler
    with the state as it was, [render] writing only after its loops. *)
Definition cb (st : state) : state :=
  default st (render (input_value st) st).

Definition ensureLoaded (st : state) : state :=
  if loaded st then cb st
  else mkState (items st) true (activeIndex st) (display st) (content st)
               (input_value st) (focused st) (href st)
               (S (requests st)) (S (pending st)).

(** The [then]/[catch] chain of [ensureLoaded], run when the request
    settles.  The [catch] also receives a throw of [cb] in the [then]. *)
Definition settled (r : response) (st : state) : state :=
  match pending st with
  | O => st
  | S n =>
      let st := mkState (items st) (loaded st) (activeIndex st) (display st)
                        (content st) (input_value st) (focused st) (href st)
                        (requests st) n in
      match r with
      | Response _ (Some data) =>
          let arr :=
            if truthy data then
              match get data "items" with Some (VArr l) => l | _ => [] end
            else [] in
          let st1 := set_items arr st in
          match render (input_value st1) st1 with
          | Some st2 => st2
          | None => cb (set_items [] st1)
          end
      | _ => cb (set_items [] st)
      end
  end.

Definition keydown (k : key) (st : state) : state :=
  if negb (display st) then
    match k with
    | Enter => ensureLoaded st
    | _ => st
    end
  else
    let rows := searchItems (content st) in
    match k with
    | Escape => set_focused false (closeBox st)
    | ArrowDown =>
        if len rows =? 0 then st
        else
          let next := activeIndex st + 1 in
          let next := if next >=? len rows then len rows - 1 else next in
          setActive next st
    | ArrowUp =>
        if len rows =? 0 then st
        else
          let prev := activeIndex st - 1 in
          let prev := if prev <? 0 then 0 else prev in
          setActive prev st
    | Enter =>
        if len rows =? 0 then st
        else
          let pick := if activeIndex st >=? 0 then at_ rows (activeIndex st)
                      else at_ rows 0 in
          match pick with
          | Some row => go (row_url row) st
          | None => st
          end
    | OtherKey => st
    end.

Definition step (e : event) (st : state) : state :=
  match e with
  | Focus => ensureLoaded (set_focused true st)
  | Input text => ensureLoaded (set_input text st)
  | KeyDown k => keydown k st
  | RowMouseDown i =>
      match searchItems (content st) !! i with
      | Some row => go (row_url row) st
      | None => st
      end
  | OutsideMouseDown => closeBox st
  | FetchSettled r => settled r st
  end.

Definition run (es : list event) (st : state) : state :=
  foldl (λ st e, step e st) st es.
End Portal.

(** ** src/unnamed/part_000 *)

Module Normalized.
Import JsString Js JsArray Dom.

(** An entry of [items] after [normalizeData]: [{ t: t, d: d, u: u }]. *)
Record item : Type := mkItem { t : string; d : string; u : string }.

Record state : Type := mkState {
  items : list item;
  loaded : bool;
  loading : bool;
  activeIndex : Z;
  open : bool;
  display : bool;              (* getBox().style.display === "block" *)
  content : panel;             (* getBox().innerHTML *)
  input_value : string;        (* input.value *)
  focused : bool;
  href : option string;        (* window.location.href, once assigned *)
  requests : nat;              (* calls of fetch so far *)
  pending : nat                (* requests not yet settled *)
}.

Definition init (text : string) : state :=
  mkState [] false false (-1) false false Blank text false None 0 0.

Definition set_content (p : panel) (st : state) : state :=
  mkState (items st) (loaded st) (loading st) (activeIndex st) (open st)
          (display st) p (input_value st) (focused st) (href st)
          (requests st) (pending st).
Definition set_input (text : string) (st : state) : state :=
  mkState (items st) (loaded st) (loading st) (activeIndex st) (open st)
          (display st) (content st) text (focused st) (href st)
          (requests st) (pending st).
Definition set_focused (b : bool) (st : state) : state :=
  mkState (items st) (loaded st) (loading st) (activeIndex st) (open st)
          (display st) (content st) (input_value st) b (href st)
          (requests st) (pending st).

Definition normUrl (u : value) : option string :=
  u ← String_ (if isNullish u then VStr "" else u);
  let u := trim u in
  Some (if negb (nonEmpty u) then "/"%string else u).

Definition openBox (st : state) : state :=
  mkState (items st) (loaded st) (loading st) (activeIndex st) true
          true (content st) (input_value st) (focused st) (href st)
          (requests st) (pending st).

Definition closeBox (st : state) : state :=
  mkState (items st) (loaded st) (loading st) (-1) false
          false Blank (input_value st) (focused st) (href st)
          (requests st) (pending st).

Definition go (url : string) (st : state) : state :=
  match normUrl (VStr url) with
  | Some url =>
      if negb (nonEmpty url) then st
      else mkState (items st) (loaded st) (loading st) (activeIndex st) (open st)
                   (display st) (content st) (input_value st) (focused st)
                   (Some url) (requests st) (pending st)
  | None => st
  end.

(** [a.k1 || a.k2 || ... || ""] over a list of alias names. *)
Fixpoint firstTruthy (x : value) (keys : list string) : option value :=
  match keys with
  | [] => Some (VStr "")
  | k :: keys' =>
      v ← get x k;
      if truthy v then Some v else firstTruthy x keys'
  end.

(** The body of the loop of [normalizeData]: [None] is a throw,
    [Some None] a skipped entry.  (An entry that is itself a string
    inherits [link], a function, from its prototype, where [get] gives
    [undefined]; such an entry has no title and is skipped whatever its
    url comes to.) *)
Definition normalizeEntry (x : value) : option (option item) :=
  if negb (truthy x) then Some None
  else
    t ← firstTruthy x ["t"; "title"; "name"; "h1"]%string;
    d ← firstTruthy x ["d"; "description"; "desc"; "snippet"; "summary"]%string;
    u ← firstTruthy x ["u"; "url"; "href"; "path"; "link"]%string;
    t ← String_ (if isNullish t then VStr "" else t);
    let t := trim t in
    d ← String_ (if isNullish d then VStr "" else d);
    let d := trim d in
    u ← normUrl u;
    if negb (nonEmpty t) || negb (nonEmpty u) then Some None
    else Some (Some (mkItem t d u)).

Fixpoint normalizeEntries (raw : list value) : option (list item) :=
  match raw with
  | [] => Some []
  | x :: raw' =>
      e ← normalizeEntry x;
      out ← normalizeEntries raw';
      Some (match e with Some i => i :: out | None => out end)
  end.

Definition normalizeData (data : value) : option (list item) :=
  let raw :=
    match (if truthy data then get data "items" else Some VUndefined) with
    | Some (VArr l) => l
    | _ => match data with VArr l => l | _ => [] end
    end in
  normalizeEntries raw.

Definition score (q t d : string) : Z :=
  let q := toLowerCase q in
  let t := toLowerCase (if nonEmpty t then t else "") in
  let d := toLowerCase (if nonEmpty d then d else "") in
  if negb (nonEmpty q) then 0
  else if String.eqb t q then 1000
  else if indexOf t q =? 0 then 850
  else if negb (indexOf t q =? -1) then 650
  else if negb (indexOf d q =? -1) then 300
  else 0.

Definition setActive (i : Z) (st : state) : state :=
  mkState (items st) (loaded st) (loading st) i (open st)
          (display st) (content st) (input_value st) (focused st) (href st)
          (requests st) (pending st).

(** An entry of [ranked]: [{ s: s, it: it }]. *)
Record scored : Type := mkScored { s : Z; it : item }.

Fixpoint candidates (q : string) (items : list item) : list scored :=
  match items with
  | [] => []
  | it :: rest =>
      let s := score q (t it) (d it) in
      if 0 <? s then mkScored s it :: candidates q rest
      else candidates q rest
  end.

Definition comparefn (a b : scored) : option Z := Some (s b - s a).

(** [top]: the candidates, sorted, cut to ten.  The comparator never
    throws, and neither does the sort ([top_total]). *)
Definition top (q : string) (items : list item) : list scored :=
  slice0 10 (default [] (sort comparefn (candidates q items))).

Definition renderRow (c : scored) : row :=
  let r := it c in
  mkRow (if nonEmpty (u r) then u r else "/") (t r) (d r).

Definition render (q : string) (st : state) : state :=
  let q := trim q in
  if negb (nonEmpty q) then closeBox st
  else
    let top := top q (items st) in
    if len top =? 0 then
      openBox (set_content (Message "No results found.") st)
    else
      openBox (setActive (-1) (set_content (Rows (renderRow <$> top)) st)).

Definition cb (st : state) : state := render (input_value st) st.

Definition ensureLoaded (st : state) : state :=
  if loaded st then cb st
  else if loading st then cb st
  else mkState (items st) (loaded st) true (activeIndex st) (open st)
               (display st) (content st) (input_value st) (focused st)
               (href st) (S (requests st)) (S (pending st)).

(** Both handlers of the chain end the same way:
    [items = ...; loaded = true; loading = false; cb()]. *)
Definition finish (v : list item) (n : nat) (st : state) : state :=
  cb (mkState v true false (activeIndex st) (open st)
              (display st) (content st) (input_value st) (focused st)
              (href st) (requests st) n).

Definition settled (r : response) (st : state) : state :=
  match pending st with
  | O => st
  | S n =>
      match r with
      | Response true (Some data) =>
          match normalizeData data with
          | Some v => finish v n st
          | None => finish [] n st
          end
      | _ => finish [] n st
      end
  end.

Definition keydown (k : key) (st : state) : state :=
  let isOpen := open st && display st in
  if negb isOpen then
    match k with
    | Enter => ensureLoaded st
    | Escape => closeBox st
    | _ => st
    end
  else
    let rows := searchItems (content st) in
    match k with
    | Escape => set_focused false (closeBox st)
    | ArrowDown =>
        if len rows =? 0 then st
        else
          let next := activeIndex st + 1 in
          let next := if next >=? len rows then len rows - 1 else next in
          setActive next st
    | ArrowUp =>
        if len rows =? 0 then st
        else
          let prev := activeIndex st - 1 in
          let prev := if prev <? 0 then 0 else prev in
          setActive prev st
    | Enter =>
        if len rows =? 0 then st
        else
          let pick := if activeIndex st >=? 0 then at_ rows (activeIndex st)
                      else at_ rows 0 in
          match pick with
          | Some row => go (row_url row) st
          | None => st
          end
    | OtherKey => st
    end.

Definition step (e : event) (st : state) : state :=
  match e with
  | Focus => ensureLoaded (set_focused true st)
  | Input text => ensureLoaded (set_input text st)
  | KeyDown k => keydown k st
  | RowMouseDown i =>
      match searchItems (content st) !! i with
      | Some row => go (row_url row) st
      | None => st
      end
  | OutsideMouseDown => closeBox st
  | FetchSettled r => settled r st
  end.

Definition run (es : list event) (st : state) : state :=
  foldl (λ st e, step e st) st es.
End Normalized.

(** ** src/unnamed/part_001 *)

Module Inline.
Import JsString Js JsArray Dom.

Record state : Type := mkState {
  indexItems : value;
  ready : bool;
  active : Z;
  isOpen : bool;               (* box.classList.contains("open") *)
  content : panel;             (* box.innerHTML *)
  input_value : string;        (* input.value *)
  href : option string;        (* window.location.href, once assigned *)
  requests : nat;              (* calls of fetch so far *)
  pending : nat                (* requests not yet settled *)
}.

(** The script issues its one request when it is loaded. *)
Definition init (text : string) : state :=
  mkState (VArr []) false (-1) false Blank text None 1 1.

Definition set_input (text : string) (st : state) : state :=
  mkState (indexItems st) (ready st) (active st) (isOpen st) (content st)
          text (href st) (requests st) (pending st).

Definition norm (v : value) : option string :=
  s ← String_ (or_else v (VStr ""));
  Some (trim (toLowerCase s)).

Definition openBox (st : state) : state :=
  mkState (indexItems st) (ready st) (active st) true (content st)
          (input_value st) (href st) (requests st) (pending st).

Definition closeBox (st : state) : state :=
  mkState (indexItems st) (ready st) (-1) false Blank
          (input_value st) (href st) (requests st) (pending st).

Definition renderEmpty (st : state) : state :=
  openBox (mkState (indexItems st) (ready st) (active st) (isOpen st)
                   (Message "No results found")
                   (input_value st) (href st) (requests st) (pending st)).

(** An entry of [scored]: [{ s: s, t: it.t, u: it.u, d: it.d }]. *)
Record scored : Type := mkScored { s : Z; t : value; u : value; d : value }.

Definition renderRow (r : scored) : option row :=
  url ← String_ (u r);
  title ← String_ (t r);
  desc ← (if truthy (d r) then String_ (d r) else Some EmptyString);
  Some (mkRow url title desc).

Definition renderList (results : list scored) (st : state) : option state :=
  rows ← mapM renderRow results;
  Some (mkState (indexItems st) (ready st) (-1) true (Rows rows)
                (input_value st) (href st) (requests st) (pending st)).

Definition setActive (i : Z) (st : state) : state :=
  let items := searchItems (content st) in
  let a := if (i >=? 0) && (i <? len items) then i else -1 in
  mkState (indexItems st) (ready st) a (isOpen st) (content st)
          (input_value st) (href st) (requests st) (pending st).

Definition navigate (url : string) (st : state) : state :=
  if nonEmpty url then
    mkState (indexItems st) (ready st) (active st) (isOpen st) (content st)
            (input_value st) (Some url) (requests st) (pending st)
  else st.

Definition goActive (st : state) : state :=
  let items := searchItems (content st) in
  if (active st <? 0) || (active st >=? len items) then st
  else match at_ items (active st) with
       | Some row => navigate (row_url row) st
       | None => st
       end.

Definition scoreItem (q : string) (item : value) : option Z :=
  t ← get item "t"; t ← norm t;
  d ← get item "d"; d ← norm d;
  Some (if negb (nonEmpty q) then -1
        else if String.eqb t q then 1000
        else if indexOf t q =? 0 then 800
        else if negb (indexOf t q =? -1) then 600
        else if nonEmpty d && negb (indexOf d q =? -1) then 300
        else -1).

Fixpoint candidates (q : string) (items : list value) : option (list scored) :=
  match items with
  | [] => Some []
  | it :: rest =>
      s ← scoreItem q it;
      r ← candidates q rest;
      if s >=? 0 then
        t ← get it "t"; u ← get it "u"; d ← get it "d";
        Some (mkScored s t u d :: r)
      else Some r
  end.

Section Search.
(** How many of [i = 0, 1, 2, ...] are [<] a text, which is compared as the
    number it converts to. *)
Variable countBelow : string → nat.

(** [String.prototype.localeCompare] under the host's default locale. *)
Variable localeCompare : string → string → Z.

(** The rounds of [for (i = 0; i < n; i++)] for a value [n] of
    [indexItems.length]: [undefined] compares as NaN, [null] as 0, [true] as
    1, and an array or an object as its text. *)
Definition rounds (n : value) : option nat :=
  match n with
  | VUndefined | VNull => Some 0%nat
  | VBool b => Some (if b then 1%nat else 0%nat)
  | VNum n => Some (Z.to_nat n)
  | VStr s => Some (countBelow s)
  | VArr _ | VObj _ => s ← String_ n; Some (countBelow s)
  end.

(** The entries [indexItems[i]] that the loop of [search] visits.  An array
    gives its elements and a string its units; a number or a boolean has no
    [length]; an object is read through its own [length] and its entries
    named by the numerals. *)
Definition visited (v : value) : option (list value) :=
  match v with
  | VUndefined | VNull => None
  | VBool _ | VNum _ => Some []
  | VStr s => Some (VStr <$> units s)
  | VArr l => Some l
  | VObj m =>
      n ← rounds (default VUndefined (m !! "length"%string));
      Some ((λ i, default VUndefined
                    (m !! NilZero.string_of_uint (Nat.to_uint i))) <$> seq 0 n)
  end.

(** The loop of [search] that fills [scored]. *)
Definition scoredBy (q : string) (items : value) : option (list scored) :=
  vs ← visited items;
  candidates q vs.

Definition comparefn (a b : scored) : option Z :=
  if negb (s b =? s a) then Some (s b - s a)
  else match t a with
       | VStr x => y ← String_ (t b); Some (localeCompare x y)
       | _ => None
       end.

(** [top]: the candidates, sorted, cut to eight. *)
Definition top (q : string) (items : value) : option (list scored) :=
  scored ← scoredBy q items;
  scored ← sort comparefn scored;
  Some (slice0 8 scored).

Definition search (q : string) (st : state) : option state :=
  q ← norm (VStr q);
  if negb (nonEmpty q) then Some (closeBox st)
  else if negb (ready st) then
    Some (openBox (mkState (indexItems st) (ready st) (active st) (isOpen st)
                           (Message "Loading...")
                           (input_value st) (href st) (requests st) (pending st)))
  else
    top ← top q (indexItems st);
    if len top =? 0 then Some (renderEmpty st)
    else renderList top st.

(** The [then]/[catch] chain at the end of the script. *)
Definition settled (r : response) (st : state) : state :=
  match pending st with
  | O => st
  | S n =>
      match r with
      | Response _ (Some data) =>
          let v := if truthy data then default VUndefined (get data "items")
                   else VUndefined in
          mkState (if truthy v then v else VArr []) true (active st)
                  (isOpen st) (content st) (input_value st) (href st)
                  (requests st) n
      | _ =>
          mkState (indexItems st) false (active st)
                  (isOpen st) (content st) (input_value st) (href st)
                  (requests st) n
      end
  end.

Definition keydown (k : key) (st : state) : state :=
  if negb (isOpen st) then st
  else
    let items := searchItems (content st) in
    match k with
    | ArrowDown =>
        if len items =? 0 then st
        else
          let next := active st + 1 in
          let next := if next >=? len items then 0 else next in
          setActive next st
    | ArrowUp =>
        if len items =? 0 then st
        else
          let prev := active st - 1 in
          let prev := if prev <? 0 then len items - 1 else prev in
          setActive prev st
    | Enter => if active st >=? 0 then goActive st else st
    | Escape => closeBox st
    | OtherKey => st
    end.

(** The script has no focus handler; a throw of [search] leaves the
    input handler with the state as it was. *)
Definition step (e : event) (st : state) : state :=
  match e with
  | Focus => st
  | Input text =>
      let st := set_input text st in
      default st (search (input_value st) st)
  | KeyDown k => keydown k st
  | RowMouseDown i =>
      match searchItems (content st) !! i with
      | Some row => navigate (row_url row) st
      | None => st
      end
  | OutsideMouseDown => closeBox st
  | FetchSettled r => settled r st
  end.

Definition run (es : list event) (st : state) : state :=
  foldl (λ st e, step e st) st es.
End Search.
End Inline.

(** ** What the properties are stated with *)

Module Spec.
Import JsString Js Dom.

(** [q] occurs in [t], and [q] starts [t], said without [indexOf]. *)
Definition occursIn (q t : string) : Prop := ∃ a b, t = a +:+ q +:+ b.
Definition isPrefixOf (q t : string) : Prop := ∃ b, t = q +:+ b.

Inductive kind : Type := Exact | Prefix | InTitle | InDescription | NoMatch.

(** How a query matches a title and a description, all three already
    normalised. *)
Inductive Match (q t d : string) : kind → Prop :=
| match_exact : t = q → Match q t d Exact
| match_prefix : t ≠ q → isPrefixOf q t → Match q t d Prefix
| match_title : ¬ isPrefixOf q t → occursIn q t → Match q t d InTitle
| match_description : ¬ occursIn q t → occursIn q d → Match q t d InDescription
| match_none : ¬ occursIn q t → ¬ occursIn q d → Match q t d NoMatch.

(** Exact is the strongest kind, no match the weakest. *)
Definition strength (k : kind) : nat :=
  match k with
  | Exact => 4 | Prefix => 3 | InTitle => 2 | InDescription => 1 | NoMatch => 0
  end%nat.

(** The scores of the five kinds of match, for the three constants in
    which the scripts differ. *)
Definition points (pfx sub none : Z) (k : kind) : Z :=
  match k with
  | Exact => 1000 | Prefix => pfx | InTitle => sub
  | InDescription => 300 | NoMatch => none
  end.

Section Scoring.
Context {R C : Type}.
(** A variant scores a record, tells how the record matches, builds its
    list of candidates, and reads the score of a candidate. *)
Variable score : R → option Z.
Variable matches : R → kind → Prop.
Variable candidates : list R → option (list C).
Variable scoreOf : C → Z.

(** A stronger kind of match has the strictly higher score. *)
Definition StrictByKind : Prop :=
  ∀ r1 r2 k1 k2,
    matches r1 k1 → matches r2 k2 → (strength k2 < strength k1)%nat →
    ∃ s1 s2, score r1 = Some s1 ∧ score r2 = Some s2 ∧ s2 < s1.

(** A record without match adds no candidate; any other record adds one
    that carries its score. *)
Definition OmitsUnmatched : Prop :=
  ∀ r rest k,
    matches r k →
    (k = NoMatch → candidates (r :: rest) = candidates rest) ∧
    (k ≠ NoMatch →
     ∃ c, score r = Some (scoreOf c) ∧
          candidates (r :: rest) = (c ::.) <$> candidates rest).
End Scoring.

(** *** Texts as the scoring policy compares them

    Case folding and trimming of a text, written on their own and not with
    [toLowerCase] and [trim] of the scripts, so that the kinds of match
    below do not depend on what a script does to a text. *)

(** A capital letter: A-Z, or a capital of the Latin-1 range U+00C0-U+00DE
    (U+00D7, the multiplication sign, is no letter). *)
Definition isCapital (c : ascii) : bool :=
  Ascii.leb "A" c && Ascii.leb c "Z" ||
  Ascii.leb (ascii_of_N 192) c && Ascii.leb c (ascii_of_N 222) &&
  negb (Ascii.eqb c (ascii_of_N 215)).

(** The small letter of a capital differs from it in one bit. *)
Definition small (c : ascii) : ascii :=
  let 'Ascii b0 b1 b2 b3 b4 _ b6 b7 := c in Ascii b0 b1 b2 b3 b4 true b6 b7.

Definition foldUnit (c : ascii) : ascii := if isCapital c then small c else c.

Fixpoint caseFolded (s : string) : string :=
  match s with
  | EmptyString => EmptyString
  | String c s' => String (foldUnit c) (caseFolded s')
  end.

(** Whitespace: TAB, LF, VT, FF, CR, the space and the no-break space. *)
Definition blank (c : ascii) : bool :=
  existsb (Ascii.eqb c) (ascii_of_N <$> [9; 10; 11; 12; 13; 32; 160]%N).

Fixpoint skipBlanks (s : string) : string :=
  match s with
  | EmptyString => EmptyString
  | String c s' => if blank c then skipBlanks s' else s
  end.

Fixpoint reversed (s : string) : string :=
  match s with
  | EmptyString => EmptyString
  | String c s' => reversed s' +:+ String c EmptyString
  end.

(** A text without the whitespace before it and after it. *)
Definition stripped (s : string) : string :=
  reversed (skipBlanks (reversed (skipBlanks s))).

(** A text case-folded and whitespace-trimmed. *)
Definition normalized (s : string) : string := stripped (caseFolded s).

(** The text of a field of a record: the record is an object, and the
    field holds a text, or is missing and counts as the empty text. *)
Definition field (it : value) (name : string) : option string :=
  match it with
  | VObj m =>
      match m !! name with
      | None => Some EmptyString
      | Some (VStr s) => Some s
      | Some _ => None
      end
  | _ => None
  end.

(** How a query matches a record: the kind of match between the query and
    the normalised title and description of the record. *)
Definition RecordMatch (q : string) (it : value) (k : kind) : Prop :=
  ∃ t d, field it "t" = Some t ∧ field it "d" = Some d ∧
         Match q (normalized t) (normalized d) k.

(** The same for a record whose title has no whitespace around it. *)
Definition TidyMatch (q : string) (it : value) (k : kind) : Prop :=
  ∃ t d, field it "t" = Some t ∧ field it "d" = Some d ∧
         stripped t = t ∧ Match q (normalized t) (normalized d) k.

(** The same for a record of the list that part_000 has loaded. *)
Definition LoadedMatch (items : list Normalized.item)
    (q : string) (it : Normalized.item) (k : kind) : Prop :=
  it ∈ items ∧
  Match q (normalized (Normalized.t it)) (normalized (Normalized.d it)) k.

(** The score of a record in src/search.js, as the loop of [render] takes
    it: [score(q, it.t, it.d)]. *)
Definition PortalScore (q : string) (it : value) : option Z :=
  t ← get it "t"; d ← get it "d"; Portal.score q t d.

(** The score of a record in part_000: [score(q, it.t, it.d)]. *)
Definition NormalizedScore (q : string) (it : Normalized.item) : option Z :=
  Some (Normalized.score q (Normalized.t it) (Normalized.d it)).

Section Ranking.
Context {A : Type}.
Variable score : A → Z.

(** Descending score. *)
Definition byScore (a b : A) : Prop := score b ≤ score a.

(** Descending score, and [tie] between candidates of one score. *)
Definition byScoreThen (tie : A → A → Prop) (a b : A) : Prop :=
  score b < score a ∨ (score a = score b ∧ tie a b).

(** The candidates of score [z], in the order of the list. *)
Definition ofScore (z : Z) (l : list A) : list A :=
  filter (λ c, score c = z) l.

(** [r] is the first [k] of an arrangement of [cs] sorted by [before]. *)
Definition FirstOf (before : A → A → Prop) (k : nat) (cs r : list A) : Prop :=
  length r = (k `min` length cs)%nat ∧
  ∃ rest, cs ≡ₚ r ++ rest ∧ StronglySorted before (r ++ rest).

(** [r] is the first [k] of the arrangement of [cs] by descending
    score in which candidates of one score keep the order of [cs]. *)
Definition FirstOfStable (k : nat) (cs r : list A) : Prop :=
  length r = (k `min` length cs)%nat ∧
  ∃ rest, cs ≡ₚ r ++ rest ∧ StronglySorted byScore (r ++ rest) ∧
          ∀ z, ofScore z (r ++ rest) = ofScore z cs.
End Ranking.

(** The title and the url of a raw entry as [normalizeData] resolves
    them through the alias names, trimmed, before any default. *)
Definition resolvedTitle (x : value) : option string :=
  v ← Normalized.firstTruthy x ["t"; "title"; "name"; "h1"]%string;
  s ← String_ (if isNullish v then VStr "" else v);
  Some (trim s).

Definition resolvedUrl (x : value) : option string :=
  v ← Normalized.firstTruthy x ["u"; "url"; "href"; "path"; "link"]%string;
  s ← String_ (if isNullish v then VStr "" else v);
  Some (trim s).

Definition resolvedDescription (x : value) : option string :=
  v ← Normalized.firstTruthy x
        ["d"; "description"; "desc"; "snippet"; "summary"]%string;
  s ← String_ (if isNullish v then VStr "" else v);
  Some (trim s).

(** An entry with a title: it is not null (nor another value that counts
    as false), and its resolved title is not empty. *)
Definition titled (x : value) : bool :=
  truthy x &&
  match resolvedTitle x with Some s => nonEmpty s | None => false end.

(** A record is what an entry resolves to: its title, its description, and
    its url, or "/" when the url is empty. *)
Definition LoadedAs (x : value) (i : Normalized.item) : Prop :=
  resolvedTitle x = Some (Normalized.t i) ∧
  resolvedDescription x = Some (Normalized.d i) ∧
  ∃ url, resolvedUrl x = Some url ∧
         Normalized.u i = if nonEmpty url then url else "/"%string.

(** The title of a candidate of src/search.js, when it is a text. *)
Definition PortalTitle (c : Portal.scored) : string :=
  match get (Portal.it c) "t" with
  | Some (VStr x) => x
  | _ => ""%string
  end.

(** In part_001 a candidate carries the title as the record has it. *)
Definition hasTextTitle (c : Inline.scored) : Prop :=
  ∃ x, Inline.t c = VStr x.

Definition InlineTitleLe (localeCompare : string → string → Z)
    (a b : Inline.scored) : Prop :=
  ∃ x y, Inline.t a = VStr x ∧ Inline.t b = VStr y ∧ localeCompare x y ≤ 0.

(** Ascending order of two titles by code units. *)
Definition titleLe (a b : string) : Prop := leb a b = true.

(** A text that does not start with a blank. *)
Definition headKept (s : string) : Prop :=
  match s with
  | EmptyString => True
  | String c _ => isWhiteSpace c = false
  end.

(** The two keys that move the cursor. *)
Definition isArrow (k : key) : bool :=
  match k with ArrowDown | ArrowUp => true | _ => false end.

(** A fetch that rejects, or a body that does not parse. *)
Definition failed (r : response) : bool :=
  match r with
  | NetworkError => true
  | Response _ None => true
  | Response _ (Some _) => false
  end.

Definition isSettle (e : event) : bool :=
  match e with FetchSettled _ => true | _ => false end.

(** The events whose handlers call the loader outright. *)
Definition callsLoader (e : event) : bool :=
  match e with Focus | Input _ => true | _ => false end.

(** Where the one request of a widget stands. *)
Inductive phase : Type := Idle | InFlight | Settled.

Definition PortalPhase (st : Portal.state) (p : phase) : Prop :=
  match p with
  | Idle => Portal.loaded st = false ∧
            Portal.requests st = 0%nat ∧ Portal.pending st = 0%nat
  | InFlight => Portal.loaded st = true ∧
                Portal.requests st = 1%nat ∧ Portal.pending st = 1%nat
  | Settled => Portal.loaded st = true ∧
               Portal.requests st = 1%nat ∧ Portal.pending st = 0%nat
  end.

Definition NormalizedPhase (st : Normalized.state) (p : phase) : Prop :=
  match p with
  | Idle => Normalized.loaded st = false ∧ Normalized.loading st = false ∧
            Normalized.requests st = 0%nat ∧ Normalized.pending st = 0%nat
  | InFlight => Normalized.loaded st = false ∧ Normalized.loading st = true ∧
                Normalized.requests st = 1%nat ∧ Normalized.pending st = 1%nat
  | Settled => Normalized.loaded st = true ∧ Normalized.loading st = false ∧
               Normalized.requests st = 1%nat ∧ Normalized.pending st = 0%nat
  end.

(** How an event moves the phase: a call of the loader starts the request
    of an idle widget, the settling ends the request in flight, and nothing
    leaves the settled phase. *)
Definition next (e : event) (p p' : phase) : Prop :=
  match p with
  | Idle => if callsLoader e then p' = InFlight else p' = Idle ∨ p' = InFlight
  | InFlight => if isSettle e then p' = Settled else p' = InFlight
  | Settled => p' = Settled
  end.

(** What the handlers other than the loader's leave alone. *)
Definition netP (st : Portal.state) : bool * nat * nat * list value :=
  (Portal.loaded st, Portal.requests st, Portal.pending st, Portal.items st).

Definition netN (st : Normalized.state)
    : bool * bool * nat * nat * list Normalized.item :=
  (Normalized.loaded st, Normalized.loading st, Normalized.requests st,
   Normalized.pending st, Normalized.items st).

Definition netI (st : Inline.state) : bool * nat * value :=
  (Inline.ready st, Inline.pending st, Inline.indexItems st).

(** A comparison of texts that a sort can use: either of two texts may
    go first, and going first carries over. *)
Definition Consistent (cmp : string → string → Z) : Prop :=
  (∀ x y, 0 < cmp x y → cmp y x ≤ 0) ∧
  (∀ x y z, cmp x y ≤ 0 → cmp y z ≤ 0 → cmp x z ≤ 0).

(** A reading of texts as numbers under which no text is above 0. *)
Definition countNone (s : string) : nat := 0%nat.

(** Comparison by code units, as a comparator. *)
Definition unitCompare (a b : string) : Z :=
  if ltb a b then -1 else if ltb b a then 1 else 0.
End Spec.

(** ** Index documents used as instances *)

Module Examples.
Import Js.

Definition record (t u : string) : value :=
  VObj {[ "t"%string := VStr t; "u"%string := VStr u ]}.

(** The two records of the ranking example: the prefix match comes first
    in the index, the exact match second. *)
Definition pies : list value :=
  [record "Apple Pie" "/a"; record "Apple" "/b"].

(** Two titles that start with the query, the later title first. *)
Definition ties : list value := [record "xb" "/b"; record "xa" "/a"].

(** Eleven normalised entries whose titles start with the query, in
    descending order of title. *)
Definition eleven : list Normalized.item :=
  (λ t, Normalized.mkItem t "" "/") <$>
    ["xk"; "xj"; "xi"; "xh"; "xg"; "xf"; "xe"; "xd"; "xc"; "xb"; "xa"]%string.

(** Three raw entries: one with an empty title, one without url, and one
    that has both. *)
Definition entries : list value :=
  [VObj {[ "title"%string := VStr ""; "url"%string := VStr "/x" ]};
   VObj {[ "t"%string := VStr "X" ]};
   record "Apple" "/b"].

(** The index of the ranking example arrives, and a query is typed. *)
Definition applesTyped : list Dom.event :=
  [Dom.Focus;
   Dom.FetchSettled
     (Dom.Response true (Some (VObj {[ "items"%string := VArr pies ]})));
   Dom.Input "apple"].

(** A record whose url is an empty array, the index that holds it alone,
    and the events that bring its row into the panel. *)
Definition noUrl : value :=
  VObj {[ "t"%string := VStr "x"; "u"%string := VArr [] ]}.

Definition noUrlTyped : list Dom.event :=
  [Dom.Focus;
   Dom.FetchSettled
     (Dom.Response true (Some (VObj {[ "items"%string := VArr [noUrl] ]})));
   Dom.Input "x"].

(** Three rows and the last of them active. *)
Definition threeRows : list Dom.row :=
  [Dom.mkRow "/a" "A" ""; Dom.mkRow "/b" "B" ""; Dom.mkRow "/c" "C" ""].

(** The three widgets with their panel open on [rows] and the cursor at [a]. *)
Definition portalOpen (rows : list Dom.row) (a : Z) : Portal.state :=
  Portal.mkState [] true a true (Dom.Rows rows) "x" true None 1 0.

Definition normalizedOpen (rows : list Dom.row) (a : Z) : Normalized.state :=
  Normalized.mkState [] true false a true true (Dom.Rows rows) "x" true None 1 0.

Definition inlineOpen (rows : list Dom.row) (a : Z) : Inline.state :=
  Inline.mkState (VArr []) true a true (Dom.Rows rows) "x" None 1 0.
End Examples.

(** ** Escaping of texts for the inner HTML *)

Module Html.
Import JsString.

(** The double quote and the apostrophe. *)
Definition quot : ascii := ascii_of_N 34.
Definition apos : ascii := ascii_of_N 39.

(** The class of the pattern of [esc]: the ampersand, the two angle
    brackets and the two quotes. *)
Definition special (c : ascii) : bool :=
  Ascii.eqb c "&" || Ascii.eqb c "<" || Ascii.eqb c ">" ||
  Ascii.eqb c quot || Ascii.eqb c apos.

(** The replacement function of [esc]. *)
Definition entity (c : ascii) : string :=
  if Ascii.eqb c "&" then "&amp;"
  else if Ascii.eqb c "<" then "&lt;"
  else if Ascii.eqb c ">" then "&gt;"
  else if Ascii.eqb c quot then "&quot;"
  else "&#39;".

(** [esc] of src/search.js and part_000 on the text that its [String(...)]
    gives ([Portal.esc]): every unit of the class is replaced, in one pass. *)
Fixpoint esc (s : string) : string :=
  match s with
  | EmptyString => EmptyString
  | String c s' =>
      if special c then entity c +:+ esc s' else String c (esc s')
  end.

(** [s.replace(/c/g, by)] for a pattern of one unit. *)
Fixpoint replaceAll (c : ascii) (by_ : string) (s : string) : string :=
  match s with
  | EmptyString => EmptyString
  | String x s' =>
      if Ascii.eqb x c then by_ +:+ replaceAll c by_ s'
      else String x (replaceAll c by_ s')
  end.

(** [escapeHtml] of part_001: five replacements, one after the other. *)
Definition escapeHtml (s : string) : string :=
  replaceAll apos "&#39;"
    (replaceAll quot "&quot;"
       (replaceAll ">" "&gt;"
          (replaceAll "<" "&lt;"
             (replaceAll "&" "&amp;" s)))).

(** The units of a text. *)
Fixpoint codeUnits (s : string) : list ascii :=
  match s with
  | EmptyString => []
  | String c s' => c :: codeUnits s'
  end.
End Html.

(** ** What the further properties are stated with *)

Module Props.
Import JsString Js JsArray Dom.

(** The panel and its cursor fit together: the cursor is -1 or the index of
    a row; a panel that is not shown is blank and has no cursor; a shown
    panel is not blank; and rows, when there are any, are between one and
    [k]. *)
Definition PanelOk (k : Z) (shown : bool) (content : panel) (cursor : Z) : Prop :=
  -1 ≤ cursor ∧
  (shown = false → content = Blank ∧ cursor = -1) ∧
  (shown = true → content ≠ Blank) ∧
  (∀ rows, content = Rows rows → 1 ≤ len rows ≤ k ∧ cursor < len rows).

Definition PortalPanelOk (st : Portal.state) : Prop :=
  PanelOk 10 (Portal.display st) (Portal.content st) (Portal.activeIndex st).

Definition NormalizedPanelOk (st : Normalized.state) : Prop :=
  Normalized.open st = Normalized.display st ∧
  PanelOk 10 (Normalized.display st) (Normalized.content st)
          (Normalized.activeIndex st).

Definition InlinePanelOk (st : Inline.state) : Prop :=
  PanelOk 8 (Inline.isOpen st) (Inline.content st) (Inline.active st).

(** What is on the page of each widget. *)
Definition pageP (st : Portal.state) : bool * panel * Z :=
  (Portal.display st, Portal.content st, Portal.activeIndex st).

Definition pageN (st : Normalized.state) : bool * bool * panel * Z :=
  (Normalized.open st, Normalized.display st, Normalized.content st,
   Normalized.activeIndex st).

Definition pageI (st : Inline.state) : bool * panel * Z :=
  (Inline.isOpen st, Inline.content st, Inline.active st).

(** The object [{ t: t, d: d, u: u }] that [normalizeData] pushes. *)
Definition itemValue (i : Normalized.item) : value :=
  VObj {[ "t"%string := VStr (Normalized.t i);
          "d"%string := VStr (Normalized.d i);
          "u"%string := VStr (Normalized.u i) ]}.

(** The score of src/search.js for the kind of match that part_000 gives
    the score [s]: the two scripts differ in the scores of a prefix and of
    an occurrence in the title. *)
Definition portalScore (s : Z) : Z :=
  if s =? 850 then 800 else if s =? 650 then 600 else s.

(** A candidate of part_000 as the candidate of src/search.js for the same
    record. *)
Definition asPortal (c : Normalized.scored) : Portal.scored :=
  Portal.mkScored (portalScore (Normalized.s c)) (itemValue (Normalized.it c)).

(** A url as part_000 stores it: not empty, and without blanks around. *)
Definition storedUrl (s : string) : Prop := nonEmpty s = true ∧ trim s = s.

(** The urls of part_000, in the records of its list and in the rows of its
    panel, are stored urls. *)
Definition NormalizedUrlsOk (st : Normalized.state) : Prop :=
  Forall (λ i, storedUrl (Normalized.u i)) (Normalized.items st) ∧
  Forall (λ r, storedUrl (row_url r)) (searchItems (Normalized.content st)).

(** A field of a record that [score] of src/search.js can lower: a text,
    or a value that counts as false. *)
Definition lowerable (v : value) : Prop :=
  truthy v = false ∨ ∃ x, v = VStr x.

(** An entry that the loop of [render] of src/search.js can score. *)
Definition scorable (it : value) : Prop :=
  ∃ t d, get it "t" = Some t ∧ get it "d" = Some d ∧ lowerable t ∧ lowerable d.
End Props.

(** ** Strings: facts *)

Section StringFacts.
Import JsString Spec.

Lemma append_cons c (a b : string) : String c a +:+ b = String c (a +:+ b).
Proof. reflexivity. Qed.

Lemma append_nil (b : string) : "" +:+ b = b.
Proof. reflexivity. Qed.

Lemma startsWith_isPrefixOf t q : startsWith t q = true ↔ isPrefixOf q t.
Proof.
  revert t. induction q as [|a q IH]; intros t; simpl.
  - split; [intros _; by exists t | done].
  - destruct t as [|b t].
    + split; [done | intros [r Hr]; rewrite append_cons in Hr; discriminate].
    + destruct (Ascii.eqb_spec a b) as [->|Hne].
      * rewrite IH. split; intros [r Hr]; exists r;
          rewrite append_cons in *; congruence.
      * split; [done | intros [r Hr]; rewrite append_cons in Hr; congruence].
Qed.

Lemma indexOf_from_range i t q :
  indexOf_from i t q = -1 ∨ i ≤ indexOf_from i t q.
Proof.
  revert i. induction t as [|c t IH]; intros i; simpl;
    destruct (startsWith _ q); try lia.
  destruct (IH (i + 1)); lia.
Qed.

Lemma indexOf_from_start i t q :
  0 ≤ i → indexOf_from i t q = i ↔ startsWith t q = true.
Proof.
  intros Hi. destruct t as [|c t]; simpl.
  - destruct (startsWith "" q); [done | split; [lia | done]].
  - destruct (startsWith (String c t) q); [done |].
    split; [| done]. destruct (indexOf_from_range (i + 1) t q); lia.
Qed.

Lemma occursIn_here q t : startsWith t q = true → occursIn q t.
Proof.
  intros E. apply startsWith_isPrefixOf in E as [r Hr].
  exists ""%string, r. by rewrite append_nil.
Qed.

Lemma occursIn_later q c t :
  startsWith (String c t) q = false →
  occursIn q (String c t) ↔ occursIn q t.
Proof.
  intros E. split.
  - intros ([|x a] & b & Hab).
    + rewrite append_nil in Hab.
      assert (isPrefixOf q (String c t)) as Hp by (by exists b).
      apply startsWith_isPrefixOf in Hp. congruence.
    + rewrite append_cons in Hab. injection Hab as -> ->. by exists a, b.
  - intros (a & b & ->). exists (String c a), b. by rewrite append_cons.
Qed.

Lemma indexOf_from_found i t q :
  0 ≤ i → indexOf_from i t q ≠ -1 ↔ occursIn q t.
Proof.
  revert i. induction t as [|c t IH]; intros i Hi; simpl.
  - destruct (startsWith "" q) eqn:E.
    + split; [intros _; by apply occursIn_here | lia].
    + split; [done | intros ([|x a] & b & Hab)].
      * rewrite append_nil in Hab.
        assert (isPrefixOf q "") as Hp by (by exists b).
        apply startsWith_isPrefixOf in Hp. congruence.
      * rewrite append_cons in Hab. discriminate.
  - destruct (startsWith (String c t) q) eqn:E.
    + split; [intros _; by apply occursIn_here | lia].
    + rewrite (IH (i + 1)) by lia. symmetry. by apply occursIn_later.
Qed.

Lemma indexOf_zero t q : (indexOf t q =? 0) = true ↔ isPrefixOf q t.
Proof.
  rewrite Z.eqb_eq. unfold indexOf.
  rewrite indexOf_from_start by done. apply startsWith_isPrefixOf.
Qed.

Lemma indexOf_found t q : negb (indexOf t q =? -1) = true ↔ occursIn q t.
Proof.
  rewrite negb_true_iff, Z.eqb_neq. by apply indexOf_from_found.
Qed.

Lemma isPrefixOf_occursIn q t : isPrefixOf q t → occursIn q t.
Proof. intros [b ->]. exists ""%string, b. by rewrite append_nil. Qed.

Lemma append_empty (a : string) : a +:+ "" = a.
Proof. induction a as [|c a IH]; [done |]. by rewrite append_cons, IH. Qed.

Lemma isPrefixOf_refl q : isPrefixOf q q.
Proof. exists ""%string. by rewrite append_empty. Qed.

Lemma nonEmpty_toLowerCase s : nonEmpty (toLowerCase s) = nonEmpty s.
Proof. by destruct s. Qed.

Lemma occursIn_empty q : nonEmpty q = true → ¬ occursIn q "".
Proof.
  intros Hq ([|x a] & b & Hab).
  - destruct q; [discriminate |].
    rewrite append_nil, append_cons in Hab. discriminate.
  - rewrite append_cons in Hab. discriminate.
Qed.

Lemma isWhiteSpace_lowerUnit c : isWhiteSpace (lowerUnit c) = isWhiteSpace c.
Proof.
  destruct c as [[] [] [] [] [] [] [] []]; vm_compute; reflexivity.
Qed.

Lemma trimStart_toLowerCase s :
  trimStart (toLowerCase s) = toLowerCase (trimStart s).
Proof.
  induction s as [|c s IH]; simpl; [done |].
  rewrite isWhiteSpace_lowerUnit. by destruct (isWhiteSpace c).
Qed.

Lemma trimEnd_toLowerCase s :
  trimEnd (toLowerCase s) = toLowerCase (trimEnd s).
Proof.
  induction s as [|c s IH]; simpl; [done |].
  rewrite IH, isWhiteSpace_lowerUnit.
  destruct (trimEnd s); simpl; by destruct (isWhiteSpace c).
Qed.

Lemma trim_toLowerCase s : trim (toLowerCase s) = toLowerCase (trim s).
Proof. unfold trim. by rewrite trimStart_toLowerCase, trimEnd_toLowerCase. Qed.

Lemma nonEmpty_false s : nonEmpty s = false ↔ s = ""%string.
Proof. by destruct s. Qed.
End StringFacts.

(** ** Scoring: facts *)

Section ScoreFacts.
Import JsString Js Spec.

(** The cascade of tests shared by the three scoring functions. *)
Lemma cascade_points (pfx sub none : Z) q t d k :
  Match q t d k →
  (if String.eqb t q then 1000
   else if indexOf t q =? 0 then pfx
   else if negb (indexOf t q =? -1) then sub
   else if negb (indexOf d q =? -1) then 300
   else none) = points pfx sub none k.
Proof.
  intros HM.
  destruct (String.eqb_spec t q) as [Heq|Hne].
  { subst t. pose proof (isPrefixOf_refl q) as Hp.
    destruct HM as [| Hn _ | Hn _ | Hn _ | Hn _]; try done; exfalso;
      apply Hn; try done; by apply isPrefixOf_occursIn. }
  destruct (indexOf t q =? 0) eqn:E0.
  { apply indexOf_zero in E0.
    destruct HM as [| | Hn _ | Hn _ | Hn _]; try done; exfalso;
      apply Hn; try done; by apply isPrefixOf_occursIn. }
  assert (¬ isPrefixOf q t) as Hnp.
  { rewrite <-indexOf_zero. by rewrite E0. }
  destruct (negb (indexOf t q =? -1)) eqn:E1.
  { apply indexOf_found in E1.
    destruct HM as [| | | Hn _ | Hn _]; done. }
  assert (¬ occursIn q t) as Hnt.
  { rewrite <-indexOf_found. by rewrite E1. }
  destruct (negb (indexOf d q =? -1)) eqn:E2.
  { apply indexOf_found in E2.
    destruct HM as [| | Hp Ho | | ? Hn]; done. }
  assert (¬ occursIn q d) as Hnd.
  { rewrite <-indexOf_found. by rewrite E2. }
  destruct HM as [| | | |]; done.
Qed.

Lemma points_strict pfx sub none k1 k2 :
  none < 300 → 300 < sub → sub < pfx → pfx < 1000 →
  (strength k2 < strength k1)%nat →
  points pfx sub none k2 < points pfx sub none k1.
Proof. destruct k1, k2; simpl; lia. Qed.

Lemma strict_of_points {R : Type} (score : R → option Z)
    (matches : R → kind → Prop) pfx sub none :
  none < 300 → 300 < sub → sub < pfx → pfx < 1000 →
  (∀ r k, matches r k → score r = Some (points pfx sub none k)) →
  StrictByKind score matches.
Proof.
  intros ???? Hs r1 r2 k1 k2 H1 H2 Hlt.
  exists (points pfx sub none k1), (points pfx sub none k2).
  split_and!; [by apply Hs | by apply Hs | by apply points_strict].
Qed.

Lemma Portal_score_points q tv dv t d k :
  nonEmpty q = true →
  toLowerCase_ (or_else tv (VStr "")) = Some t →
  toLowerCase_ (or_else dv (VStr "")) = Some d →
  Match (toLowerCase q) t d k →
  Portal.score q tv dv = Some (points 800 600 0 k).
Proof.
  intros Hq Ht Hd HM.
  unfold Portal.score. rewrite Ht, Hd. simpl.
  rewrite nonEmpty_toLowerCase, Hq. simpl.
  f_equal. by apply cascade_points.
Qed.

Lemma or_empty (t : string) : (if nonEmpty t then t else ""%string) = t.
Proof. by destruct t. Qed.

Lemma Normalized_score_points q t d k :
  nonEmpty q = true →
  Match (toLowerCase q) (toLowerCase t) (toLowerCase d) k →
  Normalized.score q t d = points 850 650 0 k.
Proof.
  intros Hq HM. unfold Normalized.score.
  rewrite !or_empty, nonEmpty_toLowerCase, Hq. simpl.
  by apply cascade_points.
Qed.

Lemma Inline_score_points q it tv dv t d k :
  nonEmpty q = true →
  get it "t" = Some tv → get it "d" = Some dv →
  Inline.norm tv = Some t → Inline.norm dv = Some d →
  Match q t d k →
  Inline.scoreItem q it = Some (points 800 600 (-1) k).
Proof.
  intros Hq Ht Hd Hnt Hnd HM.
  unfold Inline.scoreItem. rewrite Ht. simpl. rewrite Hnt. simpl.
  rewrite Hd. simpl. rewrite Hnd. simpl. rewrite Hq. simpl. f_equal.
  rewrite <-(cascade_points 800 600 (-1) q t d k HM).
  destruct d as [|c d]; [| done]. simpl.
  destruct (negb (indexOf "" q =? -1)) eqn:E; [| done].
  apply indexOf_found in E. by apply occursIn_empty in E.
Qed.

Lemma bind_Some_id {A : Type} (o : option A) : (o ≫= λ r, Some r) = o.
Proof. by destruct o. Qed.

Lemma bind_Some_cons {A : Type} (c : A) (o : option (list A)) :
  (o ≫= λ r, Some (c :: r)) = (c ::.) <$> o.
Proof. by destruct o. Qed.

(** What one more record adds to the candidates, in each script. *)
Lemma Portal_candidates_cons q it rest z :
  PortalScore q it = Some z →
  Portal.candidates q (it :: rest)
  = if 0 <? z then (Portal.mkScored z it ::.) <$> Portal.candidates q rest
    else Portal.candidates q rest.
Proof.
  unfold PortalScore. intros Hs. simpl.
  destruct (get it "t") as [tv|]; simpl in *; [| done].
  destruct (get it "d") as [dv|]; simpl in *; [| done].
  rewrite Hs. simpl.
  destruct (Portal.candidates q rest); simpl; [| by destruct (0 <? z)].
  by destruct (0 <? z).
Qed.

Lemma Normalized_candidates_cons q it rest :
  Normalized.candidates q (it :: rest)
  = if 0 <? Normalized.score q (Normalized.t it) (Normalized.d it)
    then Normalized.mkScored
           (Normalized.score q (Normalized.t it) (Normalized.d it)) it
         :: Normalized.candidates q rest
    else Normalized.candidates q rest.
Proof. reflexivity. Qed.

Lemma Inline_candidates_cons q it rest z tv uv dv :
  Inline.scoreItem q it = Some z →
  get it "t" = Some tv → get it "u" = Some uv → get it "d" = Some dv →
  Inline.candidates q (it :: rest)
  = if z >=? 0 then (Inline.mkScored z tv uv dv ::.) <$> Inline.candidates q rest
    else Inline.candidates q rest.
Proof.
  intros Hs Ht Hu Hd. simpl. rewrite Hs. simpl.
  destruct (Inline.candidates q rest); simpl; [| by destruct (z >=? 0)].
  destruct (z >=? 0); [| done]. by rewrite Ht, Hu, Hd.
Qed.

(** Scores that are the points of the kind of match are strictly ordered by
    kind, and leave the records without match out of the candidates. *)
Lemma omits_of_points {R C : Type} (score : R → option Z)
    (matches : R → kind → Prop) (candidates : list R → option (list C))
    (scoreOf : C → Z) (mk : Z → R → C) pfx sub none :
  (∀ z r, scoreOf (mk z r) = z) →
  (∀ r k, matches r k → score r = Some (points pfx sub none k)) →
  (∀ r rest k, matches r k →
     candidates (r :: rest)
     = if strength k =? 0 then candidates rest
       else (mk (points pfx sub none k) r ::.) <$> candidates rest)%nat →
  OmitsUnmatched score matches candidates scoreOf.
Proof.
  intros Hmk Hs Hc r rest k HM. rewrite (Hc r rest k HM). split.
  - by intros ->.
  - intros Hk. exists (mk (points pfx sub none k) r).
    rewrite Hmk. split; [by apply Hs |]. by destruct k.
Qed.
End ScoreFacts.

(** ** Sorting: facts *)

Section SortFacts.
Import JsArray.
Context {A : Type}.
Variable cmp : A → A → option Z.

Lemma insert_Permutation x l r : insert cmp x l = Some r → r ≡ₚ x :: l.
Proof.
  revert r. induction l as [|y l IH]; intros r; simpl.
  - by intros [= <-].
  - destruct (cmp x y) as [c|]; simpl; [| done].
    destruct (c <=? 0); [by intros [= <-] |].
    destruct (insert cmp x l) as [r'|]; simpl; [| done].
    intros [= <-]. rewrite (IH r' eq_refl). apply Permutation_swap.
Qed.

Lemma sort_Permutation l r : sort cmp l = Some r → r ≡ₚ l.
Proof.
  revert r. induction l as [|x l IH]; intros r; simpl.
  - by intros [= <-].
  - destruct (sort cmp l) as [r'|]; simpl; [| done].
    intros Hi. apply insert_Permutation in Hi.
    by rewrite Hi, (IH r' eq_refl).
Qed.

Section Ordered.
(** The comparator is defined on the elements that satisfy [P], and
    there it decides a transitive relation [R]. *)
Variable P : A → Prop.
Variable R : A → A → Prop.
Hypothesis cmp_defined : ∀ a b, P a → P b → is_Some (cmp a b).
Hypothesis cmp_le : ∀ a b c, P a → P b → cmp a b = Some c → c ≤ 0 → R a b.
Hypothesis cmp_gt : ∀ a b c, P a → P b → cmp a b = Some c → 0 < c → R b a.
Hypothesis R_trans : ∀ a b c, P a → P b → P c → R a b → R b c → R a c.

Lemma insert_is_Some x l : P x → Forall P l → is_Some (insert cmp x l).
Proof.
  intros Hx. induction 1 as [|y l Hy Hl IH]; simpl; [done |].
  destruct (cmp_defined x y Hx Hy) as [c ->]. simpl.
  destruct (c <=? 0); [done |]. by destruct IH as [r' ->].
Qed.

Lemma sort_is_Some l : Forall P l → is_Some (sort cmp l).
Proof.
  induction 1 as [|x l Hx Hl IH]; simpl; [done |].
  destruct IH as [r' Hr']. rewrite Hr'. simpl.
  apply insert_is_Some; [done |].
  apply sort_Permutation in Hr'. by rewrite Hr'.
Qed.

Lemma insert_StronglySorted x l r :
  P x → Forall P l → StronglySorted R l →
  insert cmp x l = Some r → StronglySorted R r.
Proof.
  intros Hx Hl. revert r.
  induction Hl as [|y l Hy Hl IH]; intros r HS; simpl.
  - intros [= <-]. repeat constructor.
  - destruct (cmp x y) as [c|] eqn:Hc; simpl; [| done].
    apply StronglySorted_inv in HS as [HS Hall].
    destruct (Z.leb_spec c 0).
    + intros [= <-].
      assert (R x y) as Hxy by eauto.
      constructor; [by constructor |].
      constructor; [done |].
      rewrite Forall_forall in Hall, Hl. apply Forall_forall.
      intros z Hz. eapply (R_trans x y z); eauto.
    + destruct (insert cmp x l) as [r'|] eqn:Hi; simpl; [| done].
      intros [= <-]. constructor; [by apply IH |].
      apply insert_Permutation in Hi. rewrite Hi.
      constructor; [by eauto | done].
Qed.

Lemma sort_StronglySorted l r :
  Forall P l → sort cmp l = Some r → StronglySorted R r.
Proof.
  intros Hl. revert r.
  induction Hl as [|x l Hx Hl IH]; intros r; simpl.
  - intros [= <-]. constructor.
  - destruct (sort cmp l) as [r'|] eqn:Hr'; simpl; [| done].
    apply insert_StronglySorted; [done | | by apply IH].
    apply sort_Permutation in Hr'. by rewrite Hr'.
Qed.
End Ordered.

Section Stable.
(** Elements of the class [E] never have to be exchanged. *)
Variable E : A → Prop.
Context `{!∀ x, Decision (E x)}.
Hypothesis cmp_class : ∀ a b c, E a → E b → cmp a b = Some c → c ≤ 0.

Lemma insert_filter x l r :
  insert cmp x l = Some r → filter E r = filter E (x :: l).
Proof.
  revert r. induction l as [|y l IH]; intros r; simpl.
  - by intros [= <-].
  - destruct (cmp x y) as [c|] eqn:Hc; simpl; [| done].
    destruct (Z.leb_spec c 0) as [Hle|Hgt]; [by intros [= <-] |].
    destruct (insert cmp x l) as [r'|] eqn:Hi; simpl; [| done].
    intros [= <-]. rewrite !filter_cons, (IH r' eq_refl), filter_cons.
    destruct (decide (E x)) as [Ex|], (decide (E y)) as [Ey|]; try done.
    pose proof (cmp_class x y c Ex Ey Hc). lia.
Qed.

Lemma sort_filter l r : sort cmp l = Some r → filter E r = filter E l.
Proof.
  revert r. induction l as [|x l IH]; intros r; simpl.
  - by intros [= <-].
  - destruct (sort cmp l) as [r'|] eqn:Hr'; simpl; [| done].
    intros Hi. apply insert_filter in Hi.
    by rewrite Hi, !filter_cons, (IH r' eq_refl).
Qed.
End Stable.

(** Cutting a sorted arrangement of [cs] after [k] entries. *)
Lemma FirstOf_slice0 (R : A → A → Prop) k cs sorted :
  sorted ≡ₚ cs → StronglySorted R sorted →
  Spec.FirstOf R k cs (slice0 k sorted).
Proof.
  intros Hp HS. split.
  - unfold slice0. by rewrite length_take, (Permutation_length Hp).
  - exists (drop k sorted). unfold slice0. by rewrite take_drop.
Qed.

Lemma StronglySorted_slice0 (R : A → A → Prop) k l :
  StronglySorted R l → StronglySorted R (slice0 k l).
Proof.
  intros HS. rewrite <-(take_drop k l) in HS.
  by apply StronglySorted_app_1_l in HS.
Qed.

Lemma filter_slice0_prefix (E : A → Prop) `{!∀ x, Decision (E x)} k l :
  filter E (slice0 k l) `prefix_of` filter E l.
Proof.
  exists (filter E (drop k l)). unfold slice0.
  by rewrite <-filter_app, take_drop.
Qed.
End SortFacts.

(** ** Ranking: facts *)

Section RankFacts.
Import JsString Js JsArray Spec.

Lemma Portal_sorted cs :
  ∃ sorted, sort Portal.comparefn cs = Some sorted ∧ sorted ≡ₚ cs ∧
            StronglySorted (byScore Portal.s) sorted ∧
            ∀ z, ofScore Portal.s z sorted = ofScore Portal.s z cs.
Proof.
  destruct (sort_is_Some Portal.comparefn (λ _, True) (λ _ _ _ _, ltac:(done)) cs)
    as [sorted Hs]; [by apply Forall_true |].
  exists sorted. split_and!; [done | by eapply sort_Permutation | |].
  - eapply (sort_StronglySorted _ (λ _, True)); [| | | by apply Forall_true | done].
    + intros a b c _ _ [= <-]. unfold byScore. lia.
    + intros a b c _ _ [= <-]. unfold byScore. lia.
    + unfold byScore. intros. lia.
  - intros z. eapply (sort_filter _ (λ c, Portal.s c = z)); [| done].
    intros a b c Ha Hb [= <-]. lia.
Qed.

Lemma Normalized_sorted cs :
  ∃ sorted, sort Normalized.comparefn cs = Some sorted ∧ sorted ≡ₚ cs ∧
            StronglySorted (byScore Normalized.s) sorted ∧
            ∀ z, ofScore Normalized.s z sorted = ofScore Normalized.s z cs.
Proof.
  destruct (sort_is_Some Normalized.comparefn (λ _, True) (λ _ _ _ _, ltac:(done)) cs)
    as [sorted Hs]; [by apply Forall_true |].
  exists sorted. split_and!; [done | by eapply sort_Permutation | |].
  - eapply (sort_StronglySorted _ (λ _, True)); [| | | by apply Forall_true | done].
    + intros a b c _ _ [= <-]. unfold byScore. lia.
    + intros a b c _ _ [= <-]. unfold byScore. lia.
    + unfold byScore. intros. lia.
  - intros z. eapply (sort_filter _ (λ c, Normalized.s c = z)); [| done].
    intros a b c Ha Hb [= <-]. lia.
Qed.

(** The sort of part_000 never throws. *)
Lemma top_total q items :
  ∃ sorted, sort Normalized.comparefn (Normalized.candidates q items) = Some sorted ∧
            Normalized.top q items = slice0 10 sorted.
Proof.
  destruct (Normalized_sorted (Normalized.candidates q items)) as (sorted & Hs & _).
  exists sorted. split; [done |]. unfold Normalized.top. by rewrite Hs.
Qed.

Lemma Inline_sorted localeCompare cs :
  Consistent localeCompare → Forall hasTextTitle cs →
  ∃ sorted, sort (Inline.comparefn localeCompare) cs = Some sorted ∧
            sorted ≡ₚ cs ∧
            StronglySorted (byScoreThen Inline.s (InlineTitleLe localeCompare)) sorted.
Proof.
  intros [Hanti Htrans] Hcs.
  assert (∀ a b, hasTextTitle a → hasTextTitle b →
            is_Some (Inline.comparefn localeCompare a b)) as Hdef.
  { intros a b [x Hx] [y Hy]. unfold Inline.comparefn.
    destruct (negb _); [done |]. by rewrite Hx, Hy. }
  destruct (sort_is_Some _ hasTextTitle Hdef cs Hcs) as [sorted Hs].
  exists sorted. split_and!; [done | by eapply sort_Permutation |].
  eapply (sort_StronglySorted _ hasTextTitle); [| | | done | done].
  - intros a b c [x Hx] [y Hy]. unfold Inline.comparefn, byScoreThen.
    destruct (Z.eqb_spec (Inline.s b) (Inline.s a)) as [He|Hne]; simpl.
    + rewrite Hx, Hy. simpl. intros [= <-] Hle.
      right. split; [done |]. by exists x, y.
    + intros [= <-] Hle. left. lia.
  - intros a b c [x Hx] [y Hy]. unfold Inline.comparefn, byScoreThen.
    destruct (Z.eqb_spec (Inline.s b) (Inline.s a)) as [He|Hne]; simpl.
    + rewrite Hx, Hy. simpl. intros [= <-] Hgt.
      right. split; [done |]. exists y, x. split_and!; [done..|]. by apply Hanti.
    + intros [= <-] Hgt. left. lia.
  - intros a b c _ _ _ [Hab|[Hab (x & y & Hx & Hy & Hxy)]]
      [Hbc|[Hbc (y' & z & Hy' & Hz & Hyz)]]; unfold byScoreThen;
      [left; lia | left; lia | left; lia |].
    right. split; [lia |]. exists x, z. split_and!; [done..|].
    rewrite Hy in Hy'. injection Hy' as <-. by eapply Htrans.
Qed.
End RankFacts.

(** ** Order of texts by code units: facts *)

Section UnitOrderFacts.
Import JsString Spec.

Lemma ltb_asym x y : ltb x y = true → ltb y x = false.
Proof.
  revert y. induction x as [|a x IH]; intros [|b y]; simpl; try done.
  destruct (N.ltb_spec (N_of_ascii a) (N_of_ascii b)),
           (N.ltb_spec (N_of_ascii b) (N_of_ascii a)); try done; try lia.
  apply IH.
Qed.

Lemma ltb_false_trans x y z :
  ltb y x = false → ltb z y = false → ltb z x = false.
Proof.
  revert y z. induction x as [|a x IH]; intros [|b y] [|c z]; simpl; try done.
  destruct (N.ltb_spec (N_of_ascii b) (N_of_ascii a)),
           (N.ltb_spec (N_of_ascii a) (N_of_ascii b)),
           (N.ltb_spec (N_of_ascii c) (N_of_ascii b)),
           (N.ltb_spec (N_of_ascii b) (N_of_ascii c)),
           (N.ltb_spec (N_of_ascii c) (N_of_ascii a)),
           (N.ltb_spec (N_of_ascii a) (N_of_ascii c));
    try done; try lia.
  apply IH.
Qed.

Lemma unitCompare_le x y : unitCompare x y ≤ 0 ↔ ltb y x = false.
Proof.
  unfold unitCompare. destruct (ltb x y) eqn:E.
  - apply ltb_asym in E. rewrite E. split; [done | lia].
  - destruct (ltb y x); split; try done; lia.
Qed.

Lemma unitCompare_Consistent : Consistent unitCompare.
Proof.
  split.
  - intros x y Hgt. apply unitCompare_le.
    unfold unitCompare in Hgt. destruct (ltb x y) eqn:E; [lia | done].
  - intros x y z. rewrite !unitCompare_le. intros H1 H2.
    by apply (ltb_false_trans x y z).
Qed.
End UnitOrderFacts.

(** ** The ranked list *)

Section RankedList.
Import JsString Js JsArray Spec.

(** C1, as the three scripts have it.  Each ranked list is sorted by the
    comparator its script hands to [sort]: in part_001 by descending score
    and, between candidates of one score, by ascending [localeCompare] of
    the titles; in src/search.js and part_000 by descending score alone,
    candidates of one score staying in the order of the index. *)
Theorem ranking_follows_the_comparator
    (q : string) (countBelow : string → nat)
    (localeCompare : string → string → Z)
    (itemsP : list value) (csP : list Portal.scored)
    (itemsN : list Normalized.item)
    (itemsI : value) (csI : list Inline.scored) :
  Portal.candidates q itemsP = Some csP →
  Consistent localeCompare →
  Inline.scoredBy countBelow q itemsI = Some csI →
  Forall hasTextTitle csI →
  (∃ r, Portal.top q itemsP = Some r ∧
        StronglySorted (byScore Portal.s) r ∧
        ∀ z, ofScore Portal.s z r `prefix_of` ofScore Portal.s z csP) ∧
  (StronglySorted (byScore Normalized.s) (Normalized.top q itemsN) ∧
   ∀ z, ofScore Normalized.s z (Normalized.top q itemsN)
          `prefix_of` ofScore Normalized.s z (Normalized.candidates q itemsN)) ∧
  (∃ r, Inline.top countBelow localeCompare q itemsI = Some r ∧
        StronglySorted (byScoreThen Inline.s (InlineTitleLe localeCompare)) r).
Proof.
  intros HcsP Hlc HcsI Htitles. split; [| split].
  - destruct (Portal_sorted csP) as (sorted & Hs & _ & HS & Hst).
    exists (slice0 10 sorted). unfold Portal.top. rewrite HcsP. simpl.
    rewrite Hs. simpl. split_and!; [done | by apply StronglySorted_slice0 |].
    intros z. rewrite <-(Hst z). apply filter_slice0_prefix.
  - destruct (top_total q itemsN) as (sorted & Hs & ->).
    destruct (Normalized_sorted (Normalized.candidates q itemsN))
      as (sorted' & Hs' & _ & HS & Hst).
    rewrite Hs in Hs'. injection Hs' as <-.
    split; [by apply StronglySorted_slice0 |].
    intros z. rewrite <-(Hst z). apply filter_slice0_prefix.
  - destruct (Inline_sorted localeCompare csI Hlc Htitles)
      as (sorted & Hs & _ & HS).
    exists (slice0 8 sorted). unfold Inline.top. rewrite HcsI. simpl.
    rewrite Hs. simpl. split; [done | by apply StronglySorted_slice0].
Qed.

Lemma ranking_follows_the_comparator_witness :
  Portal.candidates "x" Examples.ties
    = Some (default [] (Portal.candidates "x" Examples.ties)) ∧
  Consistent unitCompare ∧
  Inline.scoredBy countNone "x" (VArr Examples.ties)
    = Some (default [] (Inline.candidates "x" Examples.ties)) ∧
  Forall hasTextTitle (default [] (Inline.candidates "x" Examples.ties)) ∧
  (∃ r, Portal.top "x" Examples.ties = Some r ∧
        StronglySorted (byScore Portal.s) r ∧
        ∀ z, ofScore Portal.s z r
               `prefix_of` ofScore Portal.s z
                             (default [] (Portal.candidates "x" Examples.ties))) ∧
  (StronglySorted (byScore Normalized.s) (Normalized.top "x" Examples.eleven) ∧
   ∀ z, ofScore Normalized.s z (Normalized.top "x" Examples.eleven)
          `prefix_of` ofScore Normalized.s z
                        (Normalized.candidates "x" Examples.eleven)) ∧
  (∃ r, Inline.top countNone unitCompare "x" (VArr Examples.ties) = Some r ∧
        StronglySorted (byScoreThen Inline.s (InlineTitleLe unitCompare)) r).
Proof.
  assert (Portal.candidates "x" Examples.ties
          = Some (default [] (Portal.candidates "x" Examples.ties))) as H1
    by (vm_compute; reflexivity).
  assert (Inline.scoredBy countNone "x" (VArr Examples.ties)
          = Some (default [] (Inline.candidates "x" Examples.ties))) as H2
    by (vm_compute; reflexivity).
  assert (Forall hasTextTitle (default [] (Inline.candidates "x" Examples.ties)))
    as H3.
  { vm_compute. repeat (constructor; [by eexists |]). constructor. }
  split_and!; [exact H1 | exact unitCompare_Consistent | exact H2 | exact H3 | ..];
    apply (ranking_follows_the_comparator "x" countNone unitCompare Examples.ties _
             Examples.eleven (VArr Examples.ties) _
             H1 unitCompare_Consistent H2 H3).
Defined.

(** C1 as it is stated fails in src/search.js: two titles that start
    with the query have one score, and the later title stays first. *)
Lemma ties_keep_index_order :
  ∃ r, Portal.top "x" Examples.ties = Some r ∧
       ¬ StronglySorted
           (byScoreThen Portal.s (λ a b, titleLe (PortalTitle a) (PortalTitle b)))
           r.
Proof.
  eexists. split; [vm_compute; reflexivity |].
  intros HS. apply StronglySorted_inv in HS as [_ Hall].
  apply Forall_cons in Hall as [[Hlt | [_ Hle]] _].
  - vm_compute in Hlt. discriminate.
  - vm_compute in Hle. discriminate.
Qed.

(** C6, as the three scripts have it.  The list has at most K entries,
    ten in src/search.js and part_000 and eight in part_001, and it is the
    first K of the candidates as the script sorts them: by descending
    score and ascending [localeCompare] of the titles in part_001, by
    descending score with the candidates of one score in index order in
    the other two. *)
Theorem top_is_the_first_K_as_sorted
    (q : string) (countBelow : string → nat)
    (localeCompare : string → string → Z)
    (itemsP : list value) (csP : list Portal.scored)
    (itemsN : list Normalized.item)
    (itemsI : value) (csI : list Inline.scored) :
  Portal.candidates q itemsP = Some csP →
  Consistent localeCompare →
  Inline.scoredBy countBelow q itemsI = Some csI →
  Forall hasTextTitle csI →
  (∃ r, Portal.top q itemsP = Some r ∧ (length r ≤ 10)%nat ∧
        FirstOfStable Portal.s 10 csP r) ∧
  ((length (Normalized.top q itemsN) ≤ 10)%nat ∧
   FirstOfStable Normalized.s 10 (Normalized.candidates q itemsN)
                 (Normalized.top q itemsN)) ∧
  (∃ r, Inline.top countBelow localeCompare q itemsI = Some r ∧ (length r ≤ 8)%nat ∧
        FirstOf (byScoreThen Inline.s (InlineTitleLe localeCompare)) 8 csI r).
Proof.
  intros HcsP Hlc HcsI Htitles. split; [| split].
  - destruct (Portal_sorted csP) as (sorted & Hs & Hp & HS & Hst).
    exists (slice0 10 sorted). unfold Portal.top. rewrite HcsP. simpl.
    rewrite Hs. simpl. unfold slice0, FirstOfStable.
    rewrite length_take, (Permutation_length Hp).
    split_and!; [done | lia | done |].
    exists (drop 10 sorted). by rewrite take_drop.
  - destruct (top_total q itemsN) as (sorted & Hs & ->).
    destruct (Normalized_sorted (Normalized.candidates q itemsN))
      as (sorted' & Hs' & Hp & HS & Hst).
    rewrite Hs in Hs'. injection Hs' as <-.
    unfold slice0, FirstOfStable.
    rewrite length_take, (Permutation_length Hp).
    split_and!; [lia | done |].
    exists (drop 10 sorted). by rewrite take_drop.
  - destruct (Inline_sorted localeCompare csI Hlc Htitles)
      as (sorted & Hs & Hp & HS).
    exists (slice0 8 sorted). unfold Inline.top. rewrite HcsI. simpl.
    rewrite Hs. simpl.
    split_and!; [done | unfold slice0; rewrite length_take; lia |].
    by apply FirstOf_slice0.
Qed.

Lemma top_is_the_first_K_as_sorted_witness :
  Portal.candidates "x" Examples.ties
    = Some (default [] (Portal.candidates "x" Examples.ties)) ∧
  Consistent unitCompare ∧
  Inline.scoredBy countNone "x" (VArr Examples.ties)
    = Some (default [] (Inline.candidates "x" Examples.ties)) ∧
  Forall hasTextTitle (default [] (Inline.candidates "x" Examples.ties)) ∧
  (∃ r, Portal.top "x" Examples.ties = Some r ∧ (length r ≤ 10)%nat ∧
        FirstOfStable Portal.s 10
          (default [] (Portal.candidates "x" Examples.ties)) r) ∧
  ((length (Normalized.top "x" Examples.eleven) ≤ 10)%nat ∧
   FirstOfStable Normalized.s 10 (Normalized.candidates "x" Examples.eleven)
                 (Normalized.top "x" Examples.eleven)) ∧
  (∃ r, Inline.top countNone unitCompare "x" (VArr Examples.ties) = Some r ∧
        (length r ≤ 8)%nat ∧
        FirstOf (byScoreThen Inline.s (InlineTitleLe unitCompare)) 8
          (default [] (Inline.candidates "x" Examples.ties)) r).
Proof.
  assert (Portal.candidates "x" Examples.ties
          = Some (default [] (Portal.candidates "x" Examples.ties))) as H1
    by (vm_compute; reflexivity).
  assert (Inline.scoredBy countNone "x" (VArr Examples.ties)
          = Some (default [] (Inline.candidates "x" Examples.ties))) as H2
    by (vm_compute; reflexivity).
  assert (Forall hasTextTitle (default [] (Inline.candidates "x" Examples.ties)))
    as H3.
  { vm_compute. repeat (constructor; [by eexists |]). constructor. }
  split_and!; [exact H1 | exact unitCompare_Consistent | exact H2 | exact H3 | ..];
    apply (top_is_the_first_K_as_sorted "x" countNone unitCompare Examples.ties _
             Examples.eleven (VArr Examples.ties) _
             H1 unitCompare_Consistent H2 H3).
Defined.

(** C6 as it is stated fails in part_000: of eleven titles that start
    with the query the first ten of the index are returned, and the
    eleventh, left out, has the least title. *)
Lemma eleventh_title_left_out :
  ¬ FirstOf
      (byScoreThen Normalized.s
         (λ a b, titleLe (Normalized.t (Normalized.it a))
                         (Normalized.t (Normalized.it b))))
      10 (Normalized.candidates "x" Examples.eleven)
      (Normalized.top "x" Examples.eleven).
Proof.
  intros [_ (rest & Hp & HS)].
  set (xk := Normalized.mkScored 850 (Normalized.mkItem "xk" "" "/")).
  set (xa := Normalized.mkScored 850 (Normalized.mkItem "xa" "" "/")).
  assert (xk ∈ Normalized.top "x" Examples.eleven) as Hk
    by (vm_compute; apply list_elem_of_here).
  assert (xa ∈ Normalized.candidates "x" Examples.eleven) as Ha
    by (vm_compute; do 10 apply list_elem_of_further; apply list_elem_of_here).
  rewrite Hp in Ha. apply elem_of_app in Ha as [Ha | Ha].
  - vm_compute in Ha.
    repeat (apply elem_of_cons in Ha as [Ha | Ha]; [discriminate Ha |]).
    by apply elem_of_nil in Ha.
  - pose proof (StronglySorted_app_1_elem_of _ _ _ _ _ HS Hk Ha) as [Hlt | [_ Hle]].
    + vm_compute in Hlt. discriminate.
    + vm_compute in Hle. discriminate.
Qed.
End RankedList.

(** ** Scores *)

Section Scores.
Import JsString Js JsArray Spec.

(** The ranking example: the exact match is scored above the prefix
    match in each script, and comes first. *)
Example apple_before_apple_pie :
  PortalTitle <$> default [] (Portal.top "apple" Examples.pies)
    = ["Apple"; "Apple Pie"]%string ∧
  Portal.s <$> default [] (Portal.top "apple" Examples.pies) = [1000; 800] ∧
  Inline.s <$> default [] (Inline.top countNone unitCompare "apple" (VArr Examples.pies))
    = [1000; 800].
Proof. vm_compute. done. Qed.
End Scores.

(** ** The loader's normalisation *)

Section Normalisation.
Import JsString Js JsArray Spec.

Lemma normUrl_nonEmpty v u : Normalized.normUrl v = Some u → nonEmpty u = true.
Proof.
  unfold Normalized.normUrl.
  destruct (String_ _) as [s|]; simpl; [| done].
  intros [= <-]. by destruct (trim s).
Qed.

(** What a run of the loop body that does not throw went through. *)
Lemma normalizeEntry_Some x e :
  truthy x = true →
  Normalized.normalizeEntry x = Some e →
  ∃ title d url,
    resolvedTitle x = Some title ∧ resolvedUrl x = Some url ∧
    e = if negb (nonEmpty title) then None
        else Some (Normalized.mkItem title d
                     (if nonEmpty url then url else "/"%string)).
Proof.
  intros Hx He. unfold Normalized.normalizeEntry in He.
  rewrite Hx in He. simpl negb in He. cbv iota in He.
  apply bind_Some in He as (tv & Htv & He).
  apply bind_Some in He as (dv & Hdv & He).
  apply bind_Some in He as (uv & Huv & He).
  apply bind_Some in He as (ts & Hts & He).
  apply bind_Some in He as (ds & Hds & He).
  apply bind_Some in He as (us & Hus & He).
  unfold Normalized.normUrl in Hus.
  apply bind_Some in Hus as (us' & Hus' & Hus).
  injection Hus as <-.
  exists (trim ts), (trim ds), (trim us').
  unfold resolvedTitle, resolvedUrl.
  rewrite Htv, Huv. simpl. rewrite Hts, Hus'. simpl.
  split_and!; [done..|].
  destruct (trim ts); simpl in *; [congruence |].
  destruct (trim us'); simpl in *; congruence.
Qed.

Lemma normalizeEntry_kept x i :
  Normalized.normalizeEntry x = Some (Some i) →
  nonEmpty (Normalized.t i) = true ∧ nonEmpty (Normalized.u i) = true.
Proof.
  intros He. destruct (truthy x) eqn:Hx.
  - apply (normalizeEntry_Some x) in He as (title & d & url & _ & _ & He); [| done].
    destruct title; simpl in He; [done |]. injection He as ->. simpl.
    by destruct url.
  - unfold Normalized.normalizeEntry in He. by rewrite Hx in He.
Qed.

Lemma normalizeEntries_kept raw items :
  Normalized.normalizeEntries raw = Some items →
  Forall (λ i, nonEmpty (Normalized.t i) = true ∧
               nonEmpty (Normalized.u i) = true) items.
Proof.
  revert items. induction raw as [|x raw IH]; intros items; simpl.
  - intros [= <-]. constructor.
  - destruct (Normalized.normalizeEntry x) as [e|] eqn:He; simpl; [| done].
    destruct (Normalized.normalizeEntries raw) as [out|]; simpl; [| done].
    destruct e as [i|]; intros [= <-]; [| by apply IH].
    constructor; [by apply (normalizeEntry_kept x) | by apply IH].
Qed.

Lemma normalizeEntry_resolved x e :
  truthy x = true →
  Normalized.normalizeEntry x = Some e →
  ∃ title d url,
    resolvedTitle x = Some title ∧ resolvedDescription x = Some d ∧
    resolvedUrl x = Some url ∧
    e = if negb (nonEmpty title) then None
        else Some (Normalized.mkItem title d
                     (if nonEmpty url then url else "/"%string)).
Proof.
  intros Hx He. unfold Normalized.normalizeEntry in He.
  rewrite Hx in He. simpl negb in He. cbv iota in He.
  apply bind_Some in He as (tv & Htv & He).
  apply bind_Some in He as (dv & Hdv & He).
  apply bind_Some in He as (uv & Huv & He).
  apply bind_Some in He as (ts & Hts & He).
  apply bind_Some in He as (ds & Hds & He).
  apply bind_Some in He as (us & Hus & He).
  unfold Normalized.normUrl in Hus.
  apply bind_Some in Hus as (us' & Hus' & Hus).
  injection Hus as <-.
  exists (trim ts), (trim ds), (trim us').
  unfold resolvedTitle, resolvedDescription, resolvedUrl.
  rewrite Htv, Hdv, Huv. simpl. rewrite Hts, Hds, Hus'. simpl.
  split_and!; [done..|].
  destruct (trim ts); simpl in *; [congruence |].
  destruct (trim us'); simpl in *; congruence.
Qed.

(** The loop of [normalizeData] keeps the entries with a title, in their
    order, each as the record it resolves to. *)
Lemma normalizeEntries_titled raw items :
  Normalized.normalizeEntries raw = Some items →
  Forall2 LoadedAs (filter (λ x, titled x = true) raw) items.
Proof.
  revert items. induction raw as [|x raw IH]; intros items; simpl.
  - intros [= <-]. constructor.
  - destruct (Normalized.normalizeEntry x) as [e|] eqn:He; simpl; [| done].
    destruct (Normalized.normalizeEntries raw) as [out|]; simpl; [| done].
    specialize (IH out eq_refl).
    destruct (truthy x) eqn:Hx.
    + apply (normalizeEntry_resolved x) in He
        as (title & d & url & Ht & Hd & Hu & ->); [| done].
      destruct title as [|c title]; simpl; intros [= <-].
      * rewrite filter_cons_False; [done |].
        unfold titled. rewrite Hx, Ht. simpl. discriminate.
      * rewrite filter_cons_True.
        2:{ unfold titled. by rewrite Hx, Ht. }
        constructor; [| done]. split_and!; [done | done |]. by exists url.
    + unfold Normalized.normalizeEntry in He. rewrite Hx in He.
      injection He as <-. intros [= <-].
      rewrite filter_cons_False; [done |].
      unfold titled. rewrite Hx. simpl. discriminate.
Qed.

(** C3, as part_000 has it.  The loaded list is, in the order of the
    index, the entries that have a title (they are not null, and their
    resolved title is not empty), each as the record it resolves to: an entry
    whose resolved title is empty is dropped, and an entry with a title whose
    resolved url is empty, or absent, is kept, with the url "/".  Every record
    of the loaded list has a non-empty title and a non-empty url. *)
Theorem normalizeData_loads_the_titled_entries
    (raw : list value) (data : value) (items : list Normalized.item) :
  data = VArr raw ∨ get data "items" = Some (VArr raw) →
  Normalized.normalizeData data = Some items →
  Forall2 LoadedAs (filter (λ x, titled x = true) raw) items ∧
  Forall (λ i, nonEmpty (Normalized.t i) = true ∧
               nonEmpty (Normalized.u i) = true) items.
Proof.
  intros Hraw Hdata.
  assert (Normalized.normalizeEntries raw = Some items) as He.
  { rewrite <-Hdata. unfold Normalized.normalizeData.
    destruct Hraw as [-> | Hraw]; [reflexivity |].
    destruct data as [| | | | | |m]; try done.
    simpl in Hraw |- *. injection Hraw as Hraw. by rewrite Hraw. }
  split; [by apply normalizeEntries_titled | by apply (normalizeEntries_kept raw)].
Qed.

Lemma normalizeData_loads_the_titled_entries_witness :
  (VArr Examples.entries = VArr Examples.entries ∨
   get (VArr Examples.entries) "items" = Some (VArr Examples.entries)) ∧
  Normalized.normalizeData (VArr Examples.entries)
    = Some [Normalized.mkItem "X" "" "/"; Normalized.mkItem "Apple" "" "/b"] ∧
  Forall2 LoadedAs (filter (λ x, titled x = true) Examples.entries)
          [Normalized.mkItem "X" "" "/"; Normalized.mkItem "Apple" "" "/b"] ∧
  Forall (λ i, nonEmpty (Normalized.t i) = true ∧
               nonEmpty (Normalized.u i) = true)
         [Normalized.mkItem "X" "" "/"; Normalized.mkItem "Apple" "" "/b"].
Proof.
  assert (Normalized.normalizeData (VArr Examples.entries)
          = Some [Normalized.mkItem "X" "" "/"; Normalized.mkItem "Apple" "" "/b"])
    as H by (vm_compute; reflexivity).
  split; [by left |]. split; [exact H |].
  exact (normalizeData_loads_the_titled_entries
           Examples.entries (VArr Examples.entries) _ (or_introl eq_refl) H).
Defined.

(** Which of the three entries have a title, and what the two that are
    kept resolve to. *)
Example titled_entries :
  titled <$> Examples.entries = [false; true; true] ∧
  resolvedUrl <$> Examples.entries
    = [Some "/x"; Some ""; Some "/b"]%string.
Proof. split; vm_compute; reflexivity. Qed.

(** C3 as it is stated fails on an entry without url: [{t:"X"}] resolves
    to an empty url and is kept, with the url "/". *)
Lemma entry_without_url_is_kept :
  resolvedUrl (VObj {[ "t"%string := VStr "X" ]}) = Some ""%string ∧
  Normalized.normalizeData (VArr [VObj {[ "t"%string := VStr "X" ]}])
    = Some [Normalized.mkItem "X" "" "/"].
Proof. split; vm_compute; reflexivity. Qed.
End Normalisation.


(** ** Query text and keys *)

Section Keys.
Import JsString Js JsArray Dom Spec.

Lemma norm_text q : Inline.norm (VStr q) = Some (trim (toLowerCase q)).
Proof. unfold Inline.norm, or_else. simpl. by destruct q. Qed.

(** C9.  A query whose trimmed text is empty closes the panel in each
    script, whatever the index holds and whether or not it is loaded: the
    result is [closeBox] of the state, no entry of the index being read. *)
Theorem empty_query_closes_the_panel
    (q : string) (countBelow : string → nat)
    (localeCompare : string → string → Z)
    (stP : Portal.state) (stN : Normalized.state) (stI : Inline.state) :
  trim q = ""%string →
  (Portal.render q stP = Some (Portal.closeBox stP) ∧
   Portal.display (Portal.closeBox stP) = false ∧
   Portal.content (Portal.closeBox stP) = Blank ∧
   Portal.activeIndex (Portal.closeBox stP) = -1) ∧
  (Normalized.render q stN = Normalized.closeBox stN ∧
   Normalized.open (Normalized.closeBox stN) = false ∧
   Normalized.display (Normalized.closeBox stN) = false ∧
   Normalized.content (Normalized.closeBox stN) = Blank ∧
   Normalized.activeIndex (Normalized.closeBox stN) = -1) ∧
  (Inline.search countBelow localeCompare q stI = Some (Inline.closeBox stI) ∧
   Inline.isOpen (Inline.closeBox stI) = false ∧
   Inline.content (Inline.closeBox stI) = Blank ∧
   Inline.active (Inline.closeBox stI) = -1).
Proof.
  intros Hq. split_and!; try reflexivity.
  - unfold Portal.render. by rewrite Hq.
  - unfold Normalized.render. by rewrite Hq.
  - unfold Inline.search. rewrite norm_text. simpl.
    by rewrite trim_toLowerCase, Hq.
Qed.

Lemma empty_query_closes_the_panel_witness :
  trim "  " = ""%string ∧
  (Portal.render "  " (Examples.portalOpen Examples.threeRows 2)
     = Some (Portal.closeBox (Examples.portalOpen Examples.threeRows 2)) ∧
   Portal.display (Portal.closeBox (Examples.portalOpen Examples.threeRows 2)) = false ∧
   Portal.content (Portal.closeBox (Examples.portalOpen Examples.threeRows 2)) = Blank ∧
   Portal.activeIndex (Portal.closeBox (Examples.portalOpen Examples.threeRows 2)) = -1) ∧
  (Normalized.render "  " (Examples.normalizedOpen Examples.threeRows 2)
     = Normalized.closeBox (Examples.normalizedOpen Examples.threeRows 2) ∧
   Normalized.open (Normalized.closeBox (Examples.normalizedOpen Examples.threeRows 2)) = false ∧
   Normalized.display (Normalized.closeBox (Examples.normalizedOpen Examples.threeRows 2)) = false ∧
   Normalized.content (Normalized.closeBox (Examples.normalizedOpen Examples.threeRows 2)) = Blank ∧
   Normalized.activeIndex (Normalized.closeBox (Examples.normalizedOpen Examples.threeRows 2)) = -1) ∧
  (Inline.search countNone unitCompare "  " (Examples.inlineOpen Examples.threeRows 2)
     = Some (Inline.closeBox (Examples.inlineOpen Examples.threeRows 2)) ∧
   Inline.isOpen (Inline.closeBox (Examples.inlineOpen Examples.threeRows 2)) = false ∧
   Inline.content (Inline.closeBox (Examples.inlineOpen Examples.threeRows 2)) = Blank ∧
   Inline.active (Inline.closeBox (Examples.inlineOpen Examples.threeRows 2)) = -1).
Proof.
  split; [reflexivity |].
  apply (empty_query_closes_the_panel "  " countNone unitCompare). reflexivity.
Defined.

(** An entry that cannot be scored does not get in the way of closing. *)
Example empty_query_reads_no_entry :
  Portal.render "x" (Portal.set_items [VNull] (Portal.init "")) = None ∧
  Portal.render " " (Portal.set_items [VNull] (Portal.init ""))
    = Some (Portal.closeBox (Portal.set_items [VNull] (Portal.init ""))).
Proof. split; vm_compute; reflexivity. Qed.

Lemma len_nonempty {A : Type} (l : list A) : l ≠ [] → (len l =? 0) = false.
Proof. destruct l; [done |]. intros _. unfold len. simpl. lia. Qed.

(** C10.  In the two clamping scripts ArrowUp on an open panel with rows and
    no active row makes the first row active. *)
Theorem ArrowUp_without_selection_activates_first_row
    (stP : Portal.state) (stN : Normalized.state) :
  Portal.display stP = true →
  searchItems (Portal.content stP) ≠ [] →
  Portal.activeIndex stP = -1 →
  Normalized.open stN = true →
  Normalized.display stN = true →
  searchItems (Normalized.content stN) ≠ [] →
  Normalized.activeIndex stN = -1 →
  Portal.activeIndex (Portal.keydown ArrowUp stP) = 0 ∧
  Normalized.activeIndex (Normalized.keydown ArrowUp stN) = 0.
Proof.
  intros HdP HrP HaP HoN HdN HrN HaN. split.
  - unfold Portal.keydown. rewrite HdP, HaP, (len_nonempty _ HrP). reflexivity.
  - unfold Normalized.keydown. rewrite HoN, HdN, HaN, (len_nonempty _ HrN). reflexivity.
Qed.

Lemma ArrowUp_without_selection_activates_first_row_witness :
  Portal.display (Examples.portalOpen Examples.threeRows (-1)) = true ∧
  searchItems (Portal.content (Examples.portalOpen Examples.threeRows (-1))) ≠ [] ∧
  Portal.activeIndex (Examples.portalOpen Examples.threeRows (-1)) = -1 ∧
  Normalized.open (Examples.normalizedOpen Examples.threeRows (-1)) = true ∧
  Normalized.display (Examples.normalizedOpen Examples.threeRows (-1)) = true ∧
  searchItems (Normalized.content (Examples.normalizedOpen Examples.threeRows (-1))) ≠ [] ∧
  Normalized.activeIndex (Examples.normalizedOpen Examples.threeRows (-1)) = -1 ∧
  Portal.activeIndex
    (Portal.keydown ArrowUp (Examples.portalOpen Examples.threeRows (-1))) = 0 ∧
  Normalized.activeIndex
    (Normalized.keydown ArrowUp (Examples.normalizedOpen Examples.threeRows (-1))) = 0.
Proof.
  assert (searchItems (Portal.content (Examples.portalOpen Examples.threeRows (-1))) ≠ [])
    as H1 by discriminate.
  assert (searchItems
            (Normalized.content (Examples.normalizedOpen Examples.threeRows (-1))) ≠ [])
    as H2 by discriminate.
  split_and!; [reflexivity | exact H1 | reflexivity | reflexivity | reflexivity
              | exact H2 | reflexivity | ..];
    apply (ArrowUp_without_selection_activates_first_row
             (Examples.portalOpen Examples.threeRows (-1))
             (Examples.normalizedOpen Examples.threeRows (-1))
             eq_refl H1 eq_refl eq_refl eq_refl H2 eq_refl).
Defined.

Ltac by_comparisons :=
  unfold len in *; rewrite ?Z.geb_leb in *;
  repeat match goal with
    | |- context [Z.eqb ?x ?y] => destruct (Z.eqb_spec x y)
    | |- context [Z.leb ?x ?y] => destruct (Z.leb_spec x y)
    | |- context [Z.ltb ?x ?y] => destruct (Z.ltb_spec x y)
    end; simpl in *; try lia.

(** C4, as the three scripts have it.  On an open panel src/search.js and
    part_000 compute the same next cursor for ArrowDown and ArrowUp: both
    stop at the first and at the last row.  part_001 goes round instead, and
    computes the same cursor as they do exactly when the step stays inside
    the rows (ArrowDown with a row below, ArrowUp with a row above) or there
    is at most one row. *)
Theorem arrows_clamp_in_two_scripts_and_wrap_in_one
    (k : key) (rows : list row) (a : Z)
    (stP : Portal.state) (stN : Normalized.state) (stI : Inline.state) :
  isArrow k = true →
  Portal.display stP = true →
  searchItems (Portal.content stP) = rows →
  Portal.activeIndex stP = a →
  Normalized.open stN = true →
  Normalized.display stN = true →
  searchItems (Normalized.content stN) = rows →
  Normalized.activeIndex stN = a →
  Inline.isOpen stI = true →
  searchItems (Inline.content stI) = rows →
  Inline.active stI = a →
  -1 ≤ a < len rows →
  Portal.activeIndex (Portal.keydown k stP)
    = Normalized.activeIndex (Normalized.keydown k stN) ∧
  (Inline.active (Inline.keydown k stI)
     = Portal.activeIndex (Portal.keydown k stP) ↔
   len rows ≤ 1 ∨ (k = ArrowDown ∧ a + 1 < len rows) ∨ (k = ArrowUp ∧ 1 ≤ a)).
Proof.
  intros Hk HdP HrP HaP HoN HdN HrN HaN HoI HrI HaI Ha.
  unfold Portal.keydown, Normalized.keydown, Inline.keydown.
  rewrite HdP, HoN, HdN, HoI, HrP, HrN, HrI, HaP, HaN, HaI. simpl.
  destruct k; try discriminate; clear Hk.
  - destruct (Z.eqb_spec (len rows) 0) as [H0|H0]; simpl.
    { rewrite HaP, HaN, HaI. split; [done |]. split; [intros _; left; lia | done]. }
    unfold Inline.setActive. rewrite ?HrI. simpl.
    split; [done |]. by_comparisons;
      (split; [intros ?; first [lia | right; left; split; [reflexivity | lia]]
              | intros [?|[[_ ?]|[? _]]]; (lia || discriminate)]).
  - destruct (Z.eqb_spec (len rows) 0) as [H0|H0]; simpl.
    { rewrite HaP, HaN, HaI. split; [done |]. split; [intros _; left; lia | done]. }
    unfold Inline.setActive. rewrite ?HrI. simpl.
    split; [done |]. by_comparisons;
      (split; [intros ?; first [lia | right; right; split; [reflexivity | lia]]
              | intros [?|[[? _]|[_ ?]]]; (lia || discriminate)]).
Qed.

Lemma arrows_clamp_in_two_scripts_and_wrap_in_one_witness :
  isArrow ArrowDown = true ∧
  Portal.display (Examples.portalOpen Examples.threeRows 0) = true ∧
  searchItems (Portal.content (Examples.portalOpen Examples.threeRows 0))
    = Examples.threeRows ∧
  Portal.activeIndex (Examples.portalOpen Examples.threeRows 0) = 0 ∧
  Normalized.open (Examples.normalizedOpen Examples.threeRows 0) = true ∧
  Normalized.display (Examples.normalizedOpen Examples.threeRows 0) = true ∧
  searchItems (Normalized.content (Examples.normalizedOpen Examples.threeRows 0))
    = Examples.threeRows ∧
  Normalized.activeIndex (Examples.normalizedOpen Examples.threeRows 0) = 0 ∧
  Inline.isOpen (Examples.inlineOpen Examples.threeRows 0) = true ∧
  searchItems (Inline.content (Examples.inlineOpen Examples.threeRows 0))
    = Examples.threeRows ∧
  Inline.active (Examples.inlineOpen Examples.threeRows 0) = 0 ∧
  -1 ≤ 0 < len Examples.threeRows ∧
  Portal.activeIndex
    (Portal.keydown ArrowDown (Examples.portalOpen Examples.threeRows 0))
    = Normalized.activeIndex
        (Normalized.keydown ArrowDown (Examples.normalizedOpen Examples.threeRows 0)) ∧
  (Inline.active (Inline.keydown ArrowDown (Examples.inlineOpen Examples.threeRows 0))
     = Portal.activeIndex
         (Portal.keydown ArrowDown (Examples.portalOpen Examples.threeRows 0)) ↔
   len Examples.threeRows ≤ 1 ∨
   (ArrowDown = ArrowDown ∧ 0 + 1 < len Examples.threeRows) ∨
   (ArrowDown = ArrowUp ∧ 1 ≤ 0)).
Proof.
  assert (-1 ≤ 0 < len Examples.threeRows) as Hr by (unfold len; simpl; lia).
  pose proof (arrows_clamp_in_two_scripts_and_wrap_in_one
                ArrowDown Examples.threeRows 0
                (Examples.portalOpen Examples.threeRows 0)
                (Examples.normalizedOpen Examples.threeRows 0)
                (Examples.inlineOpen Examples.threeRows 0)
                eq_refl eq_refl eq_refl eq_refl eq_refl eq_refl eq_refl eq_refl
                eq_refl eq_refl eq_refl Hr) as H.
  do 11 (split; [reflexivity |]). split; [exact Hr | exact H].
Defined.

(** C4 as it is stated fails on the last of three rows: ArrowDown leaves
    the cursor on it in src/search.js and part_000, and moves it to the
    first row in part_001. *)
Lemma ArrowDown_on_last_row_differs :
  Portal.activeIndex
    (Portal.keydown ArrowDown (Examples.portalOpen Examples.threeRows 2)) = 2 ∧
  Normalized.activeIndex
    (Normalized.keydown ArrowDown (Examples.normalizedOpen Examples.threeRows 2)) = 2 ∧
  Inline.active
    (Inline.keydown ArrowDown (Examples.inlineOpen Examples.threeRows 2)) = 0 ∧
  Inline.active
    (Inline.keydown ArrowDown (Examples.inlineOpen Examples.threeRows 2))
  ≠ Portal.activeIndex
      (Portal.keydown ArrowDown (Examples.portalOpen Examples.threeRows 2)).
Proof. split_and!; vm_compute; (reflexivity || discriminate). Qed.

End Keys.

(** ** The loader *)

Section Loader.
Import JsString Js JsArray Dom Spec.

Lemma Portal_render_net q st st' : Portal.render q st = Some st' → netP st' = netP st.
Proof.
  unfold Portal.render. intros H.
  repeat (case_match; simplify_option_eq); done.
Qed.

Lemma Portal_cb_net st : netP (Portal.cb st) = netP st.
Proof.
  unfold Portal.cb. destruct (Portal.render _ st) as [st'|] eqn:H; [| done].
  by apply Portal_render_net in H.
Qed.

Lemma Portal_go_net url st : netP (Portal.go url st) = netP st.
Proof. unfold Portal.go. by case_match. Qed.

Lemma Normalized_render_net q st : netN (Normalized.render q st) = netN st.
Proof. unfold Normalized.render. by repeat case_match. Qed.

Lemma Normalized_go_net url st : netN (Normalized.go url st) = netN st.
Proof. unfold Normalized.go. by repeat case_match. Qed.

Lemma Inline_search_net countBelow localeCompare q st st' :
  Inline.search countBelow localeCompare q st = Some st' → netI st' = netI st.
Proof.
  unfold Inline.search, Inline.renderList. intros H.
  repeat (case_match; simplify_option_eq); done.
Qed.

Lemma Portal_keydown_net k st :
  netP (Portal.keydown k st) = netP st ∨
  (k = Enter ∧ Portal.keydown k st = Portal.ensureLoaded st).
Proof.
  unfold Portal.keydown.
  repeat case_match; try (by left); try (by right);
    left; apply Portal_go_net.
Qed.

Lemma PortalPhase_net st st' p :
  netP st' = netP st → PortalPhase st p → PortalPhase st' p.
Proof. intros [= Hl Hr Hq _]. destruct p; simpl; by rewrite Hl, Hr, Hq. Qed.

Lemma Portal_ensureLoaded_phase st p :
  PortalPhase st p →
  PortalPhase (Portal.ensureLoaded st) (match p with Idle => InFlight | _ => p end).
Proof.
  unfold Portal.ensureLoaded. intros Hp.
  destruct p; pose proof Hp as (Hl & Hr & Hq); rewrite Hl.
  - simpl. by rewrite Hr, Hq.
  - eapply PortalPhase_net; [apply Portal_cb_net | done].
  - eapply PortalPhase_net; [apply Portal_cb_net | done].
Qed.

Lemma Portal_settled_spec r st :
  Portal.pending st = 1%nat →
  Portal.loaded (Portal.settled r st) = Portal.loaded st ∧
  Portal.requests (Portal.settled r st) = Portal.requests st ∧
  Portal.pending (Portal.settled r st) = 0%nat ∧
  (failed r = true → Portal.items (Portal.settled r st) = []).
Proof.
  intros Hq. unfold Portal.settled. rewrite Hq.
  destruct r as [|ok [data|]]; cbv zeta.
  - match goal with |- context [Portal.cb ?s] =>
      pose proof (Portal_cb_net s) as Hn end.
    injection Hn as Hl Hr Hp Hi. by rewrite Hl, Hr, Hp, Hi.
  - destruct (Portal.render _ _) as [st2|] eqn:Hrender.
    + apply Portal_render_net in Hrender. injection Hrender as Hl Hr Hp _.
      by rewrite Hl, Hr, Hp.
    + match goal with |- context [Portal.cb ?s] =>
        pose proof (Portal_cb_net s) as Hn end.
      injection Hn as Hl Hr Hp _. by rewrite Hl, Hr, Hp.
  - match goal with |- context [Portal.cb ?s] =>
      pose proof (Portal_cb_net s) as Hn end.
    injection Hn as Hl Hr Hp Hi. by rewrite Hl, Hr, Hp, Hi.
Qed.

Lemma Portal_step_phase e st p :
  PortalPhase st p → ∃ p', PortalPhase (Portal.step e st) p' ∧ next e p p'.
Proof.
  intros Hp. destruct e as [|text|k|i| |r]; simpl.
  - exists (match p with Idle => InFlight | _ => p end). split.
    + apply Portal_ensureLoaded_phase. by destruct p.
    + by destruct p.
  - exists (match p with Idle => InFlight | _ => p end). split.
    + apply Portal_ensureLoaded_phase. by destruct p.
    + by destruct p.
  - destruct (Portal_keydown_net k st) as [Hn | [_ ->]].
    + exists p. split; [by eapply PortalPhase_net |].
      destruct p; simpl; auto.
    + exists (match p with Idle => InFlight | _ => p end). split.
      * by apply Portal_ensureLoaded_phase.
      * destruct p; simpl; auto.
  - exists p. split; [| destruct p; simpl; auto].
    case_match; [| done]. eapply PortalPhase_net; [apply Portal_go_net | done].
  - exists p. split; [by destruct p | destruct p; simpl; auto].
  - destruct p; simpl in Hp; destruct Hp as (Hl & Hr & Hq).
    + exists Idle. unfold Portal.settled. rewrite Hq. simpl. auto.
    + exists Settled. split; [| done].
      unfold PortalPhase.
      destruct (Portal_settled_spec r st Hq) as (-> & -> & -> & _). done.
    + exists Settled. unfold Portal.settled. rewrite Hq. simpl. auto.
Qed.

Lemma Portal_step_settled e st :
  PortalPhase st Settled → netP (Portal.step e st) = netP st.
Proof.
  intros (Hl & Hr & Hq).
  assert (netP (Portal.ensureLoaded st) = netP st) as He.
  { unfold Portal.ensureLoaded. rewrite Hl. apply Portal_cb_net. }
  destruct e as [|text|k|i| |r]; simpl.
  - unfold Portal.ensureLoaded. simpl. rewrite Hl.
    by rewrite Portal_cb_net.
  - unfold Portal.ensureLoaded. simpl. rewrite Hl.
    by rewrite Portal_cb_net.
  - destruct (Portal_keydown_net k st) as [Hn | [_ ->]]; done.
  - case_match; [apply Portal_go_net | done].
  - done.
  - unfold Portal.settled. by rewrite Hq.
Qed.

Lemma Normalized_keydown_net k st :
  netN (Normalized.keydown k st) = netN st ∨
  (k = Enter ∧ Normalized.keydown k st = Normalized.ensureLoaded st).
Proof.
  unfold Normalized.keydown.
  repeat case_match; try (by left); try (by right);
    left; apply Normalized_go_net.
Qed.

Lemma NormalizedPhase_net st st' p :
  netN st' = netN st → NormalizedPhase st p → NormalizedPhase st' p.
Proof.
  intros [= Hl Hg Hr Hq _]. destruct p; simpl; by rewrite Hl, Hg, Hr, Hq.
Qed.

Lemma Normalized_ensureLoaded_phase st p :
  NormalizedPhase st p →
  NormalizedPhase (Normalized.ensureLoaded st)
                  (match p with Idle => InFlight | _ => p end).
Proof.
  unfold Normalized.ensureLoaded, Normalized.cb. intros Hp.
  destruct p; pose proof Hp as (Hl & Hg & Hr & Hq); rewrite Hl, ?Hg.
  - simpl. by rewrite Hr, Hq.
  - eapply NormalizedPhase_net; [apply Normalized_render_net | done].
  - eapply NormalizedPhase_net; [apply Normalized_render_net | done].
Qed.

Lemma Normalized_finish_net v n st :
  netN (Normalized.finish v n st) = (true, false, Normalized.requests st, n, v).
Proof. unfold Normalized.finish, Normalized.cb. by rewrite Normalized_render_net. Qed.

Lemma Normalized_settled_spec r st :
  Normalized.pending st = 1%nat →
  Normalized.loaded (Normalized.settled r st) = true ∧
  Normalized.loading (Normalized.settled r st) = false ∧
  Normalized.requests (Normalized.settled r st) = Normalized.requests st ∧
  Normalized.pending (Normalized.settled r st) = 0%nat ∧
  (failed r = true → Normalized.items (Normalized.settled r st) = []).
Proof.
  intros Hq. unfold Normalized.settled. rewrite Hq.
  destruct r as [|[] [data|]]; try destruct (Normalized.normalizeData data);
    match goal with |- context [Normalized.finish ?v ?n ?s] =>
      pose proof (Normalized_finish_net v n s) as Hn end;
    injection Hn as Hl Hg Hr Hp Hi; by rewrite Hl, Hg, Hr, Hp, Hi.
Qed.

Lemma Normalized_step_phase e st p :
  NormalizedPhase st p →
  ∃ p', NormalizedPhase (Normalized.step e st) p' ∧ next e p p'.
Proof.
  intros Hp. destruct e as [|text|k|i| |r]; simpl.
  - exists (match p with Idle => InFlight | _ => p end). split.
    + apply Normalized_ensureLoaded_phase. by destruct p.
    + by destruct p.
  - exists (match p with Idle => InFlight | _ => p end). split.
    + apply Normalized_ensureLoaded_phase. by destruct p.
    + by destruct p.
  - destruct (Normalized_keydown_net k st) as [Hn | [_ ->]].
    + exists p. split; [by eapply NormalizedPhase_net |].
      destruct p; simpl; auto.
    + exists (match p with Idle => InFlight | _ => p end). split.
      * by apply Normalized_ensureLoaded_phase.
      * destruct p; simpl; auto.
  - exists p. split; [| destruct p; simpl; auto].
    case_match; [| done].
    eapply NormalizedPhase_net; [apply Normalized_go_net | done].
  - exists p. split; [by destruct p | destruct p; simpl; auto].
  - destruct p; pose proof Hp as (Hl & Hg & Hr & Hq).
    + exists Idle. unfold Normalized.settled. rewrite Hq. simpl. auto.
    + exists Settled. split; [| done]. unfold NormalizedPhase.
      destruct (Normalized_settled_spec r st Hq) as (-> & -> & -> & -> & _). done.
    + exists Settled. unfold Normalized.settled. rewrite Hq. simpl. auto.
Qed.

Lemma Normalized_step_settled e st :
  NormalizedPhase st Settled → netN (Normalized.step e st) = netN st.
Proof.
  intros (Hl & Hg & Hr & Hq).
  destruct e as [|text|k|i| |r]; simpl.
  - unfold Normalized.ensureLoaded, Normalized.cb. simpl. rewrite Hl.
    by rewrite Normalized_render_net.
  - unfold Normalized.ensureLoaded, Normalized.cb. simpl. rewrite Hl.
    by rewrite Normalized_render_net.
  - destruct (Normalized_keydown_net k st) as [Hn | [_ ->]]; [done |].
    unfold Normalized.ensureLoaded, Normalized.cb. rewrite Hl.
    apply Normalized_render_net.
  - case_match; [apply Normalized_go_net | done].
  - done.
  - unfold Normalized.settled. by rewrite Hq.
Qed.

Lemma Inline_keydown_net k st : netI (Inline.keydown k st) = netI st.
Proof.
  unfold Inline.keydown, Inline.goActive, Inline.navigate.
  by repeat case_match.
Qed.

Lemma Inline_step_settled countBelow localeCompare e st :
  Inline.pending st = 0%nat → netI (Inline.step countBelow localeCompare e st) = netI st.
Proof.
  intros Hq. destruct e as [|text|k|i| |r]; simpl.
  - done.
  - destruct (Inline.search _ _ _) as [st'|] eqn:Hs; [| done].
    by apply Inline_search_net in Hs.
  - apply Inline_keydown_net.
  - unfold Inline.navigate. by repeat case_match.
  - done.
  - unfold Inline.settled. by rewrite Hq.
Qed.

(** Runs of a widget whose steps follow [next]. *)
Section Runs.
Context {S : Type}.
Variable step : event → S → S.
Variable Phase : S → phase → Prop.
Hypothesis step_phase :
  ∀ e st p, Phase st p → ∃ p', Phase (step e st) p' ∧ next e p p'.

Lemma run_phase es st p :
  Phase st p → ∃ p', Phase (foldl (λ st e, step e st) st es) p'.
Proof.
  revert st p. induction es as [|e es IH]; intros st p Hp; simpl; [by exists p |].
  destruct (step_phase e st p Hp) as (p' & Hp' & _). by eapply IH.
Qed.

Lemma run_in_flight es st p :
  Forall (λ e, isSettle e = false) es →
  Phase st p → p ≠ Settled →
  (p = InFlight ∨ Exists (λ e, callsLoader e = true) es) →
  Phase (foldl (λ st e, step e st) st es) InFlight.
Proof.
  intros Hes. revert st p.
  induction Hes as [|e es He Hes IH]; intros st p Hp Hns Hcall; simpl.
  - destruct Hcall as [-> | Hex]; [done | by apply Exists_nil in Hex].
  - destruct (step_phase e st p Hp) as (p' & Hp' & Hn).
    destruct p; [| | done]; simpl in Hn.
    + destruct (callsLoader e) eqn:Hc.
      * subst p'. eapply IH; [done | done | by left].
      * destruct Hcall as [? | Hex]; [done |].
        apply Exists_cons in Hex as [? | Hex]; [congruence |].
        destruct Hn as [-> | ->]; (eapply IH; [done | done | by auto]).
    + rewrite He in Hn. subst p'. eapply IH; [done | done | by left].
Qed.
End Runs.

Lemma Portal_run_settled es st :
  PortalPhase st Settled → netP (Portal.run es st) = netP st.
Proof.
  unfold Portal.run. revert st.
  induction es as [|e es IH]; intros st Hp; simpl; [done |].
  pose proof (Portal_step_settled e st Hp) as Hn.
  rewrite IH; [done | by eapply PortalPhase_net].
Qed.

Lemma Normalized_run_settled es st :
  NormalizedPhase st Settled → netN (Normalized.run es st) = netN st.
Proof.
  unfold Normalized.run. revert st.
  induction es as [|e es IH]; intros st Hp; simpl; [done |].
  pose proof (Normalized_step_settled e st Hp) as Hn.
  rewrite IH; [done | by eapply NormalizedPhase_net].
Qed.

Lemma Inline_run_settled countBelow localeCompare es st :
  Inline.pending st = 0%nat → netI (Inline.run countBelow localeCompare es st) = netI st.
Proof.
  unfold Inline.run. revert st.
  induction es as [|e es IH]; intros st Hp; simpl; [done |].
  pose proof (Inline_step_settled countBelow localeCompare e st Hp) as Hn.
  rewrite IH; [done |]. injection Hn as _ Hq _. by rewrite Hq.
Qed.

(** C7.  From the start of the page, any events up to the settling of the
    request, with at least one call of the loader among them, leave exactly
    one request issued and in flight, in src/search.js and in part_000; and
    whatever the events, settlings included, there is never a second request. *)
Theorem one_request_before_the_fetch_resolves
    (text : string) (es es' : list event) :
  Forall (λ e, isSettle e = false) es →
  Exists (λ e, callsLoader e = true) es →
  (Portal.requests (Portal.run es (Portal.init text)) = 1%nat ∧
   Portal.pending (Portal.run es (Portal.init text)) = 1%nat ∧
   Normalized.requests (Normalized.run es (Normalized.init text)) = 1%nat ∧
   Normalized.pending (Normalized.run es (Normalized.init text)) = 1%nat) ∧
  ((Portal.requests (Portal.run es' (Portal.init text)) ≤ 1)%nat ∧
   (Portal.pending (Portal.run es' (Portal.init text)) ≤ 1)%nat ∧
   (Normalized.requests (Normalized.run es' (Normalized.init text)) ≤ 1)%nat ∧
   (Normalized.pending (Normalized.run es' (Normalized.init text)) ≤ 1)%nat).
Proof.
  intros Hes Hcall.
  assert (PortalPhase (Portal.init text) Idle) as HP by done.
  assert (NormalizedPhase (Normalized.init text) Idle) as HN by done.
  unfold Portal.run, Normalized.run. split.
  - destruct (run_in_flight Portal.step PortalPhase Portal_step_phase
                es _ Idle Hes HP) as (_ & -> & ->); [done | by right |].
    destruct (run_in_flight Normalized.step NormalizedPhase Normalized_step_phase
                es _ Idle Hes HN) as (_ & _ & -> & ->); [done | by right |].
    done.
  - destruct (run_phase Portal.step PortalPhase Portal_step_phase es' _ Idle HP)
      as (p & Hp).
    destruct (run_phase Normalized.step NormalizedPhase Normalized_step_phase
                es' _ Idle HN) as (p' & Hp').
    destruct p, p'; destruct Hp as (_ & -> & ->), Hp' as (_ & _ & -> & ->); lia.
Qed.

Lemma one_request_before_the_fetch_resolves_witness :
  Forall (λ e, isSettle e = false) [Focus; Input "a"; Input "ap"; KeyDown Enter] ∧
  Exists (λ e, callsLoader e = true) [Focus; Input "a"; Input "ap"; KeyDown Enter] ∧
  (Portal.requests
     (Portal.run [Focus; Input "a"; Input "ap"; KeyDown Enter] (Portal.init "")) = 1%nat ∧
   Portal.pending
     (Portal.run [Focus; Input "a"; Input "ap"; KeyDown Enter] (Portal.init "")) = 1%nat ∧
   Normalized.requests
     (Normalized.run [Focus; Input "a"; Input "ap"; KeyDown Enter] (Normalized.init ""))
     = 1%nat ∧
   Normalized.pending
     (Normalized.run [Focus; Input "a"; Input "ap"; KeyDown Enter] (Normalized.init ""))
     = 1%nat) ∧
  ((Portal.requests
      (Portal.run [Focus; FetchSettled NetworkError; Focus] (Portal.init "")) ≤ 1)%nat ∧
   (Portal.pending
      (Portal.run [Focus; FetchSettled NetworkError; Focus] (Portal.init "")) ≤ 1)%nat ∧
   (Normalized.requests
      (Normalized.run [Focus; FetchSettled NetworkError; Focus] (Normalized.init ""))
      ≤ 1)%nat ∧
   (Normalized.pending
      (Normalized.run [Focus; FetchSettled NetworkError; Focus] (Normalized.init ""))
      ≤ 1)%nat).
Proof.
  assert (Forall (λ e, isSettle e = false)
                 [Focus; Input "a"; Input "ap"; KeyDown Enter]) as H1
    by (repeat constructor).
  assert (Exists (λ e, callsLoader e = true)
                 [Focus; Input "a"; Input "ap"; KeyDown Enter]) as H2
    by (by constructor).
  split; [exact H1 |]. split; [exact H2 |].
  exact (one_request_before_the_fetch_resolves
           "" [Focus; Input "a"; Input "ap"; KeyDown Enter]
           [Focus; FetchSettled NetworkError; Focus] H1 H2).
Defined.

Lemma render_nothing_loaded q st :
  nonEmpty (trim q) = true → Portal.items st = [] →
  Portal.render q st
  = Some (Portal.openBox (Portal.set_content (Message "No results found.") st)).
Proof.
  intros Hq Hi. unfold Portal.render, Portal.top. by rewrite Hq, Hi.
Qed.

Lemma Normalized_render_nothing_loaded q st :
  nonEmpty (trim q) = true → Normalized.items st = [] →
  Normalized.render q st
  = Normalized.openBox (Normalized.set_content (Message "No results found.") st).
Proof.
  intros Hq Hi. unfold Normalized.render, Normalized.top. by rewrite Hq, Hi.
Qed.

(** C2, as the three scripts have it.  When the request fails (the fetch
    rejects or the body does not parse), src/search.js and part_000 are
    loaded with an empty list from then on, and a query that is not blank
    renders the panel of no results, without a throw.  part_001 stays not
    ready from then on, and a query that is not blank renders the loading
    panel, without rows and without a throw. *)
Theorem failed_load_gives_no_results
    (text : string) (es es' : list event) (r : response) (q : string)
    (countBelow : string → nat) (localeCompare : string → string → Z) :
  failed r = true →
  nonEmpty (trim q) = true →
  Portal.pending (Portal.run es (Portal.init text)) = 1%nat →
  Normalized.pending (Normalized.run es (Normalized.init text)) = 1%nat →
  Inline.pending (Inline.run countBelow localeCompare es (Inline.init text)) = 1%nat →
  (∃ st',
     Portal.loaded
       (Portal.run es' (Portal.settled r (Portal.run es (Portal.init text)))) = true ∧
     Portal.items
       (Portal.run es' (Portal.settled r (Portal.run es (Portal.init text)))) = [] ∧
     Portal.render q
       (Portal.run es' (Portal.settled r (Portal.run es (Portal.init text))))
       = Some st' ∧
     Portal.display st' = true ∧
     Portal.content st' = Message "No results found.") ∧
  (Normalized.loaded
     (Normalized.run es'
        (Normalized.settled r (Normalized.run es (Normalized.init text)))) = true ∧
   Normalized.items
     (Normalized.run es'
        (Normalized.settled r (Normalized.run es (Normalized.init text)))) = [] ∧
   Normalized.display
     (Normalized.render q
        (Normalized.run es'
           (Normalized.settled r (Normalized.run es (Normalized.init text))))) = true ∧
   Normalized.content
     (Normalized.render q
        (Normalized.run es'
           (Normalized.settled r (Normalized.run es (Normalized.init text)))))
     = Message "No results found.") ∧
  (∃ st',
     Inline.ready
       (Inline.run countBelow localeCompare es'
          (Inline.settled r (Inline.run countBelow localeCompare es (Inline.init text)))) = false ∧
     Inline.search countBelow localeCompare q
       (Inline.run countBelow localeCompare es'
          (Inline.settled r (Inline.run countBelow localeCompare es (Inline.init text))))
       = Some st' ∧
     Inline.isOpen st' = true ∧
     Inline.content st' = Message "Loading...").
Proof.
  intros Hr Hq HpP HpN HpI. split; [| split].
  - destruct (run_phase Portal.step PortalPhase Portal_step_phase
                es (Portal.init text) Idle) as (p & Hp); [done |].
    fold (Portal.run es (Portal.init text)) in Hp.
    destruct p; destruct Hp as (Hl & Hreq & Hpend); try congruence.
    destruct (Portal_settled_spec r _ HpP) as (Hl' & Hreq' & Hpend' & Hitems).
    specialize (Hitems Hr).
    pose proof (Portal_run_settled es' (Portal.settled r (Portal.run es (Portal.init text))))
      as Hn.
    assert (PortalPhase (Portal.settled r (Portal.run es (Portal.init text))) Settled)
      as Hset by (split_and!; congruence).
    specialize (Hn Hset). injection Hn as Hl'' _ _ Hi''.
    eexists. split_and!.
    + congruence.
    + congruence.
    + apply render_nothing_loaded; [done | congruence].
    + done.
    + done.
  - destruct (Normalized_settled_spec r _ HpN) as (Hl' & Hg' & Hreq' & Hpend' & Hitems).
    specialize (Hitems Hr).
    destruct (run_phase Normalized.step NormalizedPhase Normalized_step_phase
                es (Normalized.init text) Idle) as (p & Hp); [done |].
    fold (Normalized.run es (Normalized.init text)) in Hp.
    destruct p; destruct Hp as (Hl & Hg & Hreq & Hpend); try congruence.
    pose proof (Normalized_run_settled es'
                  (Normalized.settled r (Normalized.run es (Normalized.init text))))
      as Hn.
    assert (NormalizedPhase
              (Normalized.settled r (Normalized.run es (Normalized.init text))) Settled)
      as Hset by (split_and!; congruence).
    specialize (Hn Hset). injection Hn as Hl'' _ _ _ Hi''.
    rewrite Normalized_render_nothing_loaded by (done || congruence).
    split_and!; (congruence || done).
  - assert (netI (Inline.settled r (Inline.run countBelow localeCompare es (Inline.init text)))
            = (false, 0%nat,
               Inline.indexItems (Inline.run countBelow localeCompare es (Inline.init text))))
      as Hs.
    { unfold Inline.settled. rewrite HpI. by destruct r as [|ok [data|]]. }
    pose proof (Inline_run_settled countBelow localeCompare es'
                  (Inline.settled r (Inline.run countBelow localeCompare es (Inline.init text))))
      as Hn.
    injection Hs as Hready Hpend _.
    injection (Hn Hpend) as Hready' _ _.
    eexists. split_and!.
    + congruence.
    + unfold Inline.search. rewrite norm_text. simpl.
      rewrite trim_toLowerCase, nonEmpty_toLowerCase, Hq, Hready', Hready.
      simpl. reflexivity.
    + done.
    + done.
Qed.

Lemma failed_load_gives_no_results_witness :
  failed NetworkError = true ∧
  nonEmpty (trim "apple") = true ∧
  Portal.pending (Portal.run [Focus; Input "a"] (Portal.init "")) = 1%nat ∧
  Normalized.pending (Normalized.run [Focus; Input "a"] (Normalized.init "")) = 1%nat ∧
  Inline.pending (Inline.run countNone unitCompare [Focus; Input "a"] (Inline.init "")) = 1%nat ∧
  (∃ st',
     Portal.loaded
       (Portal.run [Input "apple"; FetchSettled NetworkError]
        (Portal.settled NetworkError (Portal.run [Focus; Input "a"] (Portal.init "")))) = true ∧
     Portal.items
       (Portal.run [Input "apple"; FetchSettled NetworkError]
        (Portal.settled NetworkError (Portal.run [Focus; Input "a"] (Portal.init "")))) = [] ∧
     Portal.render "apple"
       (Portal.run [Input "apple"; FetchSettled NetworkError]
        (Portal.settled NetworkError (Portal.run [Focus; Input "a"] (Portal.init "")))) = Some st' ∧
     Portal.display st' = true ∧
     Portal.content st' = Message "No results found.") ∧
  (Normalized.loaded
     (Normalized.run [Input "apple"; FetchSettled NetworkError]
        (Normalized.settled NetworkError
           (Normalized.run [Focus; Input "a"] (Normalized.init "")))) = true ∧
   Normalized.items
     (Normalized.run [Input "apple"; FetchSettled NetworkError]
        (Normalized.settled NetworkError
           (Normalized.run [Focus; Input "a"] (Normalized.init "")))) = [] ∧
   Normalized.display
     (Normalized.render "apple"
     (Normalized.run [Input "apple"; FetchSettled NetworkError]
        (Normalized.settled NetworkError
           (Normalized.run [Focus; Input "a"] (Normalized.init ""))))) = true ∧
   Normalized.content
     (Normalized.render "apple"
     (Normalized.run [Input "apple"; FetchSettled NetworkError]
        (Normalized.settled NetworkError
           (Normalized.run [Focus; Input "a"] (Normalized.init ""))))) = Message "No results found.") ∧
  (∃ st',
     Inline.ready
       (Inline.run countNone unitCompare [Input "apple"; FetchSettled NetworkError]
        (Inline.settled NetworkError
           (Inline.run countNone unitCompare [Focus; Input "a"] (Inline.init "")))) = false ∧
     Inline.search countNone unitCompare "apple"
       (Inline.run countNone unitCompare [Input "apple"; FetchSettled NetworkError]
        (Inline.settled NetworkError
           (Inline.run countNone unitCompare [Focus; Input "a"] (Inline.init "")))) = Some st' ∧
     Inline.isOpen st' = true ∧
     Inline.content st' = Message "Loading...").
Proof.
  do 5 (split; [reflexivity |]).
  exact (failed_load_gives_no_results
           "" [Focus; Input "a"] [Input "apple"; FetchSettled NetworkError]
           NetworkError "apple" countNone unitCompare
           eq_refl eq_refl eq_refl eq_refl eq_refl).
Defined.

(** C2 as it is stated fails in part_001: after a failed fetch the script
    is not ready, and a query gets the loading panel. *)
Lemma failed_fetch_leaves_part_001_loading :
  Inline.ready (Inline.settled NetworkError (Inline.init "")) = false ∧
  Inline.content
    <$> Inline.search countNone unitCompare "anything"
          (Inline.settled NetworkError (Inline.init ""))
  = Some (Message "Loading...").
Proof. split; vm_compute; reflexivity. Qed.
End Loader.

(** ** Rows of part_000 *)

Section NormalizedRows.
Import JsString Js JsArray Dom Spec.

Lemma trimStart_headKept s : headKept (trimStart s).
Proof.
  induction s as [|c s IH]; simpl; [done |].
  by destruct (isWhiteSpace c) eqn:E.
Qed.

Lemma trimStart_id s : headKept s → trimStart s = s.
Proof. destruct s as [|c s]; simpl; [done |]. by intros ->. Qed.

Lemma trimEnd_headKept s : headKept s → headKept (trimEnd s).
Proof.
  destruct s as [|c s]; simpl; [done |]. intros Hc.
  destruct (trimEnd s); [by rewrite Hc | done].
Qed.

Lemma trimEnd_idem s : trimEnd (trimEnd s) = trimEnd s.
Proof.
  induction s as [|c s IH]; simpl; [done |].
  destruct (trimEnd s) as [|c' r] eqn:E.
  - destruct (isWhiteSpace c) eqn:Ec; simpl; [done | by rewrite Ec].
  - change (trimEnd (String c (String c' r))) with
      (match trimEnd (String c' r) with
       | EmptyString => if isWhiteSpace c then EmptyString else String c EmptyString
       | r' => String c r'
       end).
    by rewrite IH.
Qed.

Lemma trim_idem s : trim (trim s) = trim s.
Proof.
  unfold trim. rewrite (trimStart_id (trimEnd (trimStart s))).
  - apply trimEnd_idem.
  - apply trimEnd_headKept, trimStart_headKept.
Qed.

(** The urls [normalizeData] stores, and so the urls of the rows that
    [render] builds from them, are not empty and have no blanks around. *)
Lemma normalizeEntries_urls raw items :
  Normalized.normalizeEntries raw = Some items →
  Forall (λ r, nonEmpty (row_url r) = true ∧ trim (row_url r) = row_url r)
         (Normalized.renderRow ∘ Normalized.mkScored 0 <$> items).
Proof.
  revert items. induction raw as [|x raw IH]; intros items; simpl.
  - intros [= <-]. constructor.
  - destruct (Normalized.normalizeEntry x) as [e|] eqn:He; simpl; [| done].
    destruct (Normalized.normalizeEntries raw) as [out|]; simpl; [| done].
    destruct e as [i|]; intros [= <-]; [| by apply IH].
    constructor; [| by apply IH]. simpl.
    destruct (truthy x) eqn:Hx.
    + apply (normalizeEntry_Some x) in He as (title & d & url & _ & Hu & He); [| done].
      destruct title; simpl in He; [done |]. injection He as ->. simpl.
      unfold resolvedUrl in Hu.
      apply bind_Some in Hu as (v & _ & Hu). apply bind_Some in Hu as (s' & _ & Hu).
      injection Hu as <-.
      destruct (trim s') as [|c u'] eqn:Eu; simpl; [done |].
      split; [done |]. by rewrite <-Eu, trim_idem.
    + unfold Normalized.normalizeEntry in He. by rewrite Hx in He.
Qed.
End NormalizedRows.


(** ** Escaping *)

Section Escaping.
Import JsString Html.

Lemma escapeHtml_cons c s :
  escapeHtml (String c s)
  = (if special c then entity c else String c EmptyString) +:+ escapeHtml s.
Proof. destruct c as [[] [] [] [] [] [] [] []]; reflexivity. Qed.

(** The five replacements of part_001, made one after the other with the
    ampersand first, give the text that the single pass of src/search.js
    and part_000 gives. *)
Theorem escapeHtml_is_esc (s : string) : escapeHtml s = esc s.
Proof.
  induction s as [|c s IH]; [reflexivity |].
  rewrite escapeHtml_cons, IH. simpl. by destruct (special c).
Qed.

Lemma codeUnits_app a b : codeUnits (a +:+ b) = codeUnits a ++ codeUnits b.
Proof.
  induction a as [|c a IH]; [reflexivity |].
  rewrite append_cons. simpl. by rewrite IH.
Qed.

Lemma special_cases c :
  special c = true →
  c = "&"%char ∨ c = "<"%char ∨ c = ">"%char ∨ c = quot ∨ c = apos.
Proof.
  unfold special.
  destruct (Ascii.eqb_spec c "&"); [auto |].
  destruct (Ascii.eqb_spec c "<"); [auto |].
  destruct (Ascii.eqb_spec c ">"); [auto |].
  destruct (Ascii.eqb_spec c quot); [auto |].
  destruct (Ascii.eqb_spec c apos); [auto 6 | done].
Qed.

Lemma not_special c :
  special c = false →
  c ≠ "&"%char ∧ c ≠ "<"%char ∧ c ≠ ">"%char ∧ c ≠ quot ∧ c ≠ apos.
Proof.
  unfold special.
  destruct (Ascii.eqb_spec c "&"); [done |].
  destruct (Ascii.eqb_spec c "<"); [done |].
  destruct (Ascii.eqb_spec c ">"); [done |].
  destruct (Ascii.eqb_spec c quot); [done |].
  destruct (Ascii.eqb_spec c apos); done.
Qed.

(** An escaped text holds no angle bracket and no quote: inside an element
    or an attribute value it cannot end the markup around it. *)
Theorem esc_leaves_no_markup (s : string) (c : ascii) :
  c ∈ codeUnits (esc s) →
  c ≠ "<"%char ∧ c ≠ ">"%char ∧ c ≠ quot ∧ c ≠ apos.
Proof.
  induction s as [|x s IH]; simpl; [by intros ?%elem_of_nil |].
  destruct (special x) eqn:Hx.
  - rewrite codeUnits_app, elem_of_app. intros [Hc | Hc]; [| by apply IH].
    apply special_cases in Hx as [-> | [-> | [-> | [-> | ->]]]];
      vm_compute in Hc;
      repeat (apply elem_of_cons in Hc as [-> | Hc]; [by vm_compute |]);
      by apply elem_of_nil in Hc.
  - simpl. rewrite elem_of_cons. intros [-> | Hc]; [| by apply IH].
    by apply not_special in Hx as (_ & ? & ? & ? & ?).
Qed.

Lemma esc_leaves_no_markup_witness :
  "l"%char ∈ codeUnits (esc "<b>") ∧
  "l"%char ≠ "<"%char ∧ "l"%char ≠ ">"%char ∧ "l"%char ≠ quot ∧ "l"%char ≠ apos.
Proof.
  assert ("l"%char ∈ codeUnits (esc "<b>")) as H
    by (vm_compute; apply list_elem_of_further, list_elem_of_here).
  split; [exact H |]. exact (esc_leaves_no_markup "<b>" "l" H).
Defined.

(** Escaping loses nothing: two texts with the same escaped text are the
    same text. *)
Theorem esc_injective (a b : string) : esc a = esc b → a = b.
Proof.
  revert b. induction a as [|x a IH]; intros [|y b]; simpl.
  - done.
  - destruct (special y) eqn:Hy; [| done].
    apply special_cases in Hy as [-> | [-> | [-> | [-> | ->]]]]; done.
  - destruct (special x) eqn:Hx; [| done].
    apply special_cases in Hx as [-> | [-> | [-> | [-> | ->]]]]; done.
  - destruct (special x) eqn:Hx, (special y) eqn:Hy.
    + apply special_cases in Hx as [-> | [-> | [-> | [-> | ->]]]];
        apply special_cases in Hy as [-> | [-> | [-> | [-> | ->]]]];
        intros H; vm_compute entity in H; rewrite ?append_cons, ?append_nil in H;
        try discriminate H;
        f_equal; apply IH; congruence.
    + apply not_special in Hy as (Hy & _).
      apply special_cases in Hx as [-> | [-> | [-> | [-> | ->]]]];
        intros H; vm_compute entity in H; rewrite ?append_cons in H; congruence.
    + apply not_special in Hx as (Hx & _).
      apply special_cases in Hy as [-> | [-> | [-> | [-> | ->]]]];
        intros H; vm_compute entity in H; rewrite ?append_cons in H; congruence.
    + intros [= -> H]. f_equal. by apply IH.
Qed.

Lemma esc_injective_witness :
  esc "a<b" = esc "a<b" ∧ "a<b"%string = "a<b"%string.
Proof.
  split; [reflexivity |]. exact (esc_injective "a<b" "a<b" eq_refl).
Defined.
End Escaping.

(** ** The panel and its cursor *)

Section PanelFacts.
Import JsString Js JsArray Dom Spec Props.

Ltac by_bounds :=
  unfold len in *; rewrite ?Z.geb_leb in *;
  repeat match goal with
    | |- context [Z.eqb ?x ?y] => destruct (Z.eqb_spec x y)
    | |- context [Z.leb ?x ?y] => destruct (Z.leb_spec x y)
    | |- context [Z.ltb ?x ?y] => destruct (Z.ltb_spec x y)
    end; simpl in *; try lia.

Lemma PanelOk_closed k : PanelOk k false Blank (-1).
Proof. unfold PanelOk. split_and!; [lia | done | done | done]. Qed.

Lemma PanelOk_message k text a : -1 ≤ a → PanelOk k true (Message text) a.
Proof. unfold PanelOk. intros ?. split_and!; done. Qed.

Lemma PanelOk_rows k rows : 1 ≤ len rows ≤ k → PanelOk k true (Rows rows) (-1).
Proof.
  unfold PanelOk. intros ?. split_and!; [lia | done | done |].
  intros ? [= <-]. lia.
Qed.

Lemma PanelOk_move k content a a' :
  PanelOk k true content a → 0 ≤ a' < len (searchItems content) →
  PanelOk k true content a'.
Proof.
  unfold PanelOk. intros (? & ? & ? & Hrows) Ha'.
  split_and!; [lia | done | done |].
  intros rows ->. simpl in Ha'. destruct (Hrows rows eq_refl). lia.
Qed.

Lemma PanelOk_reset k shown content a :
  PanelOk k shown content a → PanelOk k shown content (-1).
Proof.
  unfold PanelOk. intros (? & Hc & ? & Hrows).
  split_and!; [lia | | done |].
  - intros Hs. by destruct (Hc Hs).
  - intros rows Hr. destruct (Hrows rows Hr). lia.
Qed.

(** The cursor of a shown panel is below the number of rows, when there are
    rows. *)
Lemma PanelOk_below k content a :
  PanelOk k true content a → len (searchItems content) ≠ 0 →
  -1 ≤ a < len (searchItems content).
Proof.
  unfold PanelOk. intros (? & ? & ? & Hrows) Hn.
  destruct content as [|text|rows]; simpl in *; try done.
  destruct (Hrows rows eq_refl). lia.
Qed.

Lemma len_slice0 {A : Type} k (l : list A) : len (slice0 k l) ≤ Z.of_nat k.
Proof. unfold len, slice0. rewrite length_take. lia. Qed.

Lemma Portal_top_len q items r : Portal.top q items = Some r → len r ≤ 10.
Proof.
  unfold Portal.top. intros H.
  apply bind_Some in H as (cs & _ & H). apply bind_Some in H as (sorted & _ & H).
  injection H as <-. apply (len_slice0 10).
Qed.

Lemma Normalized_top_len q items : len (Normalized.top q items) ≤ 10.
Proof. unfold Normalized.top. apply (len_slice0 10). Qed.

Lemma Inline_top_len countBelow localeCompare q items r :
  Inline.top countBelow localeCompare q items = Some r → len r ≤ 8.
Proof.
  unfold Inline.top. intros H.
  apply bind_Some in H as (cs & _ & H). apply bind_Some in H as (sorted & _ & H).
  injection H as <-. apply (len_slice0 8).
Qed.

Lemma len_mapM {A B : Type} (f : A → option B) l k :
  mapM f l = Some k → len k = len l.
Proof. intros H. unfold len. by rewrite (length_mapM f l k H). Qed.

Lemma Portal_render_ok q st st' :
  PortalPanelOk st → Portal.render q st = Some st' → PortalPanelOk st'.
Proof.
  unfold PortalPanelOk, Portal.render. intros Hok.
  destruct (negb (nonEmpty (trim q))).
  { intros [= <-]. apply PanelOk_closed. }
  destruct (Portal.top (trim q) (Portal.items st)) as [r|] eqn:Htop; simpl; [| done].
  destruct (Z.eqb_spec (len r) 0) as [H0|H0].
  { intros [= <-]. simpl. apply PanelOk_message. by destruct Hok. }
  destruct (mapM Portal.renderRow r) as [rows|] eqn:Hrows; simpl; [| done].
  intros [= <-]. simpl. apply PanelOk_rows.
  apply len_mapM in Hrows. apply Portal_top_len in Htop.
  unfold len in *. lia.
Qed.

Lemma PortalPanelOk_page st st' :
  pageP st' = pageP st → PortalPanelOk st → PortalPanelOk st'.
Proof. unfold PortalPanelOk. by intros [= -> -> ->]. Qed.

Lemma Portal_cb_ok st : PortalPanelOk st → PortalPanelOk (Portal.cb st).
Proof.
  intros Hok. unfold Portal.cb.
  destruct (Portal.render _ st) as [st'|] eqn:H; [| done].
  by eapply Portal_render_ok.
Qed.

Lemma Portal_ensureLoaded_ok st :
  PortalPanelOk st → PortalPanelOk (Portal.ensureLoaded st).
Proof.
  intros Hok. unfold Portal.ensureLoaded.
  destruct (Portal.loaded st); [by apply Portal_cb_ok | done].
Qed.

Lemma Portal_go_page url st : pageP (Portal.go url st) = pageP st.
Proof. unfold Portal.go. by case_match. Qed.

Lemma Portal_keydown_ok k st :
  PortalPanelOk st → PortalPanelOk (Portal.keydown k st).
Proof.
  intros Hst. unfold Portal.keydown.
  destruct (Portal.display st) eqn:Hd; simpl.
  2:{ destruct k; try done. by apply Portal_ensureLoaded_ok. }
  pose proof Hst as Hok. unfold PortalPanelOk in Hok. rewrite Hd in Hok.
  destruct k.
  - destruct (Z.eqb_spec (len (searchItems (Portal.content st))) 0) as [H0|H0];
      [done |].
    pose proof (PanelOk_below _ _ _ Hok H0).
    unfold PortalPanelOk. simpl. rewrite Hd.
    eapply PanelOk_move; [done |]. by_bounds.
  - destruct (Z.eqb_spec (len (searchItems (Portal.content st))) 0) as [H0|H0];
      [done |].
    pose proof (PanelOk_below _ _ _ Hok H0).
    unfold PortalPanelOk. simpl. rewrite Hd.
    eapply PanelOk_move; [done |]. by_bounds.
  - repeat case_match; try done;
      (eapply PortalPanelOk_page; [apply Portal_go_page | done]).
  - apply PanelOk_closed.
  - done.
Qed.

Lemma Portal_settled_ok r st :
  PortalPanelOk st → PortalPanelOk (Portal.settled r st).
Proof.
  intros Hok. unfold Portal.settled.
  destruct (Portal.pending st) as [|n]; [done |].
  destruct r as [|ok [data|]]; cbv zeta.
  - by apply Portal_cb_ok.
  - destruct (Portal.render _ _) as [st2|] eqn:Hrender.
    + by eapply Portal_render_ok; [| done].
    + by apply Portal_cb_ok.
  - by apply Portal_cb_ok.
Qed.

Lemma Portal_step_ok e st : PortalPanelOk st → PortalPanelOk (Portal.step e st).
Proof.
  intros Hok. destruct e as [|text|k|i| |r]; simpl.
  - by apply Portal_ensureLoaded_ok.
  - by apply Portal_ensureLoaded_ok.
  - by apply Portal_keydown_ok.
  - case_match; [| done].
    eapply PortalPanelOk_page; [apply Portal_go_page | done].
  - apply PanelOk_closed.
  - by apply Portal_settled_ok.
Qed.

(** Whatever the events, in src/search.js the cursor is -1 or the index of
    a row of the panel, a panel that is not displayed is blank and without
    cursor, a displayed panel holds a message or rows, and there are never
    more than ten rows. *)
Theorem Portal_panel_and_cursor_fit (text : string) (es : list event) :
  PortalPanelOk (Portal.run es (Portal.init text)).
Proof.
  unfold Portal.run.
  assert (PortalPanelOk (Portal.init text)) as Hinit by apply PanelOk_closed.
  revert Hinit. generalize (Portal.init text).
  induction es as [|e es IH]; intros st Hok; simpl; [done |].
  by apply IH, Portal_step_ok.
Qed.

Lemma NormalizedPanelOk_page st st' :
  pageN st' = pageN st → NormalizedPanelOk st → NormalizedPanelOk st'.
Proof. unfold NormalizedPanelOk. by intros [= -> -> -> ->]. Qed.

Lemma Normalized_closeBox_ok st : NormalizedPanelOk (Normalized.closeBox st).
Proof. split; [done | apply PanelOk_closed]. Qed.

Lemma Normalized_render_ok q st :
  NormalizedPanelOk st → NormalizedPanelOk (Normalized.render q st).
Proof.
  unfold Normalized.render. intros [Ho Hok].
  destruct (negb (nonEmpty (trim q))); [apply Normalized_closeBox_ok |].
  pose proof (Normalized_top_len (trim q) (Normalized.items st)) as Hlen.
  destruct (Z.eqb_spec (len (Normalized.top (trim q) (Normalized.items st))) 0)
    as [H0|H0].
  - split; [done |]. simpl. apply PanelOk_message. by destruct Hok.
  - split; [done |]. simpl. apply PanelOk_rows.
    unfold len in *. rewrite length_fmap. lia.
Qed.

Lemma Normalized_ensureLoaded_ok st :
  NormalizedPanelOk st → NormalizedPanelOk (Normalized.ensureLoaded st).
Proof.
  intros Hok. unfold Normalized.ensureLoaded, Normalized.cb.
  repeat case_match; try (by apply Normalized_render_ok); done.
Qed.

Lemma Normalized_go_page url st : pageN (Normalized.go url st) = pageN st.
Proof. unfold Normalized.go. by repeat case_match. Qed.

Lemma Normalized_keydown_ok k st :
  NormalizedPanelOk st → NormalizedPanelOk (Normalized.keydown k st).
Proof.
  intros Hst. unfold Normalized.keydown.
  destruct (Normalized.open st && Normalized.display st) eqn:Hd; simpl.
  2:{ destruct k; try done;
        first [by apply Normalized_ensureLoaded_ok | apply Normalized_closeBox_ok]. }
  apply andb_true_iff in Hd as [Ho Hd].
  pose proof Hst as [Heq Hok]. rewrite Hd in Hok.
  destruct k.
  - destruct (Z.eqb_spec (len (searchItems (Normalized.content st))) 0) as [H0|H0];
      [done |].
    pose proof (PanelOk_below _ _ _ Hok H0).
    split; [done |]. simpl. rewrite Hd.
    eapply PanelOk_move; [done |]. by_bounds.
  - destruct (Z.eqb_spec (len (searchItems (Normalized.content st))) 0) as [H0|H0];
      [done |].
    pose proof (PanelOk_below _ _ _ Hok H0).
    split; [done |]. simpl. rewrite Hd.
    eapply PanelOk_move; [done |]. by_bounds.
  - repeat case_match; try done;
      (eapply NormalizedPanelOk_page; [apply Normalized_go_page | done]).
  - apply Normalized_closeBox_ok.
  - done.
Qed.

Lemma Normalized_finish_ok v n st :
  NormalizedPanelOk st → NormalizedPanelOk (Normalized.finish v n st).
Proof.
  intros Hok. unfold Normalized.finish, Normalized.cb.
  apply Normalized_render_ok. by eapply NormalizedPanelOk_page.
Qed.

Lemma Normalized_step_ok e st :
  NormalizedPanelOk st → NormalizedPanelOk (Normalized.step e st).
Proof.
  intros Hok. destruct e as [|text|k|i| |r]; simpl.
  - by apply Normalized_ensureLoaded_ok.
  - by apply Normalized_ensureLoaded_ok.
  - by apply Normalized_keydown_ok.
  - case_match; [| done].
    eapply NormalizedPanelOk_page; [apply Normalized_go_page | done].
  - apply Normalized_closeBox_ok.
  - unfold Normalized.settled.
    repeat case_match; try done; by apply Normalized_finish_ok.
Qed.

(** Whatever the events, in part_000 the flag [open] and the display of the
    box agree, the cursor is -1 or the index of a row of the panel, a panel
    that is not displayed is blank and without cursor, a displayed panel
    holds a message or rows, and there are never more than ten rows. *)
Theorem Normalized_panel_and_cursor_fit (text : string) (es : list event) :
  NormalizedPanelOk (Normalized.run es (Normalized.init text)).
Proof.
  unfold Normalized.run.
  assert (NormalizedPanelOk (Normalized.init text)) as Hinit
    by (split; [done | apply PanelOk_closed]).
  revert Hinit. generalize (Normalized.init text).
  induction es as [|e es IH]; intros st Hok; simpl; [done |].
  by apply IH, Normalized_step_ok.
Qed.

Lemma InlinePanelOk_page st st' :
  pageI st' = pageI st → InlinePanelOk st → InlinePanelOk st'.
Proof. unfold InlinePanelOk. by intros [= -> -> ->]. Qed.

Lemma Inline_search_ok countBelow localeCompare q st st' :
  InlinePanelOk st → Inline.search countBelow localeCompare q st = Some st' →
  InlinePanelOk st'.
Proof.
  unfold InlinePanelOk, Inline.search. intros Hok H.
  apply bind_Some in H as (q' & _ & H).
  destruct (negb (nonEmpty q')).
  { injection H as <-. apply PanelOk_closed. }
  destruct (negb (Inline.ready st)).
  { injection H as <-. simpl. apply PanelOk_message. by destruct Hok. }
  apply bind_Some in H as (r & Htop & H).
  destruct (Z.eqb_spec (len r) 0) as [H0|H0].
  { injection H as <-. simpl. apply PanelOk_message. by destruct Hok. }
  unfold Inline.renderList in H. apply bind_Some in H as (rows & Hrows & H).
  injection H as <-. simpl. apply PanelOk_rows.
  apply len_mapM in Hrows. apply Inline_top_len in Htop.
  unfold len in *. lia.
Qed.

Lemma Inline_navigate_page url st : pageI (Inline.navigate url st) = pageI st.
Proof. unfold Inline.navigate. by case_match. Qed.

Lemma Inline_setActive_ok i st :
  InlinePanelOk st → Inline.isOpen st = true → InlinePanelOk (Inline.setActive i st).
Proof.
  unfold InlinePanelOk. intros Hok Ho. rewrite Ho in Hok.
  unfold Inline.setActive. simpl. rewrite Ho.
  destruct ((i >=? 0) && (i <? len (searchItems (Inline.content st)))) eqn:Hi.
  - apply andb_true_iff in Hi as [Hi1 Hi2].
    eapply PanelOk_move; [done |]. lia.
  - by eapply PanelOk_reset.
Qed.

Lemma Inline_keydown_ok k st : InlinePanelOk st → InlinePanelOk (Inline.keydown k st).
Proof.
  intros Hst. unfold Inline.keydown.
  destruct (Inline.isOpen st) eqn:Ho; simpl; [| done].
  destruct k.
  - case_match; [done | by apply Inline_setActive_ok].
  - case_match; [done | by apply Inline_setActive_ok].
  - unfold Inline.goActive. repeat case_match; try done;
      (eapply InlinePanelOk_page; [apply Inline_navigate_page | done]).
  - apply PanelOk_closed.
  - done.
Qed.

Lemma Inline_step_ok countBelow localeCompare e st :
  InlinePanelOk st → InlinePanelOk (Inline.step countBelow localeCompare e st).
Proof.
  intros Hok. destruct e as [|text|k|i| |r]; simpl.
  - done.
  - destruct (Inline.search _ _ _ _) as [st'|] eqn:Hs; simpl.
    + eapply Inline_search_ok; [| done]. done.
    + done.
  - by apply Inline_keydown_ok.
  - case_match; [| done].
    eapply InlinePanelOk_page; [apply Inline_navigate_page | done].
  - apply PanelOk_closed.
  - unfold Inline.settled. by repeat case_match.
Qed.

(** Whatever the events, in part_001 the cursor is -1 or the index of a row
    of the panel, a panel that is not open is blank and without cursor, an
    open panel holds a message or rows, and there are never more than eight
    rows. *)
Theorem Inline_panel_and_cursor_fit
    (countBelow : string → nat) (localeCompare : string → string → Z)
    (text : string) (es : list event) :
  InlinePanelOk (Inline.run countBelow localeCompare es (Inline.init text)).
Proof.
  unfold Inline.run.
  assert (InlinePanelOk (Inline.init text)) as Hinit by apply PanelOk_closed.
  revert Hinit. generalize (Inline.init text).
  induction es as [|e es IH]; intros st Hok; simpl; [done |].
  by apply IH, Inline_step_ok.
Qed.
End PanelFacts.

(** ** The loader: further facts *)

Section LoaderMore.
Import JsString Js JsArray Dom Spec Props.

Lemma PortalPhase_Settled st p :
  PortalPhase st p → Portal.loaded st = true → Portal.pending st = 0%nat →
  PortalPhase st Settled.
Proof. destruct p; intros (? & ? & ?) ? ?; simpl; split_and!; congruence. Qed.

Lemma NormalizedPhase_Settled st p :
  NormalizedPhase st p → Normalized.loaded st = true → NormalizedPhase st Settled.
Proof. destruct p; intros (? & ? & ? & ?) ?; simpl; split_and!; congruence. Qed.

(** Once the request has settled the index stays as it is: whatever the
    events that follow, src/search.js and part_000 keep their list of
    records and issue no second request, and part_001 keeps its list and its
    [ready] flag. *)
Theorem settled_index_is_kept
    (countBelow : string → nat) (localeCompare : string → string → Z)
    (text : string) (es es' : list event) :
  Portal.loaded (Portal.run es (Portal.init text)) = true →
  Portal.pending (Portal.run es (Portal.init text)) = 0%nat →
  Normalized.loaded (Normalized.run es (Normalized.init text)) = true →
  Inline.pending (Inline.run countBelow localeCompare es (Inline.init text)) = 0%nat →
  (Portal.items (Portal.run es' (Portal.run es (Portal.init text)))
     = Portal.items (Portal.run es (Portal.init text)) ∧
   Portal.requests (Portal.run es' (Portal.run es (Portal.init text))) = 1%nat) ∧
  (Normalized.items (Normalized.run es' (Normalized.run es (Normalized.init text)))
     = Normalized.items (Normalized.run es (Normalized.init text)) ∧
   Normalized.requests
     (Normalized.run es' (Normalized.run es (Normalized.init text))) = 1%nat) ∧
  (Inline.indexItems
     (Inline.run countBelow localeCompare es'
        (Inline.run countBelow localeCompare es (Inline.init text)))
     = Inline.indexItems (Inline.run countBelow localeCompare es (Inline.init text)) ∧
   Inline.ready
     (Inline.run countBelow localeCompare es'
        (Inline.run countBelow localeCompare es (Inline.init text)))
     = Inline.ready (Inline.run countBelow localeCompare es (Inline.init text))).
Proof.
  intros HlP HpP HlN HpI. split; [| split].
  - destruct (run_phase Portal.step PortalPhase Portal_step_phase
                es (Portal.init text) Idle) as (p & Hp); [done |].
    fold (Portal.run es (Portal.init text)) in Hp.
    apply PortalPhase_Settled in Hp; [| done | done].
    pose proof (Portal_run_settled es' _ Hp) as [= _ Hr _ Hi].
    destruct Hp as (_ & Hreq & _). split; congruence.
  - destruct (run_phase Normalized.step NormalizedPhase Normalized_step_phase
                es (Normalized.init text) Idle) as (p & Hp); [done |].
    fold (Normalized.run es (Normalized.init text)) in Hp.
    apply NormalizedPhase_Settled in Hp; [| done].
    pose proof (Normalized_run_settled es' _ Hp) as [= _ _ Hr _ Hi].
    destruct Hp as (_ & _ & Hreq & _). split; congruence.
  - pose proof (Inline_run_settled countBelow localeCompare es' _ HpI)
      as [= Hr _ Hi].
    split; congruence.
Qed.

Lemma settled_index_is_kept_witness :
  Portal.loaded
    (Portal.run [Focus; FetchSettled (Response true (Some (VArr Examples.pies)))]
       (Portal.init "")) = true ∧
  Portal.pending
    (Portal.run [Focus; FetchSettled (Response true (Some (VArr Examples.pies)))]
       (Portal.init "")) = 0%nat ∧
  Normalized.loaded
    (Normalized.run [Focus; FetchSettled (Response true (Some (VArr Examples.pies)))]
       (Normalized.init "")) = true ∧
  Inline.pending
    (Inline.run countNone unitCompare
       [Focus; FetchSettled (Response true (Some (VArr Examples.pies)))]
       (Inline.init "")) = 0%nat ∧
  (Portal.items
     (Portal.run [Input "apple"; FetchSettled NetworkError]
        (Portal.run [Focus; FetchSettled (Response true (Some (VArr Examples.pies)))]
           (Portal.init "")))
     = Portal.items
         (Portal.run [Focus; FetchSettled (Response true (Some (VArr Examples.pies)))]
            (Portal.init "")) ∧
   Portal.requests
     (Portal.run [Input "apple"; FetchSettled NetworkError]
        (Portal.run [Focus; FetchSettled (Response true (Some (VArr Examples.pies)))]
           (Portal.init ""))) = 1%nat) ∧
  (Normalized.items
     (Normalized.run [Input "apple"; FetchSettled NetworkError]
        (Normalized.run
           [Focus; FetchSettled (Response true (Some (VArr Examples.pies)))]
           (Normalized.init "")))
     = Normalized.items
         (Normalized.run
            [Focus; FetchSettled (Response true (Some (VArr Examples.pies)))]
            (Normalized.init "")) ∧
   Normalized.requests
     (Normalized.run [Input "apple"; FetchSettled NetworkError]
        (Normalized.run
           [Focus; FetchSettled (Response true (Some (VArr Examples.pies)))]
           (Normalized.init ""))) = 1%nat) ∧
  (Inline.indexItems
     (Inline.run countNone unitCompare [Input "apple"; FetchSettled NetworkError]
        (Inline.run countNone unitCompare
           [Focus; FetchSettled (Response true (Some (VArr Examples.pies)))]
           (Inline.init "")))
     = Inline.indexItems
         (Inline.run countNone unitCompare
            [Focus; FetchSettled (Response true (Some (VArr Examples.pies)))]
            (Inline.init "")) ∧
   Inline.ready
     (Inline.run countNone unitCompare [Input "apple"; FetchSettled NetworkError]
        (Inline.run countNone unitCompare
           [Focus; FetchSettled (Response true (Some (VArr Examples.pies)))]
           (Inline.init "")))
     = Inline.ready
         (Inline.run countNone unitCompare
            [Focus; FetchSettled (Response true (Some (VArr Examples.pies)))]
            (Inline.init ""))).
Proof.
  do 4 (split; [vm_compute; reflexivity |]).
  exact (settled_index_is_kept countNone unitCompare ""
           [Focus; FetchSettled (Response true (Some (VArr Examples.pies)))]
           [Input "apple"; FetchSettled NetworkError]
           eq_refl eq_refl eq_refl eq_refl).
Defined.

Lemma Portal_ensureLoaded_items st :
  Portal.items (Portal.ensureLoaded st) = Portal.items st.
Proof.
  unfold Portal.ensureLoaded. case_match; [| done].
  by pose proof (Portal_cb_net st) as [= _ _ _ ->].
Qed.

Lemma Portal_step_items e st :
  isSettle e = false → Portal.items (Portal.step e st) = Portal.items st.
Proof.
  destruct e as [|text|k|i| |r]; simpl; intros He; try done.
  - by rewrite Portal_ensureLoaded_items.
  - by rewrite Portal_ensureLoaded_items.
  - destruct (Portal_keydown_net k st) as [[= _ _ _ ->] | [_ ->]]; [done |].
    apply Portal_ensureLoaded_items.
  - case_match; [| done]. by pose proof (Portal_go_net (row_url r) st) as [= _ _ _ ->].
Qed.

Lemma Portal_run_items es st :
  Forall (λ e, isSettle e = false) es →
  Portal.items (Portal.run es st) = Portal.items st.
Proof.
  unfold Portal.run. intros Hes. revert st.
  induction Hes as [|e es He Hes IH]; intros st; simpl; [done |].
  by rewrite IH, Portal_step_items.
Qed.

Lemma Normalized_ensureLoaded_items st :
  Normalized.items (Normalized.ensureLoaded st) = Normalized.items st.
Proof.
  unfold Normalized.ensureLoaded, Normalized.cb.
  repeat case_match; try done;
    by pose proof (Normalized_render_net (Normalized.input_value st) st)
      as [= _ _ _ _ ->].
Qed.

Lemma Normalized_step_items e st :
  isSettle e = false → Normalized.items (Normalized.step e st) = Normalized.items st.
Proof.
  destruct e as [|text|k|i| |r]; simpl; intros He; try done.
  - by rewrite Normalized_ensureLoaded_items.
  - by rewrite Normalized_ensureLoaded_items.
  - destruct (Normalized_keydown_net k st) as [[= _ _ _ _ ->] | [_ ->]]; [done |].
    apply Normalized_ensureLoaded_items.
  - case_match; [| done].
    by pose proof (Normalized_go_net (row_url r) st) as [= _ _ _ _ ->].
Qed.

Lemma Normalized_run_items es st :
  Forall (λ e, isSettle e = false) es →
  Normalized.items (Normalized.run es st) = Normalized.items st.
Proof.
  unfold Normalized.run. intros Hes. revert st.
  induction Hes as [|e es He Hes IH]; intros st; simpl; [done |].
  by rewrite IH, Normalized_step_items.
Qed.

Lemma Inline_step_net countBelow localeCompare e st :
  isSettle e = false → netI (Inline.step countBelow localeCompare e st) = netI st.
Proof.
  destruct e as [|text|k|i| |r]; simpl; intros He; try done.
  - destruct (Inline.search _ _ _ _) as [st'|] eqn:Hs; [| done].
    by apply Inline_search_net in Hs.
  - apply Inline_keydown_net.
  - unfold Inline.navigate. by repeat case_match.
Qed.

Lemma Inline_run_net countBelow localeCompare es st :
  Forall (λ e, isSettle e = false) es →
  netI (Inline.run countBelow localeCompare es st) = netI st.
Proof.
  unfold Inline.run. intros Hes. revert st.
  induction Hes as [|e es He Hes IH]; intros st; simpl; [done |].
  by rewrite IH, Inline_step_net.
Qed.

(** While the request is in flight a query that is not blank is answered
    from the still empty list in src/search.js and in part_000, which show
    the message of no results, and by the loading message in part_001. *)
Theorem query_while_the_request_is_in_flight
    (countBelow : string → nat) (localeCompare : string → string → Z)
    (text q : string) (es : list event) :
  Forall (λ e, isSettle e = false) es →
  Exists (λ e, callsLoader e = true) es →
  nonEmpty (trim q) = true →
  Portal.content (Portal.step (Input q) (Portal.run es (Portal.init text)))
    = Message "No results found." ∧
  Normalized.content
    (Normalized.step (Input q) (Normalized.run es (Normalized.init text)))
    = Message "No results found." ∧
  Inline.content
    (Inline.step countBelow localeCompare (Input q)
       (Inline.run countBelow localeCompare es (Inline.init text)))
    = Message "Loading...".
Proof.
  intros Hes Hcall Hq. split; [| split].
  - pose proof (run_in_flight Portal.step PortalPhase Portal_step_phase
                  es (Portal.init text) Idle Hes) as Hp.
    destruct Hp as (Hl & _ & _); [done | done | by right |].
    fold (Portal.run es (Portal.init text)) in Hl.
    pose proof (Portal_run_items es (Portal.init text) Hes) as Hi.
    simpl. unfold Portal.ensureLoaded, Portal.cb. simpl. rewrite Hl.
    rewrite render_nothing_loaded; [done | done | by simpl; rewrite Hi].
  - pose proof (run_in_flight Normalized.step NormalizedPhase Normalized_step_phase
                  es (Normalized.init text) Idle Hes) as Hp.
    destruct Hp as (Hl & Hg & _ & _); [done | done | by right |].
    fold (Normalized.run es (Normalized.init text)) in Hl, Hg.
    pose proof (Normalized_run_items es (Normalized.init text) Hes) as Hi.
    simpl. unfold Normalized.ensureLoaded, Normalized.cb. simpl. rewrite Hl, Hg.
    rewrite Normalized_render_nothing_loaded; [done | done | by simpl; rewrite Hi].
  - pose proof (Inline_run_net countBelow localeCompare es (Inline.init text) Hes)
      as [= Hr _ _].
    simpl. unfold Inline.search. rewrite norm_text. simpl.
    rewrite trim_toLowerCase, nonEmpty_toLowerCase, Hq, Hr. done.
Qed.

Lemma query_while_the_request_is_in_flight_witness :
  Forall (λ e, isSettle e = false) [Focus; Input "a"] ∧
  Exists (λ e, callsLoader e = true) [Focus; Input "a"] ∧
  nonEmpty (trim "ap") = true ∧
  Portal.content
    (Portal.step (Input "ap") (Portal.run [Focus; Input "a"] (Portal.init "")))
    = Message "No results found." ∧
  Normalized.content
    (Normalized.step (Input "ap")
       (Normalized.run [Focus; Input "a"] (Normalized.init "")))
    = Message "No results found." ∧
  Inline.content
    (Inline.step countNone unitCompare (Input "ap")
       (Inline.run countNone unitCompare [Focus; Input "a"] (Inline.init "")))
    = Message "Loading...".
Proof.
  assert (Forall (λ e, isSettle e = false) [Focus; Input "a"]) as H1
    by (repeat constructor).
  assert (Exists (λ e, callsLoader e = true) [Focus; Input "a"]) as H2
    by (by constructor).
  split; [exact H1 |]. split; [exact H2 |]. split; [reflexivity |].
  exact (query_while_the_request_is_in_flight countNone unitCompare "" "ap"
           [Focus; Input "a"] H1 H2 eq_refl).
Defined.

(** *** Entries that cannot be scored *)

Lemma toLowerCase_is_Some v :
  is_Some (toLowerCase_ (or_else v (VStr ""))) ↔ lowerable v.
Proof.
  unfold or_else, lowerable. destruct (truthy v) eqn:Ht.
  - split.
    + intros [x Hx]. right. destruct v; try done. by eexists.
    + intros [? | [x ->]]; [done | by eexists].
  - split; [by left | by eexists].
Qed.

Lemma Portal_score_is_Some q t d :
  is_Some (Portal.score q t d) ↔ lowerable t ∧ lowerable d.
Proof.
  rewrite <-!toLowerCase_is_Some. unfold Portal.score.
  destruct (toLowerCase_ (or_else t _)) as [t'|]; simpl.
  - destruct (toLowerCase_ (or_else d _)) as [d'|]; simpl.
    + split; [by intros _; split; eexists | by eexists].
    + split; [by intros [] | by intros [_ []]].
  - split; [by intros [] | by intros [[] _]].
Qed.

Lemma Portal_scored_is_Some q it :
  is_Some (t ← get it "t"; d ← get it "d"; Portal.score q t d) ↔ scorable it.
Proof.
  unfold scorable. destruct (get it "t") as [t|] eqn:Ht; simpl.
  2:{ split; [by intros [] | by intros (? & ? & ? & _)]. }
  destruct (get it "d") as [d|] eqn:Hd; simpl.
  2:{ split; [by intros [] | by intros (? & ? & _ & ? & _)]. }
  rewrite Portal_score_is_Some. split.
  - intros [? ?]. by exists t, d.
  - intros (t' & d' & [= <-] & [= <-] & ? & ?). done.
Qed.

Lemma Portal_candidates_is_Some (q : string) (items : list value) :
  is_Some (Portal.candidates q items) ↔ Forall scorable items.
Proof.
  induction items as [|it items IH]; simpl.
  - split; [constructor | by eexists].
  - rewrite Forall_cons, <-IH, <-(Portal_scored_is_Some q it).
    destruct (get it "t") as [t|]; simpl; [| split; [by intros [] | by intros [[] _]]].
    destruct (get it "d") as [d|]; simpl; [| split; [by intros [] | by intros [[] _]]].
    destruct (Portal.score q t d) as [s|]; simpl;
      [| split; [by intros [] | by intros [[] _]]].
    destruct (Portal.candidates q items) as [r|]; simpl.
    + split; [by intros _; split; eexists | by eexists].
    + split; [by intros [] | by intros [_ []]].
Qed.

Lemma Portal_render_throws q st :
  nonEmpty (trim q) = true → ¬ Forall scorable (Portal.items st) →
  Portal.render q st = None.
Proof.
  intros Hq Hbad. unfold Portal.render, Portal.top. rewrite Hq. simpl.
  destruct (Portal.candidates (trim q) (Portal.items st)) as [cs|] eqn:Hcs; [| done].
  exfalso. apply Hbad. apply (Portal_candidates_is_Some (trim q)).
  by rewrite Hcs.
Qed.

(** The loop of [render] of src/search.js runs through exactly when every
    entry can be scored: no entry is [null], and each title and each
    description is a text or a value that counts as false. *)
Theorem scoring_throws_on_an_entry_that_is_not_textual
    (q : string) (items : list value) :
  is_Some (Portal.candidates q items) ↔ Forall scorable items.
Proof. apply Portal_candidates_is_Some. Qed.

(** In src/search.js the [catch] of the loader also catches a throw of the
    first rendering.  When the index arrives while the input holds a query
    and one entry cannot be scored, the whole list is replaced by the empty
    list and the panel shows the message of no results; when the input is
    blank at that moment, the list is kept as it arrived. *)
Theorem unscorable_entry_empties_the_index
    (st : Portal.state) (ok : bool) (data : value) (l : list value) :
  Portal.pending st = 1%nat →
  truthy data = true →
  get data "items" = Some (VArr l) →
  ¬ Forall scorable l →
  (nonEmpty (trim (Portal.input_value st)) = true →
   Portal.items (Portal.settled (Response ok (Some data)) st) = [] ∧
   Portal.display (Portal.settled (Response ok (Some data)) st) = true ∧
   Portal.content (Portal.settled (Response ok (Some data)) st)
     = Message "No results found.") ∧
  (nonEmpty (trim (Portal.input_value st)) = false →
   Portal.items (Portal.settled (Response ok (Some data)) st) = l).
Proof.
  intros Hp Ht Hg Hbad. unfold Portal.settled. rewrite Hp, Ht, Hg. cbv zeta.
  split; intros Hq.
  - rewrite Portal_render_throws; [| done | done].
    unfold Portal.cb. rewrite render_nothing_loaded; [done | done | done].
  - unfold Portal.render. simpl. by rewrite Hq.
Qed.

Lemma unscorable_entry_empties_the_index_witness :
  Portal.pending (Portal.run [Input "apple"] (Portal.init "")) = 1%nat ∧
  truthy (VObj {[ "items"%string := VArr [Examples.record "Apple" "/b"; VNull] ]})
    = true ∧
  get (VObj {[ "items"%string := VArr [Examples.record "Apple" "/b"; VNull] ]}) "items"
    = Some (VArr [Examples.record "Apple" "/b"; VNull]) ∧
  ¬ Forall scorable [Examples.record "Apple" "/b"; VNull] ∧
  (nonEmpty (trim (Portal.input_value (Portal.run [Input "apple"] (Portal.init ""))))
     = true →
   Portal.items
     (Portal.settled
        (Response true
           (Some (VObj {[ "items"%string
                            := VArr [Examples.record "Apple" "/b"; VNull] ]})))
        (Portal.run [Input "apple"] (Portal.init ""))) = [] ∧
   Portal.display
     (Portal.settled
        (Response true
           (Some (VObj {[ "items"%string
                            := VArr [Examples.record "Apple" "/b"; VNull] ]})))
        (Portal.run [Input "apple"] (Portal.init ""))) = true ∧
   Portal.content
     (Portal.settled
        (Response true
           (Some (VObj {[ "items"%string
                            := VArr [Examples.record "Apple" "/b"; VNull] ]})))
        (Portal.run [Input "apple"] (Portal.init "")))
     = Message "No results found.") ∧
  (nonEmpty (trim (Portal.input_value (Portal.run [Input "apple"] (Portal.init ""))))
     = false →
   Portal.items
     (Portal.settled
        (Response true
           (Some (VObj {[ "items"%string
                            := VArr [Examples.record "Apple" "/b"; VNull] ]})))
        (Portal.run [Input "apple"] (Portal.init "")))
   = [Examples.record "Apple" "/b"; VNull]).
Proof.
  assert (¬ Forall scorable [Examples.record "Apple" "/b"; VNull]) as Hbad.
  { intros H. apply Forall_cons in H as [_ H]. apply Forall_cons in H as [H _].
    by destruct H as (? & ? & ? & _). }
  split; [reflexivity |]. split; [reflexivity |]. split; [reflexivity |].
  split; [exact Hbad |].
  exact (unscorable_entry_empties_the_index
           (Portal.run [Input "apple"] (Portal.init "")) true
           (VObj {[ "items"%string := VArr [Examples.record "Apple" "/b"; VNull] ]})
           [Examples.record "Apple" "/b"; VNull]
           eq_refl eq_refl eq_refl Hbad).
Defined.

(** A bare array as index document is loaded by part_000 as the same
    document wrapped in [{ items: ... }] is, and gives the empty list in
    src/search.js and in part_001. *)
Theorem bare_array_is_read_by_part_000_alone
    (l : list value) (ok : bool) (stP : Portal.state) (stI : Inline.state) :
  Portal.pending stP = 1%nat →
  Inline.pending stI = 1%nat →
  Normalized.normalizeData (VArr l)
    = Normalized.normalizeData (VObj {[ "items"%string := VArr l ]}) ∧
  Portal.items (Portal.settled (Response ok (Some (VArr l))) stP) = [] ∧
  Inline.indexItems (Inline.settled (Response ok (Some (VArr l))) stI) = VArr [].
Proof.
  intros HpP HpI. split_and!.
  - unfold Normalized.normalizeData. simpl. by rewrite lookup_singleton_eq.
  - unfold Portal.settled. rewrite HpP. simpl.
    destruct (Portal.render _ _) as [st2|] eqn:Hr.
    + by apply Portal_render_net in Hr as [= _ _ _ ->].
    + match goal with |- context [Portal.cb ?s] =>
        by pose proof (Portal_cb_net s) as [= _ _ _ ->] end.
  - unfold Inline.settled. by rewrite HpI.
Qed.

Lemma bare_array_is_read_by_part_000_alone_witness :
  Portal.pending (Portal.run [Focus] (Portal.init "")) = 1%nat ∧
  Inline.pending (Inline.init "") = 1%nat ∧
  Normalized.normalizeData (VArr Examples.pies)
    = Normalized.normalizeData (VObj {[ "items"%string := VArr Examples.pies ]}) ∧
  Portal.items
    (Portal.settled (Response true (Some (VArr Examples.pies)))
       (Portal.run [Focus] (Portal.init ""))) = [] ∧
  Inline.indexItems
    (Inline.settled (Response true (Some (VArr Examples.pies))) (Inline.init ""))
    = VArr [].
Proof.
  split; [reflexivity |]. split; [reflexivity |].
  exact (bare_array_is_read_by_part_000_alone Examples.pies true
           (Portal.run [Focus] (Portal.init "")) (Inline.init "")
           eq_refl eq_refl).
Defined.
End LoaderMore.

(** ** Normalisation: further facts *)

Section NormalisationMore.
Import JsString Js JsArray Dom Spec Props.

Lemma normalizeEntry_fields x i :
  Normalized.normalizeEntry x = Some (Some i) →
  ∃ ts ds us,
    Normalized.t i = trim ts ∧ Normalized.d i = trim ds ∧
    Normalized.u i = (if nonEmpty (trim us) then trim us else "/"%string) ∧
    nonEmpty (trim ts) = true.
Proof.
  unfold Normalized.normalizeEntry. intros He.
  destruct (negb (truthy x)); [done |].
  apply bind_Some in He as (tv & _ & He).
  apply bind_Some in He as (dv & _ & He).
  apply bind_Some in He as (uv & _ & He).
  apply bind_Some in He as (ts & _ & He).
  apply bind_Some in He as (ds & _ & He).
  apply bind_Some in He as (u' & Hu & He).
  unfold Normalized.normUrl in Hu. apply bind_Some in Hu as (us & _ & Hu).
  injection Hu as <-.
  exists ts, ds, us.
  destruct (nonEmpty (trim ts)) eqn:Ht; simpl in He.
  - destruct (trim us) eqn:Hus; simpl in He; by injection He as <-.
  - done.
Qed.

Lemma normalizeEntry_trimmed x i :
  Normalized.normalizeEntry x = Some (Some i) →
  nonEmpty (Normalized.t i) = true ∧ nonEmpty (Normalized.u i) = true ∧
  trim (Normalized.t i) = Normalized.t i ∧
  trim (Normalized.d i) = Normalized.d i ∧
  trim (Normalized.u i) = Normalized.u i.
Proof.
  intros (ts & ds & us & -> & -> & -> & Ht)%normalizeEntry_fields.
  rewrite !trim_idem. split_and!; try done.
  - by destruct (trim us).
  - destruct (trim us) eqn:Hus; simpl; [done |]. by rewrite <-Hus, trim_idem.
Qed.

Lemma normalizeEntries_trimmed raw items :
  Normalized.normalizeEntries raw = Some items →
  Forall (λ i, nonEmpty (Normalized.t i) = true ∧ nonEmpty (Normalized.u i) = true ∧
               trim (Normalized.t i) = Normalized.t i ∧
               trim (Normalized.d i) = Normalized.d i ∧
               trim (Normalized.u i) = Normalized.u i) items.
Proof.
  revert items. induction raw as [|x raw IH]; intros items; simpl.
  - intros [= <-]. constructor.
  - destruct (Normalized.normalizeEntry x) as [e|] eqn:He; simpl; [| done].
    destruct (Normalized.normalizeEntries raw) as [out|]; simpl; [| done].
    destruct e as [i|]; intros [= <-]; [| by apply IH].
    constructor; [by apply (normalizeEntry_trimmed x) | by apply IH].
Qed.

(** No field of a loaded record of part_000 has blanks around it. *)
Theorem loaded_fields_are_trimmed (data : value) (items : list Normalized.item) :
  Normalized.normalizeData data = Some items →
  Forall (λ i, trim (Normalized.t i) = Normalized.t i ∧
               trim (Normalized.d i) = Normalized.d i ∧
               trim (Normalized.u i) = Normalized.u i) items.
Proof.
  unfold Normalized.normalizeData. intros H%normalizeEntries_trimmed.
  eapply Forall_impl; [exact H |]. by intros i (_ & _ & ? & ? & ?).
Qed.

Lemma loaded_fields_are_trimmed_witness :
  Normalized.normalizeData
    (VArr [VObj {[ "title"%string := VStr "  Apple Pie ";
                   "href"%string := VStr " /a " ]}])
    = Some [Normalized.mkItem "Apple Pie" "" "/a"] ∧
  Forall (λ i, trim (Normalized.t i) = Normalized.t i ∧
               trim (Normalized.d i) = Normalized.d i ∧
               trim (Normalized.u i) = Normalized.u i)
         [Normalized.mkItem "Apple Pie" "" "/a"].
Proof.
  assert (Normalized.normalizeData
            (VArr [VObj {[ "title"%string := VStr "  Apple Pie ";
                           "href"%string := VStr " /a " ]}])
          = Some [Normalized.mkItem "Apple Pie" "" "/a"]) as H
    by (vm_compute; reflexivity).
  split; [exact H |]. exact (loaded_fields_are_trimmed _ _ H).
Defined.

Lemma itemValue_entry i :
  nonEmpty (Normalized.t i) = true → nonEmpty (Normalized.u i) = true →
  trim (Normalized.t i) = Normalized.t i →
  trim (Normalized.d i) = Normalized.d i →
  trim (Normalized.u i) = Normalized.u i →
  Normalized.normalizeEntry (itemValue i) = Some (Some i).
Proof.
  destruct i as [t d u]. simpl. intros Ht Hu Htt Hdd Huu.
  unfold Normalized.normalizeEntry, itemValue. simpl truthy. cbv iota. simpl negb.
  cbv iota. cbn [Normalized.t Normalized.d Normalized.u].
  assert (Normalized.firstTruthy
            (VObj {[ "t"%string := VStr t; "d"%string := VStr d; "u"%string := VStr u ]})
            ["t"; "title"; "name"; "h1"]%string = Some (VStr t)) as ->.
  { vm_compute. destruct t; [done | reflexivity]. }
  assert (Normalized.firstTruthy
            (VObj {[ "t"%string := VStr t; "d"%string := VStr d; "u"%string := VStr u ]})
            ["d"; "description"; "desc"; "snippet"; "summary"]%string
          = Some (VStr d)) as ->.
  { vm_compute. destruct d; reflexivity. }
  assert (Normalized.firstTruthy
            (VObj {[ "t"%string := VStr t; "d"%string := VStr d; "u"%string := VStr u ]})
            ["u"; "url"; "href"; "path"; "link"]%string = Some (VStr u)) as ->.
  { vm_compute. destruct u; [done | reflexivity]. }
  unfold Normalized.normUrl. simpl. rewrite Htt, Hdd, Huu, Ht, Hu. simpl.
  by rewrite Hu.
Qed.

(** Loading is a round trip: the records that part_000 has loaded, handed
    to [normalizeData] again as the objects it pushed, come out as they are. *)
Theorem normalizeData_keeps_what_it_loaded
    (data : value) (items : list Normalized.item) :
  Normalized.normalizeData data = Some items →
  Normalized.normalizeData (VArr (itemValue <$> items)) = Some items.
Proof.
  unfold Normalized.normalizeData at 1. intros H%normalizeEntries_trimmed.
  unfold Normalized.normalizeData. simpl.
  induction H as [|i items (Ht & Hu & Htt & Hdd & Huu) _ IH]; [done |].
  rewrite fmap_cons. simpl.
  rewrite (itemValue_entry i Ht Hu Htt Hdd Huu). simpl. by rewrite IH.
Qed.

Lemma normalizeData_keeps_what_it_loaded_witness :
  Normalized.normalizeData
    (VArr [VObj {[ "title"%string := VStr "  Apple Pie ";
                   "href"%string := VStr " /a " ]}])
    = Some [Normalized.mkItem "Apple Pie" "" "/a"] ∧
  Normalized.normalizeData (VArr (itemValue <$> [Normalized.mkItem "Apple Pie" "" "/a"]))
    = Some [Normalized.mkItem "Apple Pie" "" "/a"].
Proof.
  assert (Normalized.normalizeData
            (VArr [VObj {[ "title"%string := VStr "  Apple Pie ";
                           "href"%string := VStr " /a " ]}])
          = Some [Normalized.mkItem "Apple Pie" "" "/a"]) as H
    by (vm_compute; reflexivity).
  split; [exact H |]. exact (normalizeData_keeps_what_it_loaded _ _ H).
Defined.

(** [go] of part_000 always navigates: the address it assigns is the url
    without the blanks around it, or "/" when nothing is left, so the test
    for an empty url after [normUrl] never stops it. *)
Theorem go_of_part_000_always_navigates (url : string) (st : Normalized.state) :
  Normalized.href (Normalized.go url st)
    = Some (if nonEmpty (trim url) then trim url else "/"%string) ∧
  Normalized.href (Normalized.go url st) ≠ Some ""%string.
Proof.
  unfold Normalized.go, Normalized.normUrl. simpl.
  destruct (trim url) eqn:Hu; simpl; done.
Qed.
End NormalisationMore.

(** ** Queries and results: further facts *)

Section ResultsMore.
Import JsString Js JsArray Dom Spec Props.

Lemma lowerUnit_idem c : lowerUnit (lowerUnit c) = lowerUnit c.
Proof. destruct c as [[] [] [] [] [] [] [] []]; vm_compute; reflexivity. Qed.

Lemma toLowerCase_idem s : toLowerCase (toLowerCase s) = toLowerCase s.
Proof. induction s as [|c s IH]; simpl; [done |]. by rewrite lowerUnit_idem, IH. Qed.

Lemma Portal_score_lower q t d :
  Portal.score (toLowerCase q) t d = Portal.score q t d.
Proof. unfold Portal.score. by rewrite toLowerCase_idem. Qed.

Lemma Portal_candidates_lower q items :
  Portal.candidates (toLowerCase q) items = Portal.candidates q items.
Proof.
  induction items as [|it items IH]; simpl; [done |].
  rewrite IH. destruct (get it "t"); simpl; [| done].
  destruct (get it "d"); simpl; [| done]. by rewrite Portal_score_lower.
Qed.

Lemma Normalized_candidates_lower q items :
  Normalized.candidates (toLowerCase q) items = Normalized.candidates q items.
Proof.
  induction items as [|it items IH]; simpl; [done |].
  rewrite IH. unfold Normalized.score. by rewrite toLowerCase_idem.
Qed.

(** The panel depends on the text of the input only up to its case and the
    blanks around it: the text lowered and trimmed gives, in each script,
    what the text itself gives. *)
Theorem query_counts_up_to_case_and_blanks
    (countBelow : string → nat) (localeCompare : string → string → Z)
    (q : string) (stP : Portal.state) (stN : Normalized.state) (stI : Inline.state) :
  Portal.render (trim (toLowerCase q)) stP = Portal.render q stP ∧
  Normalized.render (trim (toLowerCase q)) stN = Normalized.render q stN ∧
  Inline.search countBelow localeCompare (trim (toLowerCase q)) stI
    = Inline.search countBelow localeCompare q stI.
Proof.
  split_and!.
  - unfold Portal.render, Portal.top.
    rewrite trim_idem, trim_toLowerCase, nonEmpty_toLowerCase.
    by rewrite Portal_candidates_lower.
  - unfold Normalized.render, Normalized.top.
    rewrite trim_idem, trim_toLowerCase, nonEmpty_toLowerCase.
    by rewrite Normalized_candidates_lower.
  - unfold Inline.search. rewrite !norm_text.
    rewrite (trim_toLowerCase (trim (toLowerCase q))), trim_idem.
    by rewrite <-(trim_toLowerCase (toLowerCase q)), toLowerCase_idem.
Qed.

Lemma elem_of_slice0 {A : Type} k (l : list A) x : x ∈ slice0 k l → x ∈ l.
Proof.
  unfold slice0. intros H. rewrite <-(take_drop k l). apply elem_of_app. by left.
Qed.

Lemma Portal_candidates_elem q items cs c :
  Portal.candidates q items = Some cs → c ∈ cs →
  Portal.it c ∈ items ∧ 0 < Portal.s c ∧
  (t ← get (Portal.it c) "t"; d ← get (Portal.it c) "d"; Portal.score q t d)
  = Some (Portal.s c).
Proof.
  revert cs. induction items as [|it items IH]; intros cs; simpl.
  - intros [= <-] Hc. by apply elem_of_nil in Hc.
  - intros H Hc.
    destruct (get it "t") as [t|] eqn:Ht; simpl in H; [| done].
    destruct (get it "d") as [d|] eqn:Hd; simpl in H; [| done].
    destruct (Portal.score q t d) as [s|] eqn:Hs; simpl in H; [| done].
    destruct (Portal.candidates q items) as [r|]; simpl in H; [| done].
    injection H as <-.
    destruct (Z.ltb_spec 0 s).
    + apply elem_of_cons in Hc as [-> | Hc].
      * simpl. rewrite Ht, Hd. simpl. split_and!; [left | done | done].
      * destruct (IH r eq_refl Hc) as (? & ? & ?). split_and!; [by right | done..].
    + destruct (IH r eq_refl Hc) as (? & ? & ?). split_and!; [by right | done..].
Qed.

Lemma Normalized_candidates_elem q items c :
  c ∈ Normalized.candidates q items →
  Normalized.it c ∈ items ∧ 0 < Normalized.s c ∧
  Normalized.s c
  = Normalized.score q (Normalized.t (Normalized.it c)) (Normalized.d (Normalized.it c)).
Proof.
  induction items as [|it items IH]; simpl.
  - intros Hc. by apply elem_of_nil in Hc.
  - destruct (Z.ltb_spec 0 (Normalized.score q (Normalized.t it) (Normalized.d it))).
    + intros [-> | Hc]%elem_of_cons.
      * simpl. split_and!; [left | done | done].
      * destruct (IH Hc) as (? & ? & ?). split_and!; [by right | done..].
    + intros Hc. destruct (IH Hc) as (? & ? & ?). split_and!; [by right | done..].
Qed.

Lemma Inline_candidates_elem q items cs c :
  Inline.candidates q items = Some cs → c ∈ cs →
  ∃ it, it ∈ items ∧ Inline.scoreItem q it = Some (Inline.s c) ∧ 0 ≤ Inline.s c ∧
        get it "t" = Some (Inline.t c) ∧ get it "u" = Some (Inline.u c) ∧
        get it "d" = Some (Inline.d c).
Proof.
  revert cs. induction items as [|it items IH]; intros cs; simpl.
  - intros [= <-] Hc. by apply elem_of_nil in Hc.
  - intros H Hc.
    destruct (Inline.scoreItem q it) as [s|] eqn:Hs; simpl in H; [| done].
    destruct (Inline.candidates q items) as [r|]; simpl in H; [| done].
    destruct (Z.geb_spec s 0) as [Hge|Hlt]; rewrite ?Z.geb_leb in H.
    + apply bind_Some in H as (t & Ht & H). apply bind_Some in H as (u & Hu & H).
      apply bind_Some in H as (d & Hd & H). injection H as <-.
      apply elem_of_cons in Hc as [-> | Hc].
      * exists it. simpl. split_and!; [left | done | lia | done..].
      * destruct (IH r eq_refl Hc) as (it' & ? & ?). exists it'. split; [by right | done].
    + injection H as <-.
      destruct (IH r eq_refl Hc) as (it' & ? & ?). exists it'. split; [by right | done].
Qed.

(** Every entry of a ranked list is a record of the index that matches: in
    src/search.js and part_000 it is in the list of records and has the
    positive score it is ranked with; in part_001 its title, url and
    description are those of a visited record whose score it carries. *)
Theorem ranked_entries_are_matching_records
    (countBelow : string → nat) (localeCompare : string → string → Z)
    (q : string)
    (itemsP : list value) (rP : list Portal.scored) (cP : Portal.scored)
    (itemsN : list Normalized.item) (cN : Normalized.scored)
    (itemsI : value) (vs : list value) (rI : list Inline.scored)
    (cI : Inline.scored) :
  Portal.top q itemsP = Some rP → cP ∈ rP →
  cN ∈ Normalized.top q itemsN →
  Inline.visited countBelow itemsI = Some vs →
  Inline.top countBelow localeCompare q itemsI = Some rI → cI ∈ rI →
  (Portal.it cP ∈ itemsP ∧ 0 < Portal.s cP ∧
   (t ← get (Portal.it cP) "t"; d ← get (Portal.it cP) "d"; Portal.score q t d)
   = Some (Portal.s cP)) ∧
  (Normalized.it cN ∈ itemsN ∧ 0 < Normalized.s cN ∧
   Normalized.s cN
   = Normalized.score q (Normalized.t (Normalized.it cN))
                      (Normalized.d (Normalized.it cN))) ∧
  (∃ it, it ∈ vs ∧ Inline.scoreItem q it = Some (Inline.s cI) ∧ 0 ≤ Inline.s cI ∧
         get it "t" = Some (Inline.t cI) ∧ get it "u" = Some (Inline.u cI) ∧
         get it "d" = Some (Inline.d cI)).
Proof.
  intros HtopP HcP HcN Hvs HtopI HcI. split; [| split].
  - unfold Portal.top in HtopP.
    apply bind_Some in HtopP as (cs & Hcs & H).
    apply bind_Some in H as (sorted & Hs & H). injection H as <-.
    apply (Portal_candidates_elem q itemsP cs); [done |].
    apply sort_Permutation in Hs. rewrite <-Hs.
    by eapply elem_of_slice0.
  - destruct (top_total q itemsN) as (sorted & Hs & Htop). rewrite Htop in HcN.
    apply Normalized_candidates_elem.
    apply sort_Permutation in Hs. rewrite <-Hs.
    by eapply elem_of_slice0.
  - unfold Inline.top, Inline.scoredBy in HtopI. rewrite Hvs in HtopI. simpl in HtopI.
    apply bind_Some in HtopI as (cs & Hcs & H).
    apply bind_Some in H as (sorted & Hs & H). injection H as <-.
    apply (Inline_candidates_elem q vs cs); [done |].
    apply sort_Permutation in Hs. rewrite <-Hs.
    by eapply elem_of_slice0.
Qed.

Lemma ranked_entries_are_matching_records_witness :
  Portal.top "x" Examples.ties = Some (default [] (Portal.top "x" Examples.ties)) ∧
  Portal.mkScored 800 (Examples.record "xb" "/b")
    ∈ default [] (Portal.top "x" Examples.ties) ∧
  Normalized.mkScored 850 (Normalized.mkItem "xk" "" "/")
    ∈ Normalized.top "x" Examples.eleven ∧
  Inline.visited countNone (VArr Examples.ties) = Some Examples.ties ∧
  Inline.top countNone unitCompare "x" (VArr Examples.ties)
    = Some (default [] (Inline.top countNone unitCompare "x" (VArr Examples.ties))) ∧
  Inline.mkScored 800 (VStr "xa") (VStr "/a") VUndefined
    ∈ default [] (Inline.top countNone unitCompare "x" (VArr Examples.ties)) ∧
  (Portal.it (Portal.mkScored 800 (Examples.record "xb" "/b")) ∈ Examples.ties ∧
   0 < Portal.s (Portal.mkScored 800 (Examples.record "xb" "/b")) ∧
   (t ← get (Portal.it (Portal.mkScored 800 (Examples.record "xb" "/b"))) "t";
    d ← get (Portal.it (Portal.mkScored 800 (Examples.record "xb" "/b"))) "d";
    Portal.score "x" t d)
   = Some (Portal.s (Portal.mkScored 800 (Examples.record "xb" "/b")))) ∧
  (Normalized.it (Normalized.mkScored 850 (Normalized.mkItem "xk" "" "/"))
     ∈ Examples.eleven ∧
   0 < Normalized.s (Normalized.mkScored 850 (Normalized.mkItem "xk" "" "/")) ∧
   Normalized.s (Normalized.mkScored 850 (Normalized.mkItem "xk" "" "/"))
   = Normalized.score "x"
       (Normalized.t
          (Normalized.it (Normalized.mkScored 850 (Normalized.mkItem "xk" "" "/"))))
       (Normalized.d
          (Normalized.it (Normalized.mkScored 850 (Normalized.mkItem "xk" "" "/"))))) ∧
  (∃ it, it ∈ Examples.ties ∧
         Inline.scoreItem "x" it
         = Some (Inline.s (Inline.mkScored 800 (VStr "xa") (VStr "/a") VUndefined)) ∧
         0 ≤ Inline.s (Inline.mkScored 800 (VStr "xa") (VStr "/a") VUndefined) ∧
         get it "t"
         = Some (Inline.t (Inline.mkScored 800 (VStr "xa") (VStr "/a") VUndefined)) ∧
         get it "u"
         = Some (Inline.u (Inline.mkScored 800 (VStr "xa") (VStr "/a") VUndefined)) ∧
         get it "d"
         = Some (Inline.d (Inline.mkScored 800 (VStr "xa") (VStr "/a") VUndefined))).
Proof.
  assert (Portal.top "x" Examples.ties
          = Some (default [] (Portal.top "x" Examples.ties))) as H1
    by (vm_compute; reflexivity).
  assert (Portal.mkScored 800 (Examples.record "xb" "/b")
            ∈ default [] (Portal.top "x" Examples.ties)) as H2
    by (vm_compute; apply list_elem_of_here).
  assert (Normalized.mkScored 850 (Normalized.mkItem "xk" "" "/")
            ∈ Normalized.top "x" Examples.eleven) as H3
    by (vm_compute; apply list_elem_of_here).
  assert (Inline.visited countNone (VArr Examples.ties) = Some Examples.ties) as H4
    by reflexivity.
  assert (Inline.top countNone unitCompare "x" (VArr Examples.ties)
          = Some (default [] (Inline.top countNone unitCompare "x" (VArr Examples.ties))))
    as H5 by (vm_compute; reflexivity).
  assert (Inline.mkScored 800 (VStr "xa") (VStr "/a") VUndefined
            ∈ default [] (Inline.top countNone unitCompare "x" (VArr Examples.ties)))
    as H6 by (vm_compute; apply list_elem_of_here).
  split; [exact H1 |]. split; [exact H2 |]. split; [exact H3 |].
  split; [exact H4 |]. split; [exact H5 |]. split; [exact H6 |].
  exact (ranked_entries_are_matching_records countNone unitCompare "x"
           Examples.ties _ _ Examples.eleven _ (VArr Examples.ties) _ _ _
           H1 H2 H3 H4 H5 H6).
Defined.

(** Enter on an open panel with an active row goes to the url of that row,
    in each of the three scripts.  The url is a text the script navigates
    with: not empty and, in part_000, without blanks around it. *)
Theorem Enter_goes_to_the_active_row
    (a : nat) (rowP rowN rowI : row)
    (stP : Portal.state) (stN : Normalized.state) (stI : Inline.state) :
  Portal.display stP = true →
  Portal.activeIndex stP = Z.of_nat a →
  searchItems (Portal.content stP) !! a = Some rowP →
  nonEmpty (row_url rowP) = true →
  Normalized.open stN = true →
  Normalized.display stN = true →
  Normalized.activeIndex stN = Z.of_nat a →
  searchItems (Normalized.content stN) !! a = Some rowN →
  nonEmpty (row_url rowN) = true →
  trim (row_url rowN) = row_url rowN →
  Inline.isOpen stI = true →
  Inline.active stI = Z.of_nat a →
  searchItems (Inline.content stI) !! a = Some rowI →
  nonEmpty (row_url rowI) = true →
  Portal.href (Portal.keydown Enter stP) = Some (row_url rowP) ∧
  Normalized.href (Normalized.keydown Enter stN) = Some (row_url rowN) ∧
  Inline.href (Inline.keydown Enter stI) = Some (row_url rowI).
Proof.
  intros HdP HaP HrP HuP HoN HdN HaN HrN HuN HtN HoI HaI HrI HuI.
  pose proof (lookup_lt_Some _ _ _ HrP) as HlP.
  pose proof (lookup_lt_Some _ _ _ HrN) as HlN.
  pose proof (lookup_lt_Some _ _ _ HrI) as HlI.
  unfold Portal.keydown, Normalized.keydown, Inline.keydown, Inline.goActive, at_.
  rewrite HdP, HoN, HdN, HoI, HaP, HaN, HaI. simpl.
  rewrite !Nat2Z.id, HrP, HrN, HrI.
  replace (len (searchItems (Portal.content stP)) =? 0) with false
    by (unfold len; lia).
  replace (len (searchItems (Normalized.content stN)) =? 0) with false
    by (unfold len; lia).
  replace (Z.of_nat a >=? 0) with true by lia.
  replace (Z.of_nat a <? 0) with false by lia.
  replace (Z.of_nat a >=? len (searchItems (Inline.content stI))) with false
    by (unfold len; lia).
  simpl. unfold Portal.go, Normalized.go, Normalized.normUrl, Inline.navigate. simpl.
  rewrite HuP, HtN, HuN, HuI. simpl. by rewrite HuN.
Qed.

Lemma Enter_goes_to_the_active_row_witness :
  Portal.display (Examples.portalOpen Examples.threeRows 1) = true ∧
  Portal.activeIndex (Examples.portalOpen Examples.threeRows 1) = Z.of_nat 1 ∧
  searchItems (Portal.content (Examples.portalOpen Examples.threeRows 1)) !! 1%nat
    = Some (mkRow "/b" "B" "") ∧
  nonEmpty (row_url (mkRow "/b" "B" "")) = true ∧
  Normalized.open (Examples.normalizedOpen Examples.threeRows 1) = true ∧
  Normalized.display (Examples.normalizedOpen Examples.threeRows 1) = true ∧
  Normalized.activeIndex (Examples.normalizedOpen Examples.threeRows 1) = Z.of_nat 1 ∧
  searchItems (Normalized.content (Examples.normalizedOpen Examples.threeRows 1))
    !! 1%nat = Some (mkRow "/b" "B" "") ∧
  nonEmpty (row_url (mkRow "/b" "B" "")) = true ∧
  trim (row_url (mkRow "/b" "B" "")) = row_url (mkRow "/b" "B" "") ∧
  Inline.isOpen (Examples.inlineOpen Examples.threeRows 1) = true ∧
  Inline.active (Examples.inlineOpen Examples.threeRows 1) = Z.of_nat 1 ∧
  searchItems (Inline.content (Examples.inlineOpen Examples.threeRows 1)) !! 1%nat
    = Some (mkRow "/b" "B" "") ∧
  nonEmpty (row_url (mkRow "/b" "B" "")) = true ∧
  Portal.href (Portal.keydown Enter (Examples.portalOpen Examples.threeRows 1))
    = Some (row_url (mkRow "/b" "B" "")) ∧
  Normalized.href
    (Normalized.keydown Enter (Examples.normalizedOpen Examples.threeRows 1))
    = Some (row_url (mkRow "/b" "B" "")) ∧
  Inline.href (Inline.keydown Enter (Examples.inlineOpen Examples.threeRows 1))
    = Some (row_url (mkRow "/b" "B" "")).
Proof.
  do 14 (split; [reflexivity |]).
  exact (Enter_goes_to_the_active_row 1
           (mkRow "/b" "B" "") (mkRow "/b" "B" "") (mkRow "/b" "B" "")
           (Examples.portalOpen Examples.threeRows 1)
           (Examples.normalizedOpen Examples.threeRows 1)
           (Examples.inlineOpen Examples.threeRows 1)
           eq_refl eq_refl eq_refl eq_refl eq_refl eq_refl eq_refl
           eq_refl eq_refl eq_refl eq_refl eq_refl eq_refl eq_refl).
Defined.

Lemma untitled_scoreItem q d :
  nonEmpty q = true → occursIn q (trim (toLowerCase d)) →
  Inline.scoreItem q (VObj {[ "d"%string := VStr d ]}) = Some 300.
Proof.
  intros Hq Hd.
  apply (Inline_score_points q _ VUndefined (VStr d) ""%string
           (trim (toLowerCase d)) InDescription Hq);
    [reflexivity | reflexivity | reflexivity | apply norm_text |].
  apply match_description; [by apply occursIn_empty | done].
Qed.

(** In part_001 two records without title whose descriptions hold the query
    have one score, and the comparator then calls [localeCompare] on a title
    that is [undefined]: [search] throws, and the panel stays as it was. *)
Theorem untitled_records_of_one_score_stop_the_search
    (countBelow : string → nat) (localeCompare : string → string → Z)
    (text d1 d2 : string) (st : Inline.state) :
  Inline.ready st = true →
  Inline.indexItems st
    = VArr [VObj {[ "d"%string := VStr d1 ]}; VObj {[ "d"%string := VStr d2 ]}] →
  nonEmpty (trim (toLowerCase text)) = true →
  occursIn (trim (toLowerCase text)) (trim (toLowerCase d1)) →
  occursIn (trim (toLowerCase text)) (trim (toLowerCase d2)) →
  Inline.search countBelow localeCompare text st = None ∧
  pageI (Inline.step countBelow localeCompare (Input text) st) = pageI st.
Proof.
  intros Hr Hi Hq H1 H2.
  assert (∀ st', Inline.ready st' = true →
            Inline.indexItems st' = Inline.indexItems st →
            Inline.search countBelow localeCompare text st' = None) as Hs.
  { intros st' Hr' Hi'. unfold Inline.search. rewrite norm_text. simpl.
    rewrite Hq, Hr'. simpl. rewrite Hi', Hi.
    unfold Inline.top, Inline.scoredBy. simpl.
    rewrite (untitled_scoreItem _ d1 Hq H1), (untitled_scoreItem _ d2 Hq H2).
    reflexivity. }
  split; [by apply Hs |].
  simpl. by rewrite Hs.
Qed.

Lemma untitled_records_of_one_score_stop_the_search_witness :
  Inline.ready
    (Inline.mkState
       (VArr [VObj {[ "d"%string := VStr "Fresh apple pie" ]};
              VObj {[ "d"%string := VStr "Apple sauce" ]}])
       true (-1) false Blank "" None 1 0) = true ∧
  Inline.indexItems
    (Inline.mkState
       (VArr [VObj {[ "d"%string := VStr "Fresh apple pie" ]};
              VObj {[ "d"%string := VStr "Apple sauce" ]}])
       true (-1) false Blank "" None 1 0)
    = VArr [VObj {[ "d"%string := VStr "Fresh apple pie" ]};
            VObj {[ "d"%string := VStr "Apple sauce" ]}] ∧
  nonEmpty (trim (toLowerCase "Apple")) = true ∧
  occursIn (trim (toLowerCase "Apple")) (trim (toLowerCase "Fresh apple pie")) ∧
  occursIn (trim (toLowerCase "Apple")) (trim (toLowerCase "Apple sauce")) ∧
  Inline.search countNone unitCompare "Apple"
    (Inline.mkState
       (VArr [VObj {[ "d"%string := VStr "Fresh apple pie" ]};
              VObj {[ "d"%string := VStr "Apple sauce" ]}])
       true (-1) false Blank "" None 1 0) = None ∧
  pageI (Inline.step countNone unitCompare (Input "Apple")
           (Inline.mkState
              (VArr [VObj {[ "d"%string := VStr "Fresh apple pie" ]};
                     VObj {[ "d"%string := VStr "Apple sauce" ]}])
              true (-1) false Blank "" None 1 0))
  = pageI (Inline.mkState
             (VArr [VObj {[ "d"%string := VStr "Fresh apple pie" ]};
                    VObj {[ "d"%string := VStr "Apple sauce" ]}])
             true (-1) false Blank "" None 1 0).
Proof.
  assert (occursIn (trim (toLowerCase "Apple")) (trim (toLowerCase "Fresh apple pie")))
    as H1 by (exists "fresh "%string, " pie"%string; reflexivity).
  assert (occursIn (trim (toLowerCase "Apple")) (trim (toLowerCase "Apple sauce")))
    as H2 by (exists ""%string, " sauce"%string; reflexivity).
  split; [reflexivity |]. split; [reflexivity |]. split; [reflexivity |].
  split; [exact H1 |]. split; [exact H2 |].
  exact (untitled_records_of_one_score_stop_the_search countNone unitCompare
           "Apple" "Fresh apple pie" "Apple sauce"
           (Inline.mkState
              (VArr [VObj {[ "d"%string := VStr "Fresh apple pie" ]};
                     VObj {[ "d"%string := VStr "Apple sauce" ]}])
              true (-1) false Blank "" None 1 0)
           eq_refl eq_refl eq_refl H1 H2).
Defined.
End ResultsMore.


(** ** src/search.js on the list of part_000 *)

Section PortalOnNormalized.
Import JsString Js JsArray Dom Spec Props.

Section SortMap.
Context {A B : Type}.
Variable g : A → B.
Variable cmpA : A → A → option Z.
Variable cmpB : B → B → option Z.
Variable P : A → Prop.
Hypothesis cmp_agree :
  ∀ a b, P a → P b →
    ∃ c c', cmpA a b = Some c ∧ cmpB (g a) (g b) = Some c' ∧ (c ≤ 0 ↔ c' ≤ 0).

Lemma insert_fmap x l r :
  P x → Forall P l → insert cmpA x l = Some r →
  insert cmpB (g x) (g <$> l) = Some (g <$> r).
Proof.
  intros Hx Hl. revert r. induction Hl as [|y l Hy Hl IH]; intros r.
  - by intros [= <-].
  - rewrite fmap_cons. cbn [insert].
    destruct (cmp_agree x y Hx Hy) as (c & c' & -> & -> & Hcc). cbn [mbind option_bind].
    destruct (Z.leb_spec c 0), (Z.leb_spec c' 0); try lia.
    + by intros [= <-].
    + destruct (insert cmpA x l) as [r'|]; cbn [mbind option_bind]; [| done].
      intros [= <-]. by rewrite (IH r' eq_refl).
Qed.

Lemma sort_fmap l r :
  Forall P l → sort cmpA l = Some r → sort cmpB (g <$> l) = Some (g <$> r).
Proof.
  intros Hl. revert r. induction Hl as [|x l Hx Hl IH]; intros r.
  - by intros [= <-].
  - rewrite fmap_cons. cbn [sort].
    destruct (sort cmpA l) as [r'|] eqn:Hr'; cbn [mbind option_bind]; [| done].
    rewrite (IH r' eq_refl). cbn [mbind option_bind]. apply insert_fmap; [done |].
    apply sort_Permutation in Hr'. by rewrite Hr'.
Qed.
End SortMap.

Lemma Normalized_score_values q t d :
  Normalized.score q t d ∈ [0; 300; 650; 850; 1000].
Proof.
  unfold Normalized.score. repeat case_match; set_solver.
Qed.

Lemma Portal_score_of_text q t d :
  Portal.score q (VStr t) (VStr d) = Some (portalScore (Normalized.score q t d)).
Proof.
  unfold Portal.score, Normalized.score, or_else. simpl.
  destruct t, d; simpl; repeat case_match; reflexivity.
Qed.

Lemma Portal_candidates_of_items q items :
  Portal.candidates q (itemValue <$> items)
  = Some (asPortal <$> Normalized.candidates q items).
Proof.
  induction items as [|[t d u] items IH]; [done |].
  rewrite fmap_cons. cbn [Portal.candidates Normalized.candidates].
  change (get (itemValue (Normalized.mkItem t d u)) "t") with (Some (VStr t)).
  change (get (itemValue (Normalized.mkItem t d u)) "d") with (Some (VStr d)).
  cbn [mbind option_bind]. rewrite Portal_score_of_text, IH.
  cbn [mbind option_bind Normalized.t Normalized.d].
  pose proof (Normalized_score_values q t d) as Hv.
  repeat (apply elem_of_cons in Hv as [-> | Hv]); try done.
  by apply elem_of_nil in Hv.
Qed.

Lemma Normalized_candidates_values q items :
  Forall (λ c, Normalized.s c ∈ [300; 650; 850; 1000]) (Normalized.candidates q items).
Proof.
  induction items as [|it items IH]; simpl; [constructor |].
  destruct (Z.ltb_spec 0 (Normalized.score q (Normalized.t it) (Normalized.d it)));
    [| done].
  constructor; [| done]. simpl.
  pose proof (Normalized_score_values q (Normalized.t it) (Normalized.d it)) as Hv.
  apply elem_of_cons in Hv as [Hv | Hv]; [lia | done].
Qed.

Lemma Portal_rows_of_items top :
  mapM Portal.renderRow (asPortal <$> top) = Some (Normalized.renderRow <$> top).
Proof.
  apply mapM_Some. induction top as [|[s [t d u]] top IH]; [constructor |].
  rewrite !fmap_cons. constructor; [| done].
  unfold Portal.renderRow, Normalized.renderRow, asPortal. simpl Portal.it.
  change (get (itemValue (Normalized.mkItem t d u)) "t") with (Some (VStr t)).
  change (get (itemValue (Normalized.mkItem t d u)) "d") with (Some (VStr d)).
  change (get (itemValue (Normalized.mkItem t d u)) "u") with (Some (VStr u)).
  simpl. unfold or_else. simpl. by destruct t, d, u.
Qed.

Lemma comparefn_agree a b :
  Normalized.s a ∈ [300; 650; 850; 1000] → Normalized.s b ∈ [300; 650; 850; 1000] →
  ∃ c c', Normalized.comparefn a b = Some c ∧
          Portal.comparefn (asPortal a) (asPortal b) = Some c' ∧ (c ≤ 0 ↔ c' ≤ 0).
Proof.
  intros Ha Hb. eexists _, _. split_and!; [done | done |].
  unfold asPortal, portalScore. simpl.
  repeat (apply elem_of_cons in Ha as [-> | Ha]; [| try by apply elem_of_nil in Ha]);
    repeat (apply elem_of_cons in Hb as [-> | Hb]; [| try by apply elem_of_nil in Hb]);
    simpl; lia.
Qed.

(** Run on the records that part_000 has loaded, src/search.js shows what
    part_000 shows: the same message or the same rows in the same order.
    The two scripts differ in two scores, not in the ranking they give. *)
Theorem search_js_on_the_list_of_part_000_shows_the_same
    (q : string) (stP : Portal.state) (stN : Normalized.state) :
  Portal.items stP = itemValue <$> Normalized.items stN →
  ∃ stP', Portal.render q stP = Some stP' ∧
          Portal.display stP' = Normalized.display (Normalized.render q stN) ∧
          Portal.content stP' = Normalized.content (Normalized.render q stN).
Proof.
  intros Hi. unfold Portal.render, Normalized.render.
  destruct (negb (nonEmpty (trim q))); [by eexists |].
  destruct (top_total (trim q) (Normalized.items stN)) as (sorted & Hs & Htop).
  assert (Portal.top (trim q) (Portal.items stP)
          = Some (asPortal <$> Normalized.top (trim q) (Normalized.items stN))) as ->.
  { unfold Portal.top. rewrite Hi, Portal_candidates_of_items. simpl.
    rewrite (sort_fmap asPortal Normalized.comparefn Portal.comparefn
               (λ c, Normalized.s c ∈ [300; 650; 850; 1000]) comparefn_agree
               _ sorted (Normalized_candidates_values _ _) Hs).
    simpl. rewrite Htop. unfold slice0. by rewrite fmap_take. }
  simpl. unfold len. rewrite length_fmap.
  destruct (Z.of_nat (length (Normalized.top (trim q) (Normalized.items stN))) =? 0);
    [by eexists |].
  rewrite Portal_rows_of_items. simpl. by eexists.
Qed.

Lemma search_js_on_the_list_of_part_000_shows_the_same_witness :
  Portal.items (Portal.set_items (itemValue <$> Examples.eleven) (Portal.init ""))
    = itemValue <$> Normalized.items
                      (Normalized.mkState Examples.eleven true false (-1) false false
                         Blank "" false None 1 0) ∧
  ∃ stP',
    Portal.render "x"
      (Portal.set_items (itemValue <$> Examples.eleven) (Portal.init "")) = Some stP' ∧
    Portal.display stP'
      = Normalized.display
          (Normalized.render "x"
             (Normalized.mkState Examples.eleven true false (-1) false false
                Blank "" false None 1 0)) ∧
    Portal.content stP'
      = Normalized.content
          (Normalized.render "x"
             (Normalized.mkState Examples.eleven true false (-1) false false
                Blank "" false None 1 0)).
Proof.
  split; [reflexivity |].
  exact (search_js_on_the_list_of_part_000_shows_the_same "x"
           (Portal.set_items (itemValue <$> Examples.eleven) (Portal.init ""))
           (Normalized.mkState Examples.eleven true false (-1) false false
              Blank "" false None 1 0)
           eq_refl).
Defined.
End PortalOnNormalized.


(** ** Case folding and trimming: the scripts against the policy *)

Section Normalising.
Import JsString Js JsArray Spec.

Lemma foldUnit_lowerUnit c : foldUnit c = lowerUnit c.
Proof. destruct c as [[] [] [] [] [] [] [] []]; vm_compute; reflexivity. Qed.

Lemma caseFolded_toLowerCase s : caseFolded s = toLowerCase s.
Proof.
  induction s as [|c s IH]; simpl; [done |]. by rewrite foldUnit_lowerUnit, IH.
Qed.

Lemma blank_isWhiteSpace c : blank c = isWhiteSpace c.
Proof. destruct c as [[] [] [] [] [] [] [] []]; vm_compute; reflexivity. Qed.

Lemma skipBlanks_trimStart s : skipBlanks s = trimStart s.
Proof.
  induction s as [|c s IH]; simpl; [done |].
  rewrite blank_isWhiteSpace, IH. reflexivity.
Qed.

Lemma skipBlanks_snoc a c :
  skipBlanks (a +:+ String c "")
  = match skipBlanks a with
    | EmptyString => if blank c then EmptyString else String c EmptyString
    | String x r => String x r +:+ String c EmptyString
    end.
Proof.
  induction a as [|x a IH].
  - rewrite append_nil. simpl. by destruct (blank c).
  - rewrite append_cons. simpl. destruct (blank x); [exact IH |].
    by rewrite append_cons.
Qed.

Lemma reversed_snoc r c : reversed (r +:+ String c "") = String c (reversed r).
Proof.
  induction r as [|x r IH].
  - reflexivity.
  - rewrite append_cons. simpl. rewrite IH. by rewrite append_cons.
Qed.

Lemma trimEnd_cons c s :
  trimEnd (String c s)
  = match trimEnd s with
    | EmptyString => if isWhiteSpace c then EmptyString else String c EmptyString
    | String x r => String c (String x r)
    end.
Proof. simpl. by destruct (trimEnd s). Qed.

Lemma snoc_cons (a : string) x : ∃ y r, a +:+ String x "" = String y r.
Proof.
  destruct a as [|y a]; [by exists x, ""%string |].
  exists y, (a +:+ String x ""). by rewrite append_cons.
Qed.

Lemma reversed_trimEnd s : reversed (skipBlanks (reversed s)) = trimEnd s.
Proof.
  induction s as [|c s IH]; [reflexivity |].
  rewrite trimEnd_cons.
  change (reversed (String c s)) with (reversed s +:+ String c "").
  rewrite skipBlanks_snoc.
  destruct (skipBlanks (reversed s)) as [|x r] eqn:E.
  - rewrite <-IH. simpl. rewrite blank_isWhiteSpace.
    by destruct (isWhiteSpace c).
  - rewrite reversed_snoc, <-IH.
    change (reversed (String x r)) with (reversed r +:+ String x "").
    by destruct (snoc_cons (reversed r) x) as (y & r' & ->).
Qed.

(** Trimming and case folding of the scripts are those of the policy. *)
Lemma stripped_trim s : stripped s = trim s.
Proof. unfold stripped, trim. by rewrite reversed_trimEnd, skipBlanks_trimStart. Qed.

Lemma normalized_trim s : normalized s = trim (toLowerCase s).
Proof. unfold normalized. by rewrite stripped_trim, caseFolded_toLowerCase. Qed.

Lemma normalized_tidy s : trim s = s → normalized s = toLowerCase s.
Proof. intros Hs. by rewrite normalized_trim, trim_toLowerCase, Hs. Qed.

Lemma normalized_query q :
  normalized q = q → toLowerCase q = q ∧ trim q = q.
Proof.
  rewrite normalized_trim. intros Hq. split.
  - rewrite <-Hq at 1.
    by rewrite <-trim_toLowerCase, toLowerCase_idem.
  - rewrite <-Hq. apply trim_idem.
Qed.

Lemma append_assoc (a b c : string) : (a +:+ b) +:+ c = a +:+ (b +:+ c).
Proof.
  induction a as [|x a IH]; [by rewrite !append_nil |].
  by rewrite !append_cons, IH.
Qed.

Lemma occursIn_inside q a s b : occursIn q s → occursIn q (a +:+ s +:+ b).
Proof.
  intros (a' & b' & ->). exists (a +:+ a'), (b' +:+ b).
  by rewrite !append_assoc.
Qed.

Lemma trimStart_decompose d : ∃ a, d = a +:+ trimStart d.
Proof.
  induction d as [|c d [a IH]]; [by exists ""%string |]. simpl.
  destruct (isWhiteSpace c); [| by exists ""%string].
  exists (String c a). by rewrite append_cons, <-IH.
Qed.

Lemma trimEnd_decompose d : ∃ b, d = trimEnd d +:+ b.
Proof.
  induction d as [|c d [b IH]]; [by exists ""%string |].
  rewrite trimEnd_cons. destruct (trimEnd d) as [|x r].
  - rewrite append_nil in IH. subst b.
    destruct (isWhiteSpace c); [by exists (String c d) | by exists d].
  - exists b. by rewrite append_cons, <-IH.
Qed.

Lemma occursIn_of_trim q d : occursIn q (trim d) → occursIn q d.
Proof.
  intros H. unfold trim in H.
  destruct (trimStart_decompose d) as [a Ha].
  destruct (trimEnd_decompose (trimStart d)) as [b Hb].
  rewrite Ha, Hb. by apply occursIn_inside.
Qed.

Lemma occursIn_cons q c t : occursIn q t → occursIn q (String c t).
Proof. intros (a & b & ->). exists (String c a), b. by rewrite append_cons. Qed.

Lemma occursIn_trimStart q d :
  headKept q → nonEmpty q = true → occursIn q d → occursIn q (trimStart d).
Proof.
  intros Hh Hq. induction d as [|x d IH]; [done |]. simpl.
  destruct (isWhiteSpace x) eqn:Ex; [| done].
  intros Ho. apply IH. destruct (startsWith (String x d) q) eqn:S.
  - destruct q as [|a q]; [done |]. simpl in S, Hh.
    destruct (Ascii.eqb_spec a x) as [->|]; congruence.
  - by apply (occursIn_later q x d S).
Qed.

Lemma isPrefixOf_trimEnd q b :
  trimEnd q = q → nonEmpty q = true → isPrefixOf q (trimEnd (q +:+ b)).
Proof.
  revert b. induction q as [|c q IH]; [done |]. intros b Hc _.
  rewrite append_cons, trimEnd_cons. rewrite trimEnd_cons in Hc.
  destruct q as [|y q].
  - simpl in Hc. destruct (isWhiteSpace c); [done |].
    rewrite append_nil. destruct (trimEnd b) as [|x r].
    + by exists ""%string.
    + by exists (String x r).
  - assert (trimEnd (String y q) = String y q) as Hq.
    { destruct (trimEnd (String y q)) as [|x r];
        [by destruct (isWhiteSpace c) | congruence]. }
    destruct (IH b Hq eq_refl) as [b' Hb'].
    rewrite Hb', append_cons. exists b'. by rewrite !append_cons.
Qed.

Lemma occursIn_trimEnd q d :
  trimEnd q = q → nonEmpty q = true → occursIn q d → occursIn q (trimEnd d).
Proof.
  intros Ht Hq. induction d as [|x d IH]; [done |].
  intros Ho. destruct (startsWith (String x d) q) eqn:S.
  - apply startsWith_isPrefixOf in S as [b Hb]. rewrite Hb.
    by apply isPrefixOf_occursIn, isPrefixOf_trimEnd.
  - apply (occursIn_later q x d S) in Ho. apply IH in Ho.
    rewrite trimEnd_cons. destruct (trimEnd d) as [|y r].
    + by apply occursIn_empty in Ho.
    + by apply occursIn_cons.
Qed.

(** A trimmed query occurs in a text exactly when it occurs in the text
    trimmed. *)
Lemma occursIn_trim q d :
  trim q = q → nonEmpty q = true → occursIn q (trim d) ↔ occursIn q d.
Proof.
  intros Ht Hq. split; [apply occursIn_of_trim |].
  assert (headKept q) as Hh.
  { rewrite <-Ht. apply trimEnd_headKept, trimStart_headKept. }
  assert (trimEnd q = q) as He.
  { unfold trim in Ht. by rewrite (trimStart_id q Hh) in Ht. }
  intros Ho. unfold trim. by apply occursIn_trimEnd, occursIn_trimStart.
Qed.

Lemma Match_description q t d d' k :
  (occursIn q d ↔ occursIn q d') → Match q t d k → Match q t d' k.
Proof.
  intros Hd [| | | Hn Ho | Hn Ho].
  - by apply match_exact.
  - by apply match_prefix.
  - by apply match_title.
  - apply match_description; [done | by apply Hd].
  - apply match_none; [done |]. by rewrite <-Hd.
Qed.

(** What the scripts read where a record has the text of a field. *)
Lemma field_get it name s :
  field it name = Some s →
  ∃ v, get it name = Some v ∧
       toLowerCase_ (or_else v (VStr "")) = Some (toLowerCase s) ∧
       Inline.norm v = Some (trim (toLowerCase s)).
Proof.
  destruct it as [| | | | | |m]; try done. simpl.
  destruct (m !! name) as [v|] eqn:Hm; simpl.
  - destruct v as [| | | |x| |]; try done. intros [= ->].
    exists (VStr s). split; [done |]. by destruct s.
  - intros [= <-]. by exists VUndefined.
Qed.

Lemma field_get_any it name s :
  field it name = Some s → ∀ k, ∃ v, get it k = Some v.
Proof. destruct it; try done. intros _ k. by eexists. Qed.
End Normalising.

(** ** Scores by kind of match *)

Section ScoresByKind.
Import JsString Js JsArray Spec.

Lemma TidyMatch_points q it k :
  nonEmpty q = true → normalized q = q → TidyMatch q it k →
  PortalScore q it = Some (points 800 600 0 k).
Proof.
  intros Hq Hn (t & d & Ht & Hd & Htidy & HM).
  apply normalized_query in Hn as [Hlow Htrim].
  destruct (field_get it "t" t Ht) as (tv & Hgt & Hlt & _).
  destruct (field_get it "d" d Hd) as (dv & Hgd & Hld & _).
  unfold PortalScore. rewrite Hgt, Hgd. simpl.
  apply (Portal_score_points q tv dv _ _ k Hq Hlt Hld).
  rewrite stripped_trim in Htidy.
  rewrite Hlow, (normalized_tidy t Htidy) in *.
  apply (Match_description q _ (normalized d)); [| done].
  rewrite normalized_trim. by apply occursIn_trim.
Qed.

Lemma normalizeData_trimmed data items it :
  Normalized.normalizeData data = Some items → it ∈ items →
  trim (Normalized.t it) = Normalized.t it ∧
  trim (Normalized.d it) = Normalized.d it.
Proof.
  unfold Normalized.normalizeData. intros H%normalizeEntries_trimmed Hit.
  rewrite Forall_forall in H. by destruct (H it Hit) as (_ & _ & ? & ? & _).
Qed.

Lemma LoadedMatch_points data items q it k :
  nonEmpty q = true → normalized q = q →
  Normalized.normalizeData data = Some items →
  LoadedMatch items q it k →
  Normalized.score q (Normalized.t it) (Normalized.d it) = points 850 650 0 k.
Proof.
  intros Hq Hn Hdata [Hit HM].
  apply normalized_query in Hn as [Hlow Htrim].
  destruct (normalizeData_trimmed data items it Hdata Hit) as [Ht Hd].
  apply Normalized_score_points; [done |].
  by rewrite Hlow, <-(normalized_tidy _ Ht), <-(normalized_tidy _ Hd).
Qed.

Lemma RecordMatch_points q it k :
  nonEmpty q = true → RecordMatch q it k →
  Inline.scoreItem q it = Some (points 800 600 (-1) k).
Proof.
  intros Hq (t & d & Ht & Hd & HM).
  destruct (field_get it "t" t Ht) as (tv & Hgt & _ & Hnt).
  destruct (field_get it "d" d Hd) as (dv & Hgd & _ & Hnd).
  apply (Inline_score_points q it tv dv _ _ k Hq Hgt Hgd Hnt Hnd).
  by rewrite <-!normalized_trim.
Qed.

(** C5, as the three scripts have it.  For a non-empty normalised query
    the score is strictly ordered by the kind of match between the query
    and the case-folded, trimmed title and description (exact, then prefix,
    then inside the title, then inside the description, then none), and a
    record that matches in no way adds no candidate: in part_001 for every
    record, in part_000 for every record of a loaded list, and in
    src/search.js, which does not trim the fields of a record, for every
    record whose title has no whitespace around it. *)
Theorem score_ordered_by_kind_of_normalised_match
    (q : string) (data : value) (items : list Normalized.item) :
  nonEmpty q = true →
  normalized q = q →
  Normalized.normalizeData data = Some items →
  (StrictByKind (PortalScore q) (TidyMatch q) ∧
   OmitsUnmatched (PortalScore q) (TidyMatch q) (Portal.candidates q) Portal.s) ∧
  (StrictByKind (NormalizedScore q) (LoadedMatch items q) ∧
   OmitsUnmatched (NormalizedScore q) (LoadedMatch items q)
                  (λ l, Some (Normalized.candidates q l)) Normalized.s) ∧
  (StrictByKind (Inline.scoreItem q) (RecordMatch q) ∧
   OmitsUnmatched (Inline.scoreItem q) (RecordMatch q)
                  (Inline.candidates q) Inline.s).
Proof.
  intros Hq Hn Hdata.
  split; [split | split; split].
  - apply (strict_of_points _ _ 800 600 0); try lia.
    intros it k. by apply TidyMatch_points.
  - apply (omits_of_points _ _ _ _ Portal.mkScored 800 600 0); [done | |].
    + intros it k. by apply TidyMatch_points.
    + intros it rest k HM.
      rewrite (Portal_candidates_cons q it rest _ (TidyMatch_points q it k Hq Hn HM)).
      by destruct k.
  - apply (strict_of_points _ _ 850 650 0); try lia.
    intros it k HM. unfold NormalizedScore.
    by rewrite (LoadedMatch_points data items q it k).
  - apply (omits_of_points _ _ _ _ Normalized.mkScored 850 650 0); [done | |].
    + intros it k HM. unfold NormalizedScore.
      by rewrite (LoadedMatch_points data items q it k).
    + intros it rest k HM. rewrite Normalized_candidates_cons.
      rewrite (LoadedMatch_points data items q it k) by done.
      by destruct k.
  - apply (strict_of_points _ _ 800 600 (-1)); try lia.
    intros it k. by apply RecordMatch_points.
  - apply (omits_of_points _ _ _ _
             (λ z it, Inline.mkScored z (default VUndefined (get it "t"))
                        (default VUndefined (get it "u"))
                        (default VUndefined (get it "d"))) 800 600 (-1));
      [done | |].
    + intros it k. by apply RecordMatch_points.
    + intros it rest k HM.
      pose proof (RecordMatch_points q it k Hq HM) as Hs.
      destruct HM as (t & d & Ht & _).
      destruct (field_get_any it "t" t Ht "t") as [tv Hgt].
      destruct (field_get_any it "t" t Ht "u") as [uv Hgu].
      destruct (field_get_any it "t" t Ht "d") as [dv Hgd].
      rewrite (Inline_candidates_cons q it rest _ tv uv dv Hs Hgt Hgu Hgd).
      rewrite Hgt, Hgu, Hgd. by destruct k.
Qed.

Lemma score_ordered_by_kind_of_normalised_match_witness :
  nonEmpty "apple" = true ∧
  normalized "apple" = "apple"%string ∧
  Normalized.normalizeData (VObj {[ "items"%string := VArr Examples.pies ]})
    = Some [Normalized.mkItem "Apple Pie" "" "/a";
            Normalized.mkItem "Apple" "" "/b"] ∧
  (StrictByKind (PortalScore "apple") (TidyMatch "apple") ∧
   OmitsUnmatched (PortalScore "apple") (TidyMatch "apple")
                  (Portal.candidates "apple") Portal.s) ∧
  (StrictByKind (NormalizedScore "apple")
                (LoadedMatch [Normalized.mkItem "Apple Pie" "" "/a";
                              Normalized.mkItem "Apple" "" "/b"] "apple") ∧
   OmitsUnmatched (NormalizedScore "apple")
                  (LoadedMatch [Normalized.mkItem "Apple Pie" "" "/a";
                                Normalized.mkItem "Apple" "" "/b"] "apple")
                  (λ l, Some (Normalized.candidates "apple" l)) Normalized.s) ∧
  (StrictByKind (Inline.scoreItem "apple") (RecordMatch "apple") ∧
   OmitsUnmatched (Inline.scoreItem "apple") (RecordMatch "apple")
                  (Inline.candidates "apple") Inline.s).
Proof.
  assert (Normalized.normalizeData (VObj {[ "items"%string := VArr Examples.pies ]})
          = Some [Normalized.mkItem "Apple Pie" "" "/a";
                  Normalized.mkItem "Apple" "" "/b"]) as Hdata
    by (vm_compute; reflexivity).
  split; [reflexivity |]. split; [reflexivity |]. split; [exact Hdata |].
  exact (score_ordered_by_kind_of_normalised_match "apple" _ _
           eq_refl eq_refl Hdata).
Defined.

(** The kinds of match of the three records of the examples, and of a
    record that does not match. *)
Example kinds_of_match :
  TidyMatch "apple" (Examples.record "Apple" "/b") Exact ∧
  TidyMatch "apple" (Examples.record "Apple Pie" "/a") Prefix ∧
  TidyMatch "apple" (Examples.record "Green Apple" "/g") InTitle ∧
  TidyMatch "apple"
    (VObj {[ "t"%string := VStr "Pie"; "d"%string := VStr " An apple. " ]})
    InDescription ∧
  TidyMatch "apple" (Examples.record "Pear" "/p") NoMatch.
Proof.
  split_and!.
  - exists "Apple"%string, ""%string. split_and!; try (vm_compute; reflexivity).
    by apply match_exact.
  - exists "Apple Pie"%string, ""%string. split_and!; try (vm_compute; reflexivity).
    apply match_prefix; [done |]. by exists " pie"%string.
  - exists "Green Apple"%string, ""%string.
    split_and!; try (vm_compute; reflexivity).
    apply match_title.
    + rewrite <-startsWith_isPrefixOf. vm_compute. discriminate.
    + by exists "green "%string, ""%string.
  - exists "Pie"%string, " An apple. "%string.
    split_and!; try (vm_compute; reflexivity).
    apply match_description.
    + rewrite <-indexOf_found. vm_compute. discriminate.
    + by exists "an "%string, "."%string.
  - exists "Pear"%string, ""%string. split_and!; try (vm_compute; reflexivity).
    apply match_none; rewrite <-indexOf_found; vm_compute; discriminate.
Qed.

(** C5 as it is stated fails in src/search.js on a title with a blank
    before it: the title " Apple" is, case-folded and trimmed, the query
    "apple", an exact match, and src/search.js gives it the score 600 of an
    occurrence inside the title, below the 800 of the prefix match
    "Apple Pie". *)
Lemma title_with_a_blank_scores_below_a_prefix :
  RecordMatch "apple" (Examples.record " Apple" "/a") Exact ∧
  RecordMatch "apple" (Examples.record "Apple Pie" "/b") Prefix ∧
  PortalScore "apple" (Examples.record " Apple" "/a") = Some 600 ∧
  PortalScore "apple" (Examples.record "Apple Pie" "/b") = Some 800 ∧
  ¬ StrictByKind (PortalScore "apple") (RecordMatch "apple").
Proof.
  assert (RecordMatch "apple" (Examples.record " Apple" "/a") Exact) as H1.
  { exists " Apple"%string, ""%string. split_and!; try (vm_compute; reflexivity).
    by apply match_exact. }
  assert (RecordMatch "apple" (Examples.record "Apple Pie" "/b") Prefix) as H2.
  { exists "Apple Pie"%string, ""%string.
    split_and!; try (vm_compute; reflexivity).
    apply match_prefix; [done |]. by exists " pie"%string. }
  assert (PortalScore "apple" (Examples.record " Apple" "/a") = Some 600) as H3
    by (vm_compute; reflexivity).
  assert (PortalScore "apple" (Examples.record "Apple Pie" "/b") = Some 800) as H4
    by (vm_compute; reflexivity).
  split_and!; try done.
  intros HS.
  destruct (HS _ _ Exact Prefix H1 H2) as (s1 & s2 & Hs1 & Hs2 & Hlt).
  { simpl. lia. }
  rewrite H3 in Hs1. rewrite H4 in Hs2.
  injection Hs1 as <-. injection Hs2 as <-. lia.
Qed.

(** The same title in part_000, which trims it when it loads the index, and
    in part_001, which trims it when it scores: both give the score of an
    exact match. *)
Example title_with_a_blank_in_the_other_scripts :
  Normalized.normalizeData (VArr [Examples.record " Apple" "/a"])
    = Some [Normalized.mkItem "Apple" "" "/a"] ∧
  Normalized.score "apple" "Apple" "" = 1000 ∧
  Inline.scoreItem "apple" (Examples.record " Apple" "/a") = Some 1000.
Proof. split_and!; vm_compute; reflexivity. Qed.
End ScoresByKind.

(** ** Enter without an active row *)

Section EnterKey.
Import JsString Js JsArray Dom Spec Props.

Lemma NormalizedUrlsOk_same st st' :
  Normalized.items st' = Normalized.items st →
  Normalized.content st' = Normalized.content st →
  NormalizedUrlsOk st → NormalizedUrlsOk st'.
Proof. unfold NormalizedUrlsOk. by intros -> ->. Qed.

Lemma NormalizedUrlsOk_blank st st' :
  Normalized.items st' = Normalized.items st →
  searchItems (Normalized.content st') = [] →
  NormalizedUrlsOk st → NormalizedUrlsOk st'.
Proof. unfold NormalizedUrlsOk. intros -> -> [? _]. by split. Qed.

Lemma Normalized_render_urls q st :
  NormalizedUrlsOk st → NormalizedUrlsOk (Normalized.render q st).
Proof.
  intros Hok. unfold Normalized.render.
  destruct (negb (nonEmpty (trim q))).
  { by apply (NormalizedUrlsOk_blank st). }
  destruct (len (Normalized.top (trim q) (Normalized.items st)) =? 0).
  { by apply (NormalizedUrlsOk_blank st). }
  destruct Hok as [Hi _]. split; [done |]. simpl.
  apply Forall_fmap, Forall_forall. intros c Hc.
  destruct (top_total (trim q) (Normalized.items st)) as (sorted & Hs & Htop).
  rewrite Htop in Hc. apply elem_of_slice0 in Hc.
  apply sort_Permutation in Hs. rewrite Hs in Hc.
  apply Normalized_candidates_elem in Hc as (Hit & _).
  rewrite Forall_forall in Hi. destruct (Hi _ Hit) as [Hne Htr].
  simpl. by rewrite Hne.
Qed.

Lemma Normalized_ensureLoaded_urls st :
  NormalizedUrlsOk st → NormalizedUrlsOk (Normalized.ensureLoaded st).
Proof.
  intros Hok. unfold Normalized.ensureLoaded, Normalized.cb.
  repeat case_match; try by apply Normalized_render_urls.
  done.
Qed.

Lemma Normalized_finish_urls v n st :
  Forall (λ i, storedUrl (Normalized.u i)) v →
  NormalizedUrlsOk st → NormalizedUrlsOk (Normalized.finish v n st).
Proof.
  intros Hv [_ Hr]. unfold Normalized.finish, Normalized.cb.
  by apply Normalized_render_urls.
Qed.

Lemma normalizeData_urls data v :
  Normalized.normalizeData data = Some v →
  Forall (λ i, storedUrl (Normalized.u i)) v.
Proof.
  unfold Normalized.normalizeData. intros H%normalizeEntries_trimmed.
  eapply Forall_impl; [exact H |]. by intros i (_ & ? & _ & _ & ?).
Qed.

Lemma Normalized_go_urls url st :
  NormalizedUrlsOk st → NormalizedUrlsOk (Normalized.go url st).
Proof.
  apply NormalizedUrlsOk_same; unfold Normalized.go; by repeat case_match.
Qed.

Lemma Normalized_keydown_urls k st :
  NormalizedUrlsOk st → NormalizedUrlsOk (Normalized.keydown k st).
Proof.
  intros Hok. unfold Normalized.keydown.
  destruct (negb (Normalized.open st && Normalized.display st)).
  - destruct k; try done.
    + by apply Normalized_ensureLoaded_urls.
    + by apply (NormalizedUrlsOk_blank st).
  - destruct k.
    + by case_match.
    + by case_match.
    + repeat case_match; try done; by apply Normalized_go_urls.
    + by apply (NormalizedUrlsOk_blank st).
    + done.
Qed.

Lemma Normalized_step_urls e st :
  NormalizedUrlsOk st → NormalizedUrlsOk (Normalized.step e st).
Proof.
  intros Hok. destruct e as [|text|k|i| |r]; simpl.
  - by apply Normalized_ensureLoaded_urls.
  - by apply Normalized_ensureLoaded_urls.
  - by apply Normalized_keydown_urls.
  - case_match; [| done]. by apply Normalized_go_urls.
  - by apply (NormalizedUrlsOk_blank st).
  - unfold Normalized.settled.
    repeat case_match; try done; apply Normalized_finish_urls; try done;
      first [by eapply normalizeData_urls | constructor].
Qed.

(** Whatever the events, the rows of part_000 carry stored urls. *)
Lemma Normalized_run_urls text es :
  NormalizedUrlsOk (Normalized.run es (Normalized.init text)).
Proof.
  unfold Normalized.run.
  assert (NormalizedUrlsOk (Normalized.init text)) as Hinit by (by split).
  revert Hinit. generalize (Normalized.init text).
  induction es as [|e es IH]; intros st Hok; simpl; [done |].
  by apply IH, Normalized_step_urls.
Qed.

(** C8, as the three scripts have it.  Enter on an open panel with rows and
    no active row: part_000, in any state that events bring it to, goes to
    the url of the first row; src/search.js goes to the url of the first row
    when that url is not empty, and does nothing when it is empty; part_001
    does nothing. *)
Theorem Enter_without_selection_goes_to_the_first_url
    (text : string) (es : list event)
    (rowP rowN rowI : row) (restP restN restI : list row)
    (stP : Portal.state) (stI : Inline.state) :
  Portal.display stP = true →
  searchItems (Portal.content stP) = rowP :: restP →
  Portal.activeIndex stP = -1 →
  Normalized.open (Normalized.run es (Normalized.init text)) = true →
  Normalized.display (Normalized.run es (Normalized.init text)) = true →
  searchItems (Normalized.content (Normalized.run es (Normalized.init text)))
    = rowN :: restN →
  Normalized.activeIndex (Normalized.run es (Normalized.init text)) = -1 →
  Inline.isOpen stI = true →
  searchItems (Inline.content stI) = rowI :: restI →
  Inline.active stI = -1 →
  (nonEmpty (row_url rowP) = true →
   Portal.href (Portal.keydown Enter stP) = Some (row_url rowP)) ∧
  (nonEmpty (row_url rowP) = false → Portal.keydown Enter stP = stP) ∧
  Normalized.href (Normalized.keydown Enter (Normalized.run es (Normalized.init text)))
    = Some (row_url rowN) ∧
  Inline.keydown Enter stI = stI.
Proof.
  intros HdP HrP HaP HoN HdN HrN HaN HoI HrI HaI.
  pose proof (Normalized_run_urls text es) as [_ Hrows].
  rewrite HrN in Hrows. apply Forall_cons in Hrows as [[HuN HtN] _].
  unfold Portal.keydown, Normalized.keydown, Inline.keydown.
  rewrite HdP, HoN, HdN, HoI, HrP, HrN, HaP, HaN, HaI. simpl.
  unfold Portal.go, Normalized.go, Normalized.normUrl. simpl.
  rewrite HtN, HuN. simpl. rewrite HuN.
  split_and!; try done; by intros ->.
Qed.

Lemma Enter_without_selection_goes_to_the_first_url_witness :
  Portal.display (Examples.portalOpen Examples.threeRows (-1)) = true ∧
  searchItems (Portal.content (Examples.portalOpen Examples.threeRows (-1)))
    = mkRow "/a" "A" "" :: [mkRow "/b" "B" ""; mkRow "/c" "C" ""] ∧
  Portal.activeIndex (Examples.portalOpen Examples.threeRows (-1)) = -1 ∧
  Normalized.open (Normalized.run Examples.applesTyped (Normalized.init "")) = true ∧
  Normalized.display (Normalized.run Examples.applesTyped (Normalized.init "")) = true ∧
  searchItems
    (Normalized.content (Normalized.run Examples.applesTyped (Normalized.init "")))
    = mkRow "/b" "Apple" "" :: [mkRow "/a" "Apple Pie" ""] ∧
  Normalized.activeIndex (Normalized.run Examples.applesTyped (Normalized.init ""))
    = -1 ∧
  Inline.isOpen (Examples.inlineOpen Examples.threeRows (-1)) = true ∧
  searchItems (Inline.content (Examples.inlineOpen Examples.threeRows (-1)))
    = mkRow "/a" "A" "" :: [mkRow "/b" "B" ""; mkRow "/c" "C" ""] ∧
  Inline.active (Examples.inlineOpen Examples.threeRows (-1)) = -1 ∧
  (nonEmpty (row_url (mkRow "/a" "A" "")) = true →
   Portal.href (Portal.keydown Enter (Examples.portalOpen Examples.threeRows (-1)))
   = Some (row_url (mkRow "/a" "A" ""))) ∧
  (nonEmpty (row_url (mkRow "/a" "A" "")) = false →
   Portal.keydown Enter (Examples.portalOpen Examples.threeRows (-1))
   = Examples.portalOpen Examples.threeRows (-1)) ∧
  Normalized.href
    (Normalized.keydown Enter
       (Normalized.run Examples.applesTyped (Normalized.init "")))
    = Some (row_url (mkRow "/b" "Apple" "")) ∧
  Inline.keydown Enter (Examples.inlineOpen Examples.threeRows (-1))
    = Examples.inlineOpen Examples.threeRows (-1).
Proof.
  assert (Normalized.open (Normalized.run Examples.applesTyped (Normalized.init ""))
          = true) as H1 by (vm_compute; reflexivity).
  assert (Normalized.display (Normalized.run Examples.applesTyped (Normalized.init ""))
          = true) as H2 by (vm_compute; reflexivity).
  assert (searchItems
            (Normalized.content
               (Normalized.run Examples.applesTyped (Normalized.init "")))
          = mkRow "/b" "Apple" "" :: [mkRow "/a" "Apple Pie" ""]) as H3
    by (vm_compute; reflexivity).
  assert (Normalized.activeIndex
            (Normalized.run Examples.applesTyped (Normalized.init "")) = -1) as H4
    by (vm_compute; reflexivity).
  do 3 (split; [reflexivity |]).
  split; [exact H1 |]. split; [exact H2 |]. split; [exact H3 |].
  split; [exact H4 |]. do 3 (split; [reflexivity |]).
  exact (Enter_without_selection_goes_to_the_first_url
           "" Examples.applesTyped
           (mkRow "/a" "A" "") (mkRow "/b" "Apple" "") (mkRow "/a" "A" "")
           [mkRow "/b" "B" ""; mkRow "/c" "C" ""]
           [mkRow "/a" "Apple Pie" ""]
           [mkRow "/b" "B" ""; mkRow "/c" "C" ""]
           (Examples.portalOpen Examples.threeRows (-1))
           (Examples.inlineOpen Examples.threeRows (-1))
           eq_refl eq_refl eq_refl H1 H2 H3 H4 eq_refl eq_refl eq_refl).
Defined.

(** C8 as it is stated fails from page load on an index whose one record
    has an empty array as url.  With "x" typed, each script shows one row
    and has no active row.  src/search.js has rendered the row with an empty
    url and Enter does nothing; part_000 has stored the url "/" and Enter
    goes there; part_001 does nothing.  One script navigates, not two. *)
Lemma Enter_on_a_first_row_without_url :
  (Portal.display (Portal.run Examples.noUrlTyped (Portal.init "")) = true ∧
   Portal.content (Portal.run Examples.noUrlTyped (Portal.init ""))
     = Rows [mkRow "" "x" ""] ∧
   Portal.activeIndex (Portal.run Examples.noUrlTyped (Portal.init "")) = -1 ∧
   Portal.keydown Enter (Portal.run Examples.noUrlTyped (Portal.init ""))
     = Portal.run Examples.noUrlTyped (Portal.init "") ∧
   Portal.href (Portal.keydown Enter (Portal.run Examples.noUrlTyped (Portal.init "")))
     = None) ∧
  (Normalized.open (Normalized.run Examples.noUrlTyped (Normalized.init "")) = true ∧
   Normalized.content (Normalized.run Examples.noUrlTyped (Normalized.init ""))
     = Rows [mkRow "/" "x" ""] ∧
   Normalized.activeIndex (Normalized.run Examples.noUrlTyped (Normalized.init ""))
     = -1 ∧
   Normalized.href
     (Normalized.keydown Enter
        (Normalized.run Examples.noUrlTyped (Normalized.init "")))
     = Some "/"%string) ∧
  (Inline.isOpen
     (Inline.run countNone unitCompare Examples.noUrlTyped (Inline.init "")) = true ∧
   Inline.content
     (Inline.run countNone unitCompare Examples.noUrlTyped (Inline.init ""))
     = Rows [mkRow "" "x" ""] ∧
   Inline.active
     (Inline.run countNone unitCompare Examples.noUrlTyped (Inline.init "")) = -1 ∧
   Inline.keydown Enter
     (Inline.run countNone unitCompare Examples.noUrlTyped (Inline.init ""))
     = Inline.run countNone unitCompare Examples.noUrlTyped (Inline.init "")).
Proof. split_and!; vm_compute; reflexivity. Qed.
End EnterKey.
